(** * swyft.lightning.components: trace engine, simulator driver, zarr store

    A shallow embedding of the simulation-trace engine ([Trace],
    [LazyValue], [TracePrefixContextManager]), of the simulator driver
    ([Simulator._run]) and of the zarr-backed store ([get_index_slices],
    [ZarrStore.init], [ZarrStore.set_length]) of
    [src/swyft/lightning/components.py], with the properties of the
    specification stated over it.

    Python objects are mutable and shared; the embedding threads them
    explicitly.  A computation is a function from a state to an outcome and
    the state it leaves behind; the state survives a raised exception, as
    the mutations of a Python object do. *)

From Stdlib Require Import ZArith List String Bool Lia.
From stdpp Require Import gmap strings list fin_maps.
From Equations Require Import Equations.
Import ListNotations.

Local Open Scope string_scope.
Local Open Scope list_scope.

(** ** Exceptions and the state-and-exception monad *)

Module Py.

(** The exception classes the modelled code raises or lets through. *)
Inductive exn : Type :=
| ValueError (msg : string)
| KeyError (key : string)
| IndexError
| TypeError
| AttributeError
| AssertionError (msg : string)
| NotImplementedError
| UserError (msg : string).

Inductive result (A : Type) : Type :=
| Ok (a : A)
| Raise (e : exn).
Arguments Ok {A} a.
Arguments Raise {A} e.

(** [M S A]: a computation over a mutable state [S] that returns an [A]
    or raises. *)
Definition M (S A : Type) : Type := S -> result A * S.

Definition ret {S A} (a : A) : M S A := fun s => (Ok a, s).

Definition raise {S A} (e : exn) : M S A := fun s => (Raise e, s).

Definition bind {S A B} (c : M S A) (k : A -> M S B) : M S B :=
  fun s =>
    match c s with
    | (Ok a, s') => k a s'
    | (Raise e, s') => (Raise e, s')
    end.

Definition get {S} : M S S := fun s => (Ok s, s).

Definition modify {S} (f : S -> S) : M S unit := fun s => (Ok tt, f s).

(** [for x in l: body(x)], collecting the values. *)
Definition mapM {S A B} (f : A -> M S B) : list A -> M S (list B) :=
  fix go (l : list A) : M S (list B) :=
    match l with
    | [] => ret []
    | a :: l' => bind (f a) (fun b => bind (go l') (fun bs => ret (b :: bs)))
    end.

(** [for x in l: body(x)], for the effect only. *)
Definition forM_ {S A} (f : A -> M S unit) : list A -> M S unit :=
  fix go (l : list A) : M S unit :=
    match l with
    | [] => ret tt
    | a :: l' => bind (f a) (fun _ => go l')
    end.

End Py.

Import Py.

Declare Scope py_scope.
Delimit Scope py_scope with py.
Notation "x <- c ;; k" := (bind c (fun x => k))
  (at level 100, c at next level, right associativity) : py_scope.
Notation "c ;;; k" := (bind c (fun _ => k))
  (at level 100, right associativity) : py_scope.
Local Open Scope py_scope.

(** ** The trace engine *)

(** Python values are opaque to the engine.  What it needs of them is the
    iteration protocol ([zip(fn_out_names, result)]) and the two methods of
    a distribution instance.  [W] is whatever a user function can read and
    change besides its arguments (random generator, counters, ...). *)
Class Protocol (value W : Type) : Type := {
  (** [iter(v)]: the elements, or [None] when [v] is not iterable. *)
  py_iter : value -> option (list value);
  (** [instance.sample()] *)
  py_sample : value -> M W value;
  (** [instance.log_prob]: the bound method, or [None] when the object has
      no such attribute. *)
  py_log_prob : value -> option (value -> M W value)
}.

Section Engine.

Variable value : Type.
Variable W : Type.
Context {protocol : Protocol value W}.

(** A [dict] with string keys, in insertion order. *)
Definition dict : Type := list (string * value).

Fixpoint dict_get (d : dict) (k : string) : option value :=
  match d with
  | [] => None
  | (k', v) :: d' => if String.eqb k' k then Some v else dict_get d' k
  end.

Definition dict_keys (d : dict) : list string := map fst d.

(** [k in container], for a list of names. *)
Definition contains (l : list string) (k : string) : bool :=
  existsb (String.eqb k) l.

(** [class Trace(dict)]: the mapping and the three attributes set by
    [__init__]. *)
Record Trace : Type := mkTrace {
  items : dict;
  _targets : option (list string);
  _prefix : string;
  _eval_log_probs : bool
}.

(** [Trace.__init__(targets, conditions, log_prob)] *)
Definition Trace__init__ (targets : option (list string)) (conditions : dict)
    (log_prob : bool) : Trace :=
  mkTrace conditions targets "" log_prob.

Definition keys (t : Trace) : list string := dict_keys (items t).

Definition set_items (t : Trace) (d : dict) : Trace :=
  mkTrace d (_targets t) (_prefix t) (_eval_log_probs t).

Definition set_prefix (t : Trace) (p : string) : Trace :=
  mkTrace (items t) (_targets t) p (_eval_log_probs t).

(** [Trace.__setitem__]: a key that is present is left alone; a new key
    goes to the end of the insertion order. *)
Definition __setitem__ (t : Trace) (k : string) (v : value) : Trace :=
  if negb (contains (keys t) k) then set_items t (items t ++ [(k, v)])
  else t.

(** [Trace.covers_targets] *)
Definition covers_targets (t : Trace) : bool :=
  match _targets t with
  | None => false
  | Some ts => forallb (contains (keys t)) ts
  end.

(** A user function: its name, and what a call does.  A call sees the
    arguments and the world; it does not reach into the trace the node is
    registered with.  The name only serves the call log below. *)
Record pyfn : Type := mkFn {
  fn_name : string;
  fn_call : list value -> list (string * value) -> M W value
}.

(** What outlives a trace: the world of the user functions, and a log of
    the user functions invoked so far (by name, oldest first). *)
Record Env : Type := mkEnv {
  world : W;
  calls : list string
}.

(** The state the engine runs in: the trace and its environment. *)
Record state : Type := mkState {
  trace : Trace;
  env : Env
}.

Definition with_trace (s : state) (t : Trace) : state :=
  mkState t (env s).

(** Run user code, which sees the world only. *)
Definition in_world {A} (c : M W A) : M Env A :=
  fun e => let '(r, w) := c (world e) in (r, mkEnv w (calls e)).

(** Run a computation of the environment inside the engine. *)
Definition in_env {A} (c : M Env A) : M state A :=
  fun s => let '(r, e) := c (env s) in (r, mkState (trace s) e).

(** [self._fn] applied to [args] and [kwargs], logged. *)
Definition invoke (f : pyfn) (args : list value)
    (kwargs : list (string * value)) : M state value :=
  in_env (fun e =>
    let '(r, w) := fn_call f args kwargs (world e) in
    (r, mkEnv w (calls e ++ [fn_name f]))).

(** [self._trace[k] = v] *)
Definition trace_set (k : string) (v : value) : M state unit :=
  modify (fun s => with_trace s (__setitem__ (trace s) k v)).

(** [self._trace[k]] *)
Definition trace_get (k : string) : M state value :=
  fun s =>
    match dict_get (items (trace s)) k with
    | Some v => (Ok v, s)
    | None => (Raise (KeyError k), s)
    end.

(** [fn_out_names]: one name or a list of names. *)
Inductive out_names : Type :=
| OneName (name : string)
| ManyNames (names : list string).

(** An argument of a node: a plain value, or another node. *)
Inductive arg (L : Type) : Type :=
| Plain (v : value)
| Lazy (l : L).
Arguments Plain {L} v.
Arguments Lazy {L} l.

(** [class LazyValue]; the trace it is bound to is the one of the state. *)
Unset Elimination Schemes.
Inductive LazyValue : Type :=
| mkLazyValue (_this_name : string) (_fn_out_names : out_names)
    (_fn : pyfn) (_dist : bool)
    (_args : list (arg LazyValue))
    (_kwargs : list (string * arg LazyValue)).
Set Elimination Schemes.

Definition _this_name (lv : LazyValue) : string :=
  let 'mkLazyValue n _ _ _ _ _ := lv in n.
Definition _fn_out_names (lv : LazyValue) : out_names :=
  let 'mkLazyValue _ o _ _ _ _ := lv in o.
Definition _fn (lv : LazyValue) : pyfn :=
  let 'mkLazyValue _ _ f _ _ _ := lv in f.
Definition _dist (lv : LazyValue) : bool :=
  let 'mkLazyValue _ _ _ d _ _ := lv in d.
Definition _args (lv : LazyValue) : list (arg LazyValue) :=
  let 'mkLazyValue _ _ _ _ a _ := lv in a.
Definition _kwargs (lv : LazyValue) : list (string * arg LazyValue) :=
  let 'mkLazyValue _ _ _ _ _ k := lv in k.

(** [for out_name, value in zip(names, result): trace[out_name] = value];
    [zip] raises [TypeError] before any assignment when [result] is not
    iterable, and stops at the shorter of the two. *)
Definition store_outputs (outs : out_names) (result : value) : M state unit :=
  match outs with
  | OneName n => trace_set n result
  | ManyNames ns =>
      match py_iter result with
      | None => raise TypeError
      | Some vs =>
          forM_ (fun nv : string * value => trace_set (fst nv) (snd nv))
                (combine ns vs)
      end
  end.

(** Python's truth value of a string. *)
Definition nonempty (s : string) : bool :=
  match s with EmptyString => false | _ => true end.

(** The gate of the log-probability block of [evaluate]. *)
Definition wants_log_prob (t : Trace) (lv : LazyValue) : bool :=
  _eval_log_probs t && nonempty (_this_name lv) && _dist lv.

(** The second half of [evaluate]: the log-probability block and the
    final [return self._trace[self._this_name]].  [instance] is the local
    variable of that name; [rebuild] is the call that builds a fresh
    instance when it is [None]. *)
Definition finish (lv : LazyValue) (rebuild : M state value)
    (instance : option value) : M state value :=
  s <- get ;;
  (if wants_log_prob (trace s) lv then
     inst <- match instance with
             | Some i => ret i
             | None => rebuild
             end ;;
     log_prob <- match py_log_prob inst with
                 | Some method => ret method
                 | None => raise AttributeError
                 end ;;
     v <- trace_get (_this_name lv) ;;
     lp <- in_env (in_world (log_prob v)) ;;
     trace_set (_this_name lv +:+ ":log_prob") lp
   else ret tt) ;;;
  trace_get (_this_name lv).

(** [LazyValue.evaluate].

    The positional arguments are a generator expression, consumed only
    when [self._fn] is called, while the keyword arguments are a dict
    comprehension, built on the line before: lazy keyword arguments are
    evaluated first, lazy positional arguments after them. *)
Fixpoint evaluate (lv : LazyValue) {struct lv} : M state value :=
  match lv with
  | mkLazyValue this_name fn_out_names fn dist args kwargs =>
      let eval_arg := fun a : arg LazyValue =>
        match a with
        | Plain v => ret v
        | Lazy l => evaluate l
        end in
      let call_fn : M state value :=
        kw <- mapM (fun ka : string * arg LazyValue =>
                      v <- eval_arg (snd ka) ;; ret (fst ka, v)) kwargs ;;
        ar <- mapM eval_arg args ;;
        invoke fn ar kw in
      s <- get ;;
      instance <-
        (if negb (contains (keys (trace s)) this_name) then
           if negb dist then
             result <- call_fn ;;
             store_outputs fn_out_names result ;;;
             ret None
           else
             instance <- call_fn ;;
             result <- in_env (in_world (py_sample instance)) ;;
             store_outputs fn_out_names result ;;;
             ret (Some instance)
         else ret None) ;;
      finish lv call_fn instance
  end.

(** The pieces of [evaluate], by name: an argument, the arguments of a
    node (keyword arguments first, see above), and the call of its
    function on them. *)
Definition eval_arg (a : arg LazyValue) : M state value :=
  match a with
  | Plain v => ret v
  | Lazy l => evaluate l
  end.

Definition eval_kwarg (ka : string * arg LazyValue) : M state (string * value) :=
  v <- eval_arg (snd ka) ;; ret (fst ka, v).

Definition eval_arguments (lv : LazyValue)
    : M state (list (string * value) * list value) :=
  kw <- mapM eval_kwarg (_kwargs lv) ;;
  ar <- mapM eval_arg (_args lv) ;;
  ret (kw, ar).

Definition call_fn (lv : LazyValue) : M state value :=
  kw <- mapM eval_kwarg (_kwargs lv) ;;
  ar <- mapM eval_arg (_args lv) ;;
  invoke (_fn lv) ar kw.

(** The [names] argument of [sample]: a string, a list of strings, or
    anything else. *)
Inductive names_arg : Type :=
| NameStr (name : string)
| NameList (names : list string)
| NameOther.

(** What [sample] returns: one [LazyValue], or a tuple of them. *)
Inductive sample_ret : Type :=
| OneLazy (lv : LazyValue)
| TupleLazy (lvs : list LazyValue).

(** [self._targets is None or any([k in self._targets for k in names])] *)
Definition wanted (t : Trace) (names : list string) : bool :=
  match _targets t with
  | None => true
  | Some ts => existsb (contains ts) names
  end.

(** [Trace._sample] *)
Definition _sample (names : names_arg) (fn : pyfn) (dist : bool)
    (args : list (arg LazyValue)) (kwargs : list (string * arg LazyValue))
    : M state sample_ret :=
  s <- get ;;
  let self := trace s in
  match names with
  | NameList names =>
      let names := map (fun n => _prefix self +:+ n) names in
      let lazy_values :=
        map (fun k => mkLazyValue k (ManyNames names) fn dist args kwargs)
            names in
      (if wanted self names then
         match lazy_values with
         | lv0 :: _ => evaluate lv0 ;;; ret tt
         | [] => raise IndexError
         end
       else ret tt) ;;;
      ret (TupleLazy lazy_values)
  | NameStr names =>
      let name := _prefix self +:+ names in
      let lazy_value := mkLazyValue name (OneName name) fn dist args kwargs in
      (if wanted self [name] then evaluate lazy_value ;;; ret tt
       else ret tt) ;;;
      ret (OneLazy lazy_value)
  | NameOther => raise (ValueError "")
  end.

(** [Trace.sample]; the assertion [callable(fn)] holds of every [pyfn]. *)
Definition sample (names : names_arg) (fn : pyfn)
    (args : list (arg LazyValue)) (kwargs : list (string * arg LazyValue))
    : M state sample_ret :=
  _sample names fn false args kwargs.

(** [Trace.sample_dist] *)
Definition sample_dist (names : names_arg) (fn : pyfn)
    (args : list (arg LazyValue)) (kwargs : list (string * arg LazyValue))
    : M state sample_ret :=
  _sample names fn true args kwargs.

(** [class TracePrefixContextManager]: its own [_prefix] attribute (the
    trace it points to is the one of the state). *)
Record TracePrefixContextManager : Type := mkContextManager {
  cm_prefix : string
}.

(** [Trace.prefix] *)
Definition prefix (p : string) : TracePrefixContextManager :=
  mkContextManager p.

(** [TracePrefixContextManager.__enter__]: the tuple on the right is built
    first, then both attributes are assigned.  Returns the manager as the
    assignment leaves it. *)
Definition __enter__ (self : TracePrefixContextManager)
    : M state TracePrefixContextManager :=
  fun s =>
    let t := trace s in
    (Ok (mkContextManager (_prefix t)),
     with_trace s (set_prefix t (cm_prefix self +:+ _prefix t))).

(** [TracePrefixContextManager.__exit__]; it returns [None], so an
    exception of the body goes on. *)
Definition __exit__ (self : TracePrefixContextManager) : M state unit :=
  modify (fun s => with_trace s (set_prefix (trace s) (cm_prefix self))).

(** [with cm: body].  [__exit__] runs whether the body returns or
    raises.  In [with trace.prefix(p): ...] the manager has no name and
    [__enter__] returns [None], so the body has no way to it: [__exit__]
    finds the manager as [__enter__] left it. *)
Definition with_ {A} (cm : TracePrefixContextManager) (body : M state A)
    : M state A :=
  fun s =>
    match __enter__ cm s with
    | (Ok cm', s1) =>
        let '(r, s2) := body s1 in
        match __exit__ cm' s2 with
        | (Ok _, s3) => (r, s3)
        | (Raise e, s3) => (Raise e, s3)
        end
    | (Raise e, s1) => (Raise e, s1)
    end.

(** *** The operations on a trace

    [Trace] overrides [__setitem__] only; every other mutator of [dict]
    is inherited as it is.  CPython's [dict.update] and [del d[k]] work on
    the table directly and do not go through an overridden
    [__setitem__]. *)

(** [dict.__setitem__]: overwrite in place, or append. *)
Fixpoint dict_setitem (d : dict) (k : string) (v : value) : dict :=
  match d with
  | [] => [(k, v)]
  | (k', v') :: d' =>
      if String.eqb k' k then (k', v) :: d'
      else (k', v') :: dict_setitem d' k v
  end.

(** [dict.update(other)] *)
Definition dict_update (d other : dict) : dict :=
  fold_left (fun acc kv => dict_setitem acc (fst kv) (snd kv)) other d.

(** [dict.__delitem__]; [None] when the key is missing. *)
Fixpoint dict_delitem (d : dict) (k : string) : option dict :=
  match d with
  | [] => None
  | (k', v') :: d' =>
      if String.eqb k' k then Some d'
      else match dict_delitem d' k with
           | Some d'' => Some ((k', v') :: d'')
           | None => None
           end
  end.

Inductive trace_op : Type :=
| SetItem (k : string) (v : value)
| CoversTargets
| Sample (names : names_arg) (fn : pyfn)
    (args : list (arg LazyValue)) (kwargs : list (string * arg LazyValue))
| SampleDist (names : names_arg) (fn : pyfn)
    (args : list (arg LazyValue)) (kwargs : list (string * arg LazyValue))
| Evaluate (lv : LazyValue)
| Enter (cm : TracePrefixContextManager)
| Exit (cm : TracePrefixContextManager)
| Update (other : dict)
| DelItem (k : string).

Definition run_op (op : trace_op) : M state unit :=
  match op with
  | SetItem k v => trace_set k v
  | CoversTargets => ret tt
  | Sample names fn args kwargs => sample names fn args kwargs ;;; ret tt
  | SampleDist names fn args kwargs =>
      sample_dist names fn args kwargs ;;; ret tt
  | Evaluate lv => evaluate lv ;;; ret tt
  | Enter cm => __enter__ cm ;;; ret tt
  | Exit cm => __exit__ cm
  | Update other =>
      modify (fun s =>
        with_trace s (set_items (trace s)
                                (dict_update (items (trace s)) other)))
  | DelItem k =>
      fun s =>
        match dict_delitem (items (trace s)) k with
        | Some d => (Ok tt, with_trace s (set_items (trace s) d))
        | None => (Raise (KeyError k), s)
        end
  end.

(** The operations that [Trace], [LazyValue] and
    [TracePrefixContextManager] define themselves. *)
Definition defined_by_trace (op : trace_op) : bool :=
  match op with
  | Update _ | DelItem _ => false
  | _ => true
  end.

(** A run of operations over the life of a trace; the caller may catch an
    exception and go on, so the outcome of each step is dropped. *)
Definition run_ops (ops : list trace_op) (s : state) : state :=
  fold_left (fun s op => snd (run_op op s)) ops s.

(** The position of a key in the insertion order. *)
Fixpoint key_index (l : list string) (k : string) : option nat :=
  match l with
  | [] => None
  | k' :: l' =>
      if String.eqb k' k then Some 0
      else option_map S (key_index l' k)
  end.

(** ** The simulator driver *)

(** [class Simulator]: the method to override and the two hooks. *)
Record Simulator : Type := mkSimulator {
  on_before_forward : dict -> M W dict;
  forward : M state unit;
  on_after_forward : dict -> M W dict
}.

(** The base class: both hooks return their argument, [forward] raises. *)
Definition base_simulator : Simulator :=
  mkSimulator (fun sample => ret sample)
              (raise NotImplementedError)
              (fun sample => ret sample).

(** A subclass that overrides [forward] only. *)
Definition simulator_of (fwd : M state unit) : Simulator :=
  mkSimulator (on_before_forward base_simulator) fwd
              (on_after_forward base_simulator).

(** The [conditions] argument: a dict, or a callable that returns one. *)
Inductive conditions_arg : Type :=
| CondDict (d : dict)
| CondCallable (f : M W dict).

(** [conditions() if callable(conditions) else conditions] *)
Definition resolve_conditions (conditions : conditions_arg) : M Env dict :=
  match conditions with
  | CondCallable f => in_world f
  | CondDict d => ret d
  end.

(** [self.forward(trace)] on the local trace of [_run]. *)
Definition call_forward (fwd : M state unit) (t : Trace) : M Env Trace :=
  fun e =>
    match fwd (mkState t e) with
    | (Ok _, s) => (Ok (trace s), env s)
    | (Raise x, s) => (Raise x, env s)
    end.

Definition is_some {A} (o : option A) : bool :=
  match o with Some _ => true | None => false end.

(** [Simulator._run] *)
Definition _run (self : Simulator) (targets : option (list string))
    (conditions : conditions_arg) (log_prob : bool) : M Env dict :=
  conditions <- resolve_conditions conditions ;;
  conditions <- in_world (on_before_forward self conditions) ;;
  let trace := Trace__init__ targets conditions log_prob in
  trace <- (if negb (covers_targets trace)
            then call_forward (forward self) trace
            else ret trace) ;;
  (if is_some targets && negb (covers_targets trace)
   then raise (ValueError "Missing simulation targets.")
   else ret tt) ;;;
  in_world (on_after_forward self (items trace)).

End Engine.

Arguments dict_get {value}.
Arguments dict_keys {value}.
Arguments mkTrace {value}.
Arguments items {value}.
Arguments _targets {value}.
Arguments _prefix {value}.
Arguments _eval_log_probs {value}.
Arguments Trace__init__ {value}.
Arguments keys {value}.
Arguments set_items {value}.
Arguments set_prefix {value}.
Arguments __setitem__ {value}.
Arguments covers_targets {value}.
Arguments mkFn {value W}.
Arguments fn_name {value W}.
Arguments fn_call {value W}.
Arguments mkEnv {W}.
Arguments world {W}.
Arguments calls {W}.
Arguments mkState {value W}.
Arguments trace {value W}.
Arguments env {value W}.
Arguments with_trace {value W}.
Arguments in_world {W A}.
Arguments in_env {value W A}.
Arguments invoke {value W}.
Arguments trace_set {value W}.
Arguments trace_get {value W}.
Arguments Plain {value L}.
Arguments Lazy {value L}.
Arguments mkLazyValue {value W}.
Arguments _this_name {value W}.
Arguments _fn_out_names {value W}.
Arguments _fn {value W}.
Arguments _dist {value W}.
Arguments _args {value W}.
Arguments _kwargs {value W}.
Arguments store_outputs {value W protocol}.
Arguments wants_log_prob {value W}.
Arguments finish {value W protocol}.
Arguments evaluate {value W protocol}.
Arguments eval_arg {value W protocol}.
Arguments eval_kwarg {value W protocol}.
Arguments eval_arguments {value W protocol}.
Arguments call_fn {value W protocol}.
Arguments OneLazy {value W}.
Arguments TupleLazy {value W}.
Arguments wanted {value}.
Arguments _sample {value W protocol}.
Arguments sample {value W protocol}.
Arguments sample_dist {value W protocol}.
Arguments __enter__ {value W}.
Arguments __exit__ {value W}.
Arguments with_ {value W A}.
Arguments mkSimulator {value W}.
Arguments on_before_forward {value W}.
Arguments forward {value W}.
Arguments on_after_forward {value W}.
Arguments base_simulator {value W}.
Arguments simulator_of {value W}.
Arguments CondDict {value W}.
Arguments CondCallable {value W}.
Arguments resolve_conditions {value W}.
Arguments call_forward {value W}.
Arguments _run {value W}.
Arguments dict_setitem {value}.
Arguments dict_update {value}.
Arguments dict_delitem {value}.
Arguments SetItem {value W}.
Arguments CoversTargets {value W}.
Arguments Sample {value W}.
Arguments SampleDist {value W}.
Arguments Evaluate {value W}.
Arguments Enter {value W}.
Arguments Exit {value W}.
Arguments Update {value W}.
Arguments DelItem {value W}.
Arguments run_op {value W protocol}.
Arguments defined_by_trace {value W}.
Arguments run_ops {value W protocol}.

(** *** Predicates on runs of the engine *)

Section Predicates.

Context {value W : Type}.

(** Every run of [c] relates the state before to the state after,
    whatever the outcome. *)
Definition preserves {S A : Type} (R : S -> S -> Prop) (c : M S A) : Prop :=
  forall s r s', c s = (r, s') -> R s s'.

(** [s'] comes after [s] in the life of a trace: the entries of [s] are
    still there, unchanged and at the same places, with new entries behind
    them; targets and the log-probability flag are the same; the call log
    has only grown. *)
Definition grows (s s' : state value W) : Prop :=
  (exists d, items (trace s') = items (trace s) ++ d) /\
  _targets (trace s') = _targets (trace s) /\
  _eval_log_probs (trace s') = _eval_log_probs (trace s) /\
  (exists l, calls (env s') = calls (env s) ++ l).

(** [grows], and the prefix is the same. *)
Definition extends (s s' : state value W) : Prop :=
  grows s s' /\ _prefix (trace s') = _prefix (trace s).

(** Only the environment may differ. *)
Definition same_trace (s s' : state value W) : Prop :=
  trace s' = trace s.

(** No user function was invoked in between. *)
Definition same_calls (s s' : state value W) : Prop :=
  calls (env s') = calls (env s).

(** [J] on the trace before makes the trace after the same. *)
Definition frame (J : Trace value -> Prop) (s s' : state value W) : Prop :=
  J (trace s) -> trace s' = trace s.

(** [P] holds of every element. *)
Definition all_of {A : Type} (P : A -> Prop) : list A -> Prop :=
  fix go (l : list A) : Prop :=
    match l with
    | [] => True
    | a :: l' => P a /\ go l'
    end.

(** Trace [t] has all that an evaluation of the node would put there: its
    name and, where the log-probability block applies, the log-probability
    entry and all that the nodes among the arguments would put there. *)
Fixpoint settled (t : Trace value) (lv : LazyValue value W) {struct lv}
    : Prop :=
  match lv with
  | mkLazyValue n o f d args kwargs =>
      contains (keys t) n = true /\
      (_eval_log_probs t && nonempty n && d = true ->
       contains (keys t) (n +:+ ":log_prob") = true /\
       all_of (fun a => match a with
                        | Plain _ => True
                        | Lazy l => settled t l
                        end) args /\
       all_of (fun ka : string * arg value (LazyValue value W) =>
                 match snd ka with
                 | Plain _ => True
                 | Lazy l => settled t l
                 end) kwargs)
  end.

(** The nodes that [_sample] builds for [names] on trace [t], in the order
    of the tuple it returns (one node for a single name). *)
Definition registered (t : Trace value) (names : names_arg)
    (fn : pyfn value W) (dist : bool)
    (args : list (arg value (LazyValue value W)))
    (kwargs : list (string * arg value (LazyValue value W)))
    : list (LazyValue value W) :=
  match names with
  | NameStr x =>
      [mkLazyValue (_prefix t +:+ x) (OneName (_prefix t +:+ x))
                   fn dist args kwargs]
  | NameList xs =>
      let names := map (fun n => _prefix t +:+ n) xs in
      map (fun k => mkLazyValue k (ManyNames names) fn dist args kwargs) names
  | NameOther => []
  end.

(** What [_sample] returns for these nodes. *)
Definition returned (names : names_arg) (lvs : list (LazyValue value W))
    : option (sample_ret value W) :=
  match names, lvs with
  | NameStr _, [lv] => Some (OneLazy lv)
  | NameList _, _ => Some (TupleLazy lvs)
  | _, _ => None
  end.

(** [P] holds of the node behind an argument, if there is one. *)
Definition arg_holds (P : LazyValue value W -> Prop)
    (a : arg value (LazyValue value W)) : Prop :=
  match a with
  | Plain _ => True
  | Lazy l => P l
  end.

End Predicates.

(** ** The zarr-backed store *)

(** *** [get_index_slices] *)

(** [residual_idx - residual_idx[0] - np.arange(len(residual_idx)) == 0].
    numpy computes with 64-bit integers; [Z] stands for them, which is
    exact for indices below [2**63 - 1] (from there on the [last + 1] of
    the loop below wraps in numpy).  The indices [_simulate_batch] passes
    are positions of the status array. *)
Definition run_mask (residual_idx : list Z) : list bool :=
  match residual_idx with
  | [] => []
  | r0 :: _ => imap (fun i r => (r - r0 - Z.of_nat i =? 0)%Z) residual_idx
  end.

(** [a[mask]], boolean-mask indexing. *)
Definition masked (mask : list bool) (a : list Z) : list Z :=
  map snd (filter (fun p => fst p = true) (combine mask a)).

(** [a[~mask]] *)
Definition unmasked (mask : list bool) (a : list Z) : list Z :=
  masked (map negb mask) a.

(** [sum(mask)] *)
Definition mask_sum (mask : list bool) : Z :=
  Z.of_nat (length (filter (fun b => b = true) mask)).

(** The [while len(residual_idx) > 0] loop; one entry [[slc2, slc1]] per
    turn.  The first element of [residual_idx] is always in the mask, so
    the two subscripts [[0]] and [[-1]] never fail. *)
Equations? get_index_slices_loop (pointer : Z) (residual_idx : list Z)
  : list ((Z * Z) * (Z * Z)) by wf (length residual_idx) lt :=
  get_index_slices_loop pointer [] := [];
  get_index_slices_loop pointer (r0 :: rest) :=
    ((pointer, pointer + mask_sum (run_mask (r0 :: rest)))%Z,
     (hd 0%Z (masked (run_mask (r0 :: rest)) (r0 :: rest)),
      List.last (masked (run_mask (r0 :: rest)) (r0 :: rest)) 0 + 1)%Z)
    :: get_index_slices_loop
         (pointer + mask_sum (run_mask (r0 :: rest)))%Z
         (unmasked (run_mask (r0 :: rest)) (r0 :: rest)).
Proof.
  unfold unmasked, masked, run_mask.
  rewrite length_map. cbn [imap combine map].
  replace (r0 - r0 - Z.of_nat 0 =? 0)%Z with true
    by (symmetry; apply Z.eqb_eq; lia).
  cbn [negb]. rewrite filter_cons_False by (cbn; discriminate).
  eapply Nat.le_lt_trans; [apply length_filter|].
  rewrite length_combine, length_map, length_imap. cbn [length]. lia.
Qed.

(** [get_index_slices(idx)] *)
Definition get_index_slices (idx : list Z) : list ((Z * Z) * (Z * Z)) :=
  get_index_slices_loop 0 idx.

(** *** numpy's element types

    The arrays of the store have an element type, which [init] is given by
    name (['f8'], ['float64'], ['i4'], ...).  What numpy does with these
    names is a parameter of the model of the store: [same_dtype a b] is
    the comparison [np.dtype(a) == b], which holds of two names of one
    element type such as ['f8'] and ['float64']; [cast dt z] is the value
    an element of an array of element type [dt] has after [z] has been
    assigned to it (an assignment converts to the element type of the
    array: [2**31] becomes [-2**31] in an array of ['i4']). *)
Class Numpy : Type := {
  same_dtype : string -> string -> bool;
  cast : string -> Z -> Z
}.

(** [ZeroDivisionError] *)
Definition ZeroDivisionError : exn := UserError "ZeroDivisionError".

(** *** [ZarrStore] *)

Module Zarr.

(** A zarr array: shape, chunk shape, element type, and the rows along the
    first axis (each row flattened). *)
Record zarray : Type := mkArray {
  shape : list nat;
  chunks : list nat;
  dtype : string;
  rows : list (list Z)
}.

(** [len(a)]: the extent of the first axis. *)
Definition alen (a : zarray) : nat := hd 0 (shape a).

Definition zero_row (s : list nat) : list Z :=
  replicate (foldr Nat.mul 1 s) 0%Z.

(** [group.zeros(path, shape=(N, *s), chunks=(c, *s), dtype=dtype)], when
    no array is there yet.  zarr takes any chunk extents, [0] included. *)
Definition zeros (N : nat) (c : nat) (s : list nat) (dt : string) : zarray :=
  mkArray (N :: s) (c :: s) dt (replicate N (zero_row s)).

(** Whether no chunk extent of the array is [0].  To resize, read or
    write an array zarr divides its extents by its chunk extents, and an
    extent of [0] makes that raise [ZeroDivisionError]. *)
Definition chunked (a : zarray) : bool := forallb (Nat.ltb 0) (chunks a).

(** The number of rows in the chunks that [a.resize(N, ...)] keeps:
    [ceil(N / c) * c] for the chunk extent [c] of the first axis (an
    array of the store has a first axis). *)
Definition rows_kept (N : nat) (a : zarray) : nat :=
  match chunks a with
  | c :: _ => (N + c - 1) / c * c
  | [] => N
  end.

(** [a.resize(N, *a.shape[1:])].  zarr sets the shape, deletes the chunks
    that lie entirely past the new end and leaves the others as they are,
    so a chunk that the new end cuts into keeps its rows past the end.
    [past] is what the chunks of [a] hold past its end now; the array is
    returned with what its chunks hold past its end then.  Rows that a
    growth adds are read from the chunks that are there, and are zeros
    (the fill value) where there is none. *)
Definition resize (N : nat) (a : zarray) (past : list (list Z))
  : result (zarray * list (list Z)) :=
  if chunked a then
    let kept := take (rows_kept N a) (rows a ++ past) in
    Ok (mkArray (N :: tl (shape a)) (chunks a) (dtype a)
                (take N kept ++ replicate (N - length kept)
                                          (zero_row (tl (shape a)))),
        drop N kept)
  else Raise ZeroDivisionError.

(** The store's root group: the arrays of the [data] group (if that group
    exists), the [chunk_size] attribute of the [data] group, the array
    [meta/sim_status], and, by the path of an array, the rows that the
    chunks of the array hold past its end (none for a path that is not
    listed). *)
Record ZarrStore : Type := mkStore {
  data : option (gmap string zarray);
  chunk_size_attr : option nat;
  sim_status : option zarray;
  past_end : gmap string (list (list Z))
}.

(** A store on an empty directory. *)
Definition empty_store : ZarrStore := mkStore None None None ∅.

(** [ZarrStore.__len__] *)
Definition __len__ : M ZarrStore nat :=
  fun self =>
    match data self with
    | None => (Ok 0, self)
    | Some d =>
        let ns := map (fun kv : string * zarray => alen (snd kv))
                      (map_to_list d) in
        match ns with
        | [] => (Raise IndexError, self)
        | N :: _ =>
            if forallb (Nat.eqb N) ns then (Ok N, self)
            else (Raise (AssertionError ""), self)
        end
    end.

(** [assert cond, msg] *)
Definition assert_ (cond : bool) (msg : string) : M ZarrStore unit :=
  if cond then ret tt else raise (AssertionError msg).

Definition list_nat_eqb (a b : list nat) : bool :=
  bool_decide (a = b).

Section WithNumpy.

Context {numpy : Numpy}.

(** One turn of the first loop of [_init_shapes]: create [data/k], or, when
    zarr reports that the array exists, compare it with what was asked.
    [dtypes] is [None] when the caller left the default. *)
Definition init_variable (dtypes : option (gmap string string))
    (N chunk_size : nat) (ks : string * list nat) : M ZarrStore unit :=
  let k := fst ks in
  let s := snd ks in
  match dtypes with
  | None => raise TypeError
  | Some dtypes =>
      match dtypes !! k with
      | None => raise (KeyError k)
      | Some dt =>
          fun self =>
            let d := default ∅ (data self) in
            match d !! k with
            | None =>
                (Ok tt, mkStore (Some (<[k := zeros N chunk_size s dt]> d))
                                (chunk_size_attr self) (sim_status self)
                                (past_end self))
            | Some a =>
                (assert_ (list_nat_eqb (shape a) (N :: s))
                         "Inconsistent array sizes" ;;;
                 assert_ (list_nat_eqb (chunks a) (chunk_size :: s))
                         "Inconsistent chunk sizes" ;;;
                 assert_ (same_dtype (dtype a) dt) "Inconsistent dtype") self
            end
      end
  end.

(** [ZarrStore._init_shapes]; the default [None] of [shapes] has no
    [keys]. *)
Definition _init_shapes (shapes : option (list (string * list nat)))
    (dtypes : option (gmap string string)) (N chunk_size : nat)
    : M ZarrStore unit :=
  match shapes with
  | None => raise AttributeError
  | Some shapes => forM_ (init_variable dtypes N chunk_size) shapes
  end ;;;
  (fun self =>
     match sim_status self with
     | None =>
         (Ok tt, mkStore (data self) (chunk_size_attr self)
                         (Some (zeros N chunk_size [] "i4"))
                         (past_end self))
     | Some a =>
         assert_ (list_nat_eqb (shape a) [N]) "Inconsistent array sizes" self
     end) ;;;
  (fun self =>
     match data self with
     | None => (Raise (KeyError "data"), self)
     | Some _ =>
         match chunk_size_attr self with
         | Some c =>
             assert_ (Nat.eqb c chunk_size) "Inconsistent chunk size" self
         | None =>
             (Ok tt, mkStore (data self) (Some chunk_size) (sim_status self)
                             (past_end self))
         end
     end).

(** [ZarrStore.init]; the warning it prints is not modelled. *)
Definition init (N chunk_size : nat)
    (shapes : option (list (string * list nat)))
    (dtypes : option (gmap string string)) : M ZarrStore unit :=
  n <- __len__ ;;
  if (0 <? n)%nat then ret tt
  else _init_shapes shapes dtypes N chunk_size.

End WithNumpy.

(** The message of the [ValueError] of [set_length]: the string literal of
    the source runs over two lines, and the second keeps the sixteen
    blanks it is indented by. *)
Definition shorter_than_store : string :=
  "New length shorter than current store length."
  +:+ String (Ascii.ascii_of_nat 10)
        "                You can use clubber = True if you know what your are doing.".

(** What the chunks of the array at [path] hold past its end. *)
Definition past (path : string) (self : ZarrStore) : list (list Z) :=
  default [] (past_end self !! path).

(** [self.data[k].resize(N, *shape[1:])], one turn of the loop of
    [set_length]. *)
Definition resize_data (N : nat) (k : string) : M ZarrStore unit :=
  fun self =>
    match default ∅ (data self) !! k with
    | None => (Raise (KeyError k), self)
    | Some a =>
        match resize N a (past ("data/" +:+ k) self) with
        | Raise e => (Raise e, self)
        | Ok (a', rest) =>
            (Ok tt, mkStore (Some (<[k := a']> (default ∅ (data self))))
                            (chunk_size_attr self) (sim_status self)
                            (<["data/" +:+ k := rest]> (past_end self)))
        end
    end.

(** [self.root['meta/sim_status'].resize(N,)] *)
Definition resize_status (N : nat) : M ZarrStore unit :=
  fun self =>
    match sim_status self with
    | None => (Raise (KeyError "meta/sim_status"), self)
    | Some a =>
        match resize N a (past "meta/sim_status" self) with
        | Raise e => (Raise e, self)
        | Ok (a', rest) =>
            (Ok tt, mkStore (data self) (chunk_size_attr self) (Some a')
                            (<["meta/sim_status" := rest]> (past_end self)))
        end
    end.

(** [ZarrStore.set_length]; the arrays of [data] are resized one after the
    other, so those before one whose [resize] raises stay resized. *)
Definition set_length (N : nat) (clubber : bool) : M ZarrStore unit :=
  n <- __len__ ;;
  if (N <? n)%nat && negb clubber then
    raise (ValueError shorter_than_store)
  else
    (fun self =>
       match data self with
       | None => (Raise (KeyError "data"), self)
       | Some d => forM_ (resize_data N) (map fst (map_to_list d)) self
       end) ;;;
    resize_status N.

End Zarr.

(** ** A concrete universe of values

    Integers, tuples, and one family of distribution instances; the world
    of the user functions is a counter that the functions below bump when
    they are called.  The general theorems do not depend on it; it serves
    to run the engine on examples. *)

Module Demo.

Unset Elimination Schemes.
Inductive pyval : Type :=
| VInt (z : Z)
| VTuple (vs : list pyval)
| VNormal (mu : Z).
Set Elimination Schemes.

Definition iter_pyval (v : pyval) : option (list pyval) :=
  match v with
  | VTuple vs => Some vs
  | _ => None
  end.

(** [instance.sample()]: the centre of the distribution. *)
Definition sample_pyval (inst : pyval) : M nat pyval :=
  match inst with
  | VNormal mu => ret (VInt mu)
  | _ => raise AttributeError
  end.

(** [instance.log_prob(v)]: minus the squared distance to the centre. *)
Definition log_prob_pyval (inst : pyval) : option (pyval -> M nat pyval) :=
  match inst with
  | VNormal mu =>
      Some (fun v => match v with
                     | VInt z => ret (VInt (- ((z - mu) * (z - mu))))
                     | _ => raise TypeError
                     end)
  | _ => None
  end.

#[global] Instance pyval_protocol : Protocol pyval nat := {|
  py_iter := iter_pyval;
  py_sample := sample_pyval;
  py_log_prob := log_prob_pyval
|}.

(** [def f(): counter += 1; return 7] *)
Definition f : pyfn pyval nat :=
  mkFn "f" (fun _ _ counter => (Ok (VInt 7), S counter)).

(** [def normal(): counter += 1; return Normal(0)] *)
Definition normal : pyfn pyval nat :=
  mkFn "normal" (fun _ _ counter => (Ok (VNormal 0), S counter)).

(** A fresh environment: counter at zero, nothing called yet. *)
Definition env0 : Env nat := mkEnv 0 [].

(** The state right after [Trace(targets, conditions, log_prob)]. *)
Definition fresh (targets : option (list string)) (conditions : dict pyval)
    (log_prob : bool) : state pyval nat :=
  mkState (Trace__init__ targets conditions log_prob) env0.

(** The node [LazyValue(trace, "x", "x", normal, True)], as
    [trace.sample_dist("x", normal)] builds it. *)
Definition node_x : LazyValue pyval nat :=
  mkLazyValue "x" (OneName "x") normal true [] [].

(** [with trace.prefix("b"): with trace.prefix("a"): trace.sample("x", f)] *)
Definition nested_registration : M (state pyval nat) (sample_ret pyval nat) :=
  with_ (prefix "b") (with_ (prefix "a") (sample (NameStr "x") f [] [])).

(** A simulator whose [forward] registers [y] only. *)
Definition sim_y : Simulator pyval nat :=
  simulator_of (sample (NameStr "y") f [] [] ;;; ret tt).

(** The part of numpy that the runs below need.  ['float64'] is another
    name of ['f8'] and ['int32'] of ['i4']; an array of ['i4'] holds
    integers of 32 bits in two's complement, and the integers of the runs
    below are small enough for an array of any other element type to hold
    them as they are. *)
Definition short_name (dt : string) : string :=
  if String.eqb dt "float64" then "f8"
  else if String.eqb dt "int32" then "i4"
  else dt.

Definition wrap32 (z : Z) : Z := ((z + 2 ^ 31) mod 2 ^ 32 - 2 ^ 31)%Z.

#[export] Instance numpy_demo : Numpy := {|
  same_dtype a b := String.eqb (short_name a) (short_name b);
  cast dt z := if String.eqb (short_name dt) "i4" then wrap32 z else z
|}.

(** A schema with one variable [x] of shape [(2,)], and the store that
    [init(3, 2, shapes, dtypes)] makes of an empty directory. *)
Definition shapes_x : list (string * list nat) := [("x", [2])].

Definition dtypes_x : gmap string string := {[ "x" := "f8" ]}.

Definition store3 : Zarr.ZarrStore :=
  snd (Zarr.init 3 2 (Some shapes_x) (Some dtypes_x) Zarr.empty_store).

(** The arrays of [store3]. *)
Definition data3 : gmap string Zarr.zarray :=
  {[ "x" := Zarr.zeros 3 2 [2] "f8" ]}.

End Demo.

From Stdlib Require Import Sorted.

(** ** More of the simulator: batches and resampling *)

(** The pure fragment of the monad: an outcome without a state. *)
Definition rbind {A B} (r : result A) (k : A -> result B) : result B :=
  match r with
  | Ok a => k a
  | Raise e => Raise e
  end.

(** A list comprehension whose element expression may raise. *)
Definition rmap {A B} (f : A -> result B) : list A -> result (list B) :=
  fix go (l : list A) : result (list B) :=
    match l with
    | [] => Ok []
    | a :: l' => rbind (f a) (fun b => rbind (go l') (fun bs => Ok (b :: bs)))
    end.

(** [d[k]] on a plain dict. *)
Definition dict_getitem {value} (d : dict value) (k : string) : result value :=
  match dict_get d k with
  | Some v => Ok v
  | None => Raise (KeyError k)
  end.

(** What [collate_output] needs of the array backends: whether a value is a
    [torch.Tensor], and the two [stack] functions, which may refuse their
    input. *)
Class Stacking (value : Type) : Type := {
  is_tensor : value -> bool;
  torch_stack : list value -> result value;
  np_stack : list value -> result value
}.

Section SimulatorBatch.

Variable value : Type.
Variable W : Type.
Context {stacking : Stacking value}.

(** One turn of the loop of [collate_output]: the column of [key]. *)
Definition collate_key (out : list (dict value)) (first : dict value)
    (key : string) : result (string * value) :=
  rbind (dict_getitem first key) (fun v0 =>
  rbind (rmap (fun x => dict_getitem x key) out) (fun column =>
  rbind (if is_tensor v0 then torch_stack column else np_stack column)
        (fun stacked => Ok (key, stacked)))).

(** [collate_output]; [out[0]] raises [IndexError] on an empty list. *)
Definition collate_output (out : list (dict value)) : result (dict value) :=
  match out with
  | [] => Raise IndexError
  | first :: _ => rmap (collate_key out first) (dict_keys first)
  end.

(** [for _ in range(N): out.append(self._run(...))] *)
Fixpoint run_many (self : Simulator value W)
    (targets : option (list string)) (conditions : conditions_arg value W)
    (log_prob : bool) (n : nat) : M (Env W) (list (dict value)) :=
  match n with
  | O => ret []
  | S n' =>
      result <- _run self targets conditions log_prob ;;
      out <- run_many self targets conditions log_prob n' ;;
      ret (result :: out)
  end.

(** What [Simulator.__call__] returns: one sample, or [Samples] of a
    batch. *)
Inductive call_ret : Type :=
| OneSample (sample : dict value)
| BatchSamples (samples : dict value).

(** [Simulator.__call__]; [range(N)] is empty for [N <= 0]. *)
Definition Simulator__call__ (self : Simulator value W) (N : option Z)
    (targets : option (list string)) (conditions : conditions_arg value W)
    (log_prob : bool) : M (Env W) call_ret :=
  match N with
  | None =>
      result <- _run self targets conditions log_prob ;;
      ret (OneSample result)
  | Some N =>
      out <- run_many self targets conditions log_prob (Z.to_nat N) ;;
      match collate_output out with
      | Ok out => ret (BatchSamples out)
      | Raise e => raise e
      end
  end.

(** [conditions.pop(k)] for each target, in order. *)
Fixpoint pop_all (conditions : dict value) (targets : list string)
    : result (dict value) :=
  match targets with
  | [] => Ok conditions
  | k :: targets' =>
      match dict_delitem conditions k with
      | Some conditions' => pop_all conditions' targets'
      | None => Raise (KeyError k)
      end
  end.

(** [SimulatorResampler.__call__]: the simulator is called without [N] and
    without [log_prob]. *)
Definition SimulatorResampler__call__ (simulator : Simulator value W)
    (targets : list string) (sample : dict value) : M (Env W) call_ret :=
  match pop_all sample targets with
  | Raise e => raise e
  | Ok conditions =>
      Simulator__call__ simulator None (Some targets) (CondDict conditions)
                        false
  end.

End SimulatorBatch.

Arguments collate_key {value stacking}.
Arguments collate_output {value stacking}.
Arguments run_many {value W}.
Arguments OneSample {value}.
Arguments BatchSamples {value}.
Arguments Simulator__call__ {value W stacking}.
Arguments pop_all {value}.
Arguments SimulatorResampler__call__ {value W stacking}.

(** ** Reading a list of index slices *)

(** The rows that the row ranges [[j0, j1)] of a list of slices address, one
    range after the other. *)
Definition slice_rows (slices : list ((Z * Z) * (Z * Z))) : list Z :=
  flat_map (fun s => seqZ (fst (snd s)) (snd (snd s) - fst (snd s))) slices.

(** The half-open ranges of [l] follow one another from [p] to [q], none of
    them empty. *)
Fixpoint tiles (p : Z) (l : list (Z * Z)) (q : Z) : Prop :=
  match l with
  | [] => p = q
  | ab :: l' => fst ab = p /\ (p < snd ab)%Z /\ tiles (snd ab) l' q
  end.

(** The mask of one turn of the loop of [get_index_slices], taken [i]
    places into the residual indices: [run_mask] is the case [i = 0]. *)
Definition mask_from (r0 : Z) (i : nat) (l : list Z) : list bool :=
  imap (fun j r => (r - r0 - Z.of_nat (i + j) =? 0)%Z) l.

(** [slices] cuts [idx] into runs of consecutive indices, the first run at
    batch position [p]: each slice pairs the batch range [[p, p + k)] with
    the row range [[j0, j0 + k)], [k] at least one. *)
Fixpoint runs (p : Z) (slices : list ((Z * Z) * (Z * Z))) (idx : list Z)
  : Prop :=
  match slices with
  | [] => idx = []
  | s :: slices' =>
      exists (k : nat) (j0 : Z) (idx' : list Z),
        1 <= k /\
        s = ((p, p + Z.of_nat k)%Z, (j0, j0 + Z.of_nat k)%Z) /\
        idx = seqZ j0 (Z.of_nat k) ++ idx' /\
        runs (p + Z.of_nat k) slices' idx'
  end.

(** ** Filling the store: [sims_required], [_simulate_batch], [simulate] *)

Module ZarrRun.

Import Zarr.

(** An in-memory array as [sample_fn] returns them: the shape of one row
    and the rows along the first axis (each row flattened), so that its
    shape is [(len(nd_rows), *row_shape)]. *)
Record ndarray : Type := mkNd {
  row_shape : list nat;
  nd_rows : list (list Z)
}.

(** An entry of the one-dimensional array [sim_status] that compares equal
    to [0]. *)
Definition pending (row : list Z) : Prop := row = [0%Z].

#[global] Instance pending_dec (row : list Z) : Decision (pending row).
Proof. unfold pending. apply _. Defined.

(** [sum(a[:] == 0)] *)
Definition count_pending (rows : list (list Z)) : Z :=
  Z.of_nat (length (filter pending rows)).

(** [np.arange(len(a))[a[:] == 0]]: the positions of the pending entries
    (the first extent of an array is the number of its rows). *)
Definition pending_idx (rows : list (list Z)) : list Z :=
  masked (map (fun r => bool_decide (pending r)) rows)
         (seqZ 0 (Z.of_nat (length rows))).

(** The same for an array that starts at position [s] of a longer one. *)
Definition pidx (s : Z) (rows : list (list Z)) : list Z :=
  masked (map (fun r => bool_decide (pending r)) rows)
         (seqZ s (Z.of_nat (length rows))).

(** [a[:n]], where a negative [n] counts from the end. *)
Definition upto {A} (n : Z) (a : list A) : list A :=
  if (0 <=? n)%Z then take (Z.to_nat n) a
  else take (length a - Z.to_nat (- n)) a.

(** [a[j0:j1] = 1] on the status array, for bounds that are not negative
    (they are positions of the array). *)
Definition set_status (j : Z * Z) (a : zarray) : zarray :=
  mkArray (shape a) (chunks a) (dtype a)
          (imap (fun i r =>
                   if (fst j <=? Z.of_nat i)%Z && (Z.of_nat i <? snd j)%Z
                   then [1%Z] else r)
                (rows a)).

(** The status array after the assignments of a list of slices. *)
Definition mark_slices (slices : list ((Z * Z) * (Z * Z))) (a : zarray)
  : zarray :=
  foldl (fun a s => set_status (snd s) a) a slices.

(** [c[i0:i1]] on an in-memory array, for bounds that are not negative;
    the slice is cut at the end of the array. *)
Definition getslice (i : Z * Z) (c : ndarray) : ndarray :=
  mkNd (row_shape c)
       (take (Z.to_nat (snd i) - Z.to_nat (fst i))
             (drop (Z.to_nat (fst i)) (nd_rows c))).

Section WithNumpy.

Context {numpy : Numpy}.

(** [a[j0:j1] = v] on a zarr array, for bounds that are not negative.
    zarr computes the chunks of the selection first, and raises
    [ZeroDivisionError] on a chunk extent of [0]; it then wants a value of
    exactly the shape of the selection, and raises [ValueError] otherwise
    (the text of its message is not modelled); the values are converted
    to the element type of the array as they are stored. *)
Definition setslice (a : zarray) (j : Z * Z) (v : ndarray) : result zarray :=
  if chunked a then
    let j0 := Z.to_nat (fst j) in
    let sel := take (Z.to_nat (snd j) - j0) (drop j0 (rows a)) in
    if bool_decide (length (nd_rows v) :: row_shape v
                    = length sel :: tl (shape a))
    then Ok (mkArray (shape a) (chunks a) (dtype a)
                     (take j0 (rows a)
                      ++ map (map (cast (dtype a))) (nd_rows v)
                      ++ drop (j0 + length sel) (rows a)))
    else Raise (ValueError "")
  else Raise ZeroDivisionError.

(** What the assignments of a list of slices do to one array of [data],
    given the array [samples[k]] they read. *)
Fixpoint write_slices (col : ndarray) (slices : list ((Z * Z) * (Z * Z)))
    (a : zarray) : result zarray :=
  match slices with
  | [] => Ok a
  | s :: slices' =>
      match setslice a (snd s) (getslice (fst s) col) with
      | Ok a' => write_slices col slices' a'
      | Raise e => Raise e
      end
  end.

End WithNumpy.

(** The status rows with the first [n] pending entries set to [1]. *)
Fixpoint mark_first (n : nat) (rows : list (list Z)) : list (list Z) :=
  match n, rows with
  | 0, _ => rows
  | _, [] => []
  | S n', r :: rows' =>
      if decide (pending r) then [1%Z] :: mark_first n' rows'
      else r :: mark_first n rows'
  end.

(** [a[:]]: zarr computes the chunks of the selection, and raises
    [ZeroDivisionError] on a chunk extent of [0]. *)
Definition read_all (a : zarray) : result (list (list Z)) :=
  if chunked a then Ok (rows a) else Raise ZeroDivisionError.

(** [self.sims_required] *)
Definition sims_required : M ZarrStore Z :=
  fun self =>
    match sim_status self with
    | None => (Raise (KeyError "meta"), self)
    | Some a =>
        match read_all a with
        | Ok rows => (Ok (count_pending rows), self)
        | Raise e => (Raise e, self)
        end
    end.

(** [sim_status[j_slice[0]:j_slice[1]] = 1]; [1] is a value of every
    numeric element type, and is stored as it is. *)
Definition mark_slice (j : Z * Z) : M ZarrStore unit :=
  fun self =>
    match sim_status self with
    | None => (Raise (KeyError "meta"), self)
    | Some a =>
        if chunked a then
          (Ok tt, mkStore (data self) (chunk_size_attr self)
                          (Some (set_status j a)) (past_end self))
        else (Raise ZeroDivisionError, self)
    end.

Section Batches.

Context {numpy : Numpy}.

(** [data[k][j_slice[0]:j_slice[1]] = samples[k][i_slice[0]:i_slice[1]]];
    the right-hand side is evaluated first. *)
Definition write_array (samples : gmap string ndarray) (i j : Z * Z)
    (k : string) : M ZarrStore unit :=
  fun self =>
    match samples !! k with
    | None => (Raise (KeyError k), self)
    | Some col =>
        match default ∅ (data self) !! k with
        | None => (Raise (KeyError k), self)
        | Some a =>
            match setslice a j (getslice i col) with
            | Ok a' =>
                (Ok tt, mkStore (Some (<[k := a']> (default ∅ (data self))))
                                (chunk_size_attr self) (sim_status self)
                                (past_end self))
            | Raise e => (Raise e, self)
            end
        end
    end.

(** [W] is what [sample_fn] can read and change; it cannot reach the
    store. *)
Variable W : Type.

Definition in_store {A} (c : M ZarrStore A) : M (ZarrStore * W) A :=
  fun s => let (r, self') := c (fst s) in (r, (self', snd s)).

Definition in_user {A} (c : M W A) : M (ZarrStore * W) A :=
  fun s => let (r, w') := c (snd s) in (r, (fst s, w')).

(** The body of [with self.lock:] in [_simulate_batch]; the lock itself
    is between processes and is not modelled.  The arrays of [data] are
    visited in the order the group lists them. *)
Definition reserve_and_write (samples : gmap string ndarray) (num_sims : Z)
    : M ZarrStore unit :=
  fun self =>
    match sim_status self with
    | None => (Raise (KeyError "meta"), self)
    | Some status =>
        match data self with
        | None => (Raise (KeyError "data"), self)
        | Some d =>
            match read_all status with
            | Raise e => (Raise e, self)
            | Ok status_rows =>
                let idx := upto num_sims (pending_idx status_rows) in
                forM_ (fun s : (Z * Z) * (Z * Z) =>
                         mark_slice (snd s) ;;;
                         forM_ (write_array samples (fst s) (snd s))
                               (map fst (map_to_list d)))
                      (get_index_slices idx) self
            end
        end
    end.

(** [ZarrStore._simulate_batch] *)
Definition _simulate_batch (sample_fn : Z -> M W (gmap string ndarray))
    (batch_size : Z) : M (ZarrStore * W) Z :=
  required <- in_store sims_required ;;
  let num_sims := Z.min batch_size required in
  if (num_sims =? 0)%Z then ret num_sims
  else
    samples <- in_user (sample_fn num_sims) ;;
    in_store (reserve_and_write samples num_sims) ;;;
    ret num_sims.

(** The [while] loop of [simulate], with the local [total_sims]; [None]
    when it is still running after [fuel] turns. *)
Fixpoint simulate_loop (sample_fn : Z -> M W (gmap string ndarray))
    (max_sims : option Z) (batch_size : Z) (fuel : nat) (total_sims : Z)
    : M (ZarrStore * W) (option Z) :=
  match fuel with
  | 0 => ret None
  | S fuel =>
      required <- in_store sims_required ;;
      if (0 <? required)%Z then
        if match max_sims with
           | Some m => (m <=? total_sims)%Z
           | None => false
           end
        then ret (Some total_sims)
        else
          num_sims <- _simulate_batch sample_fn batch_size ;;
          simulate_loop sample_fn max_sims batch_size fuel
                        (total_sims + num_sims)%Z
      else ret (Some total_sims)
  end.

(** [ZarrStore.simulate]: [Some tt] when it returns (the method returns
    nothing), [None] when the loop is still running after [fuel] turns. *)
Definition simulate (sample_fn : Z -> M W (gmap string ndarray))
    (max_sims : option Z) (batch_size : Z) (fuel : nat)
    : M (ZarrStore * W) (option unit) :=
  total_sims <- simulate_loop sample_fn max_sims batch_size fuel 0%Z ;;
  ret ((fun _ => tt) <$> total_sims).

End Batches.

Arguments in_store {W A}.
Arguments in_user {W A}.
Arguments _simulate_batch {numpy W}.
Arguments simulate_loop {numpy W}.
Arguments simulate {numpy W}.

End ZarrRun.

(** ** Samples in memory, the datasets over them, and tensor helpers *)


(** [v[i]] for an integer [i] on an array with the rows [v]: a negative
    index counts from the end. *)
Definition getitem_int {A} (v : list A) (i : Z) : result A :=
  let n := Z.of_nat (length v) in
  let i' := if (i <? 0)%Z then (i + n)%Z else i in
  if (i' <? 0)%Z then Raise IndexError
  else match v !! Z.to_nat i' with
       | Some x => Ok x
       | None => Raise IndexError
       end.

(** One bound of [v[start:stop]] on [n] rows: a negative bound counts from
    the end, and either is cut to the array. *)
Definition slice_bound (n : Z) (bound : option Z) (default : Z) : Z :=
  match bound with
  | None => default
  | Some z => if (z <? 0)%Z then Z.max 0 (z + n) else Z.min z n
  end.

(** [v[start:stop]], a slice without a step. *)
Definition getitem_slice {A} (v : list A) (start stop : option Z) : list A :=
  let n := Z.of_nat (length v) in
  let a := slice_bound n start 0 in
  let b := slice_bound n stop n in
  take (Z.to_nat (b - a)) (drop (Z.to_nat a) v).

(** [a[i]] and [a[start:stop]] on a zarr array.  zarr checks an integer
    against the extent of the first axis and raises [IndexError], as numpy
    does; it then computes the chunks of the selection, which raises
    [ZeroDivisionError] on a chunk extent of [0]. *)
Definition zarr_getitem_int (a : Zarr.zarray) (i : Z) : result (list Z) :=
  rbind (getitem_int (Zarr.rows a) i) (fun x =>
  if Zarr.chunked a then Ok x else Raise ZeroDivisionError).

Definition zarr_getitem_slice (a : Zarr.zarray) (start stop : option Z)
  : result (list (list Z)) :=
  if Zarr.chunked a then Ok (getitem_slice (Zarr.rows a) start stop)
  else Raise ZeroDivisionError.

(** What the classes below are indexed with: an integer, a slice
    [start:stop], or a string. *)
Inductive index : Type :=
| Int (i : Z)
| Slice (start stop : option Z)
| Key (k : string).

(** [class Samples(dict)]: a dictionary of arrays, each the list of its
    rows along the first axis. *)
Module Samples.

Section Samples.

Variable A : Type.

Definition t : Type := dict (list A).

(** What [__getitem__] returns: a row (a plain dict), a [Samples], or a
    column. *)
Inductive item : Type :=
| Row (row : dict A)
| Sub (samples : t)
| Column (v : list A).

(** [Samples.__len__]: [all] of an empty list holds, and [n[0]] then has
    nothing to return. *)
Definition __len__ (self : t) : result Z :=
  let n := map (fun kv : string * list A => Z.of_nat (length (snd kv)))
               self in
  match n with
  | [] => Raise IndexError
  | n0 :: _ =>
      if forallb (fun x => (x =? n0)%Z) n then Ok n0
      else Raise (AssertionError "Inconsistent lengths in Samples")
  end.

(** [{k: v[i] for k, v in self.items()}] for an integer [i] *)
Definition row (self : t) (i : Z) : result (dict A) :=
  rmap (fun kv : string * list A =>
          rbind (getitem_int (snd kv) i) (fun x => Ok (fst kv, x)))
       self.

(** [Samples.__getitem__] *)
Definition __getitem__ (self : t) (i : index) : result item :=
  match i with
  | Int i => rbind (row self i) (fun d => Ok (Row d))
  | Slice start stop =>
      Ok (Sub (map (fun kv : string * list A =>
                      (fst kv, getitem_slice (snd kv) start stop))
                   self))
  | Key k => rbind (dict_getitem self k) (fun v => Ok (Column v))
  end.

End Samples.

Arguments Row {A}.
Arguments Sub {A}.
Arguments Column {A}.
Arguments __len__ {A}.
Arguments row {A}.
Arguments __getitem__ {A}.

End Samples.

(** [class SamplesDataset]; [W] is what the hook can read and change. *)
Module SamplesDataset.

Section SamplesDataset.

Variables A W : Type.

Record t : Type := mk {
  _dataset : Samples.t A;
  _on_after_load_sample : option (dict A -> M W (dict A))
}.

(** [SamplesDataset.__len__]: the length of the first column. *)
Definition __len__ (self : t) : result Z :=
  match dict_keys (_dataset self) with
  | [] => Raise IndexError
  | k :: _ =>
      rbind (Samples.__getitem__ (_dataset self) (Key k))
            (fun it =>
               match it with
               | Samples.Column v => Ok (Z.of_nat (length v))
               | Samples.Row d => Ok (Z.of_nat (length d))
               | Samples.Sub s => Samples.__len__ s
               end)
  end.

(** [SamplesDataset.__getitem__], for an integer [i] *)
Definition __getitem__ (self : t) (i : Z) : M W (dict A) :=
  match Samples.row (_dataset self) i with
  | Raise e => raise e
  | Ok d =>
      match _on_after_load_sample self with
      | Some hook => hook d
      | None => ret d
      end
  end.

End SamplesDataset.

Arguments mk {A W}.
Arguments _dataset {A W}.
Arguments _on_after_load_sample {A W}.
Arguments __len__ {A W}.
Arguments __getitem__ {A W}.

End SamplesDataset.

(** [class RepeatDatasetWrapper], around a [SamplesDataset] as
    [Samples.get_dataloader] builds it. *)
Module RepeatDatasetWrapper.

Section RepeatDatasetWrapper.

Variables A W : Type.

Record t : Type := mk {
  _dataset : SamplesDataset.t A W;
  _repeat : Z
}.

(** [RepeatDatasetWrapper.__len__] *)
Definition __len__ (self : t) : result Z :=
  rbind (SamplesDataset.__len__ (_dataset self))
        (fun n => Ok (n * _repeat self)%Z).

(** [RepeatDatasetWrapper.__getitem__]; [//] rounds down. *)
Definition __getitem__ (self : t) (i : Z) : M W (dict A) :=
  if (_repeat self =? 0)%Z then raise ZeroDivisionError
  else SamplesDataset.__getitem__ (_dataset self) (i / _repeat self)%Z.

End RepeatDatasetWrapper.

Arguments mk {A W}.
Arguments _dataset {A W}.
Arguments _repeat {A W}.
Arguments __len__ {A W}.
Arguments __getitem__ {A W}.

End RepeatDatasetWrapper.

(** [a.expand(m, ...)] of a tensor with one row: [m] times that row. *)
Definition expand {A} (m : nat) (a : list A) : list A :=
  match a with
  | [x] => replicate m x
  | _ => a
  end.

(** [a.repeat(k, 1, ..., 1)]: the rows of [a], [k] times over. *)
Definition tensor_repeat {A} (k : nat) (a : list A) : list A :=
  concat (replicate k a).

(** [equalize_tensors(a, b)], on the rows of the two tensors. *)
Definition equalize_tensors {A} (a b : list A)
  : result (list A * list A) :=
  let n := length a in
  let m := length b in
  if (n =? m)%nat then Ok (a, b)
  else if (n =? 1)%nat then Ok (expand m a, b)
  else if (m =? 1)%nat then Ok (a, expand n b)
  else if (n <? m)%nat then
    if (n =? 0)%nat then Raise ZeroDivisionError
    else if (m mod n =? 0)%nat then Ok (tensor_repeat (m / n) a, b)
    else Raise (AssertionError
                  "Cannot equalize tensors with non-divisible batch sizes.")
  else
    if (m =? 0)%nat then Raise ZeroDivisionError
    else if (n mod m =? 0)%nat then Ok (a, tensor_repeat (n / m) b)
    else Raise (AssertionError
                  "Cannot equalize tensors with non-divisible batch sizes.").

(** [class ZarrStoreIterableDataset] *)
Module ZarrStoreIterableDataset.

(** [int(math.ceil(a / float(b)))], for integers below [2**53] in
    magnitude: their quotient is rounded to a float that has the ceiling
    of the exact quotient, which is what this computes.  From [2**53] on
    the conversions to float round, and the code's result can differ. *)
Definition ceil_div (a b : Z) : result Z :=
  if (b =? 0)%Z then Raise ZeroDivisionError
  else Ok (- ((- a) / b))%Z.

(** [range(a, b)] *)
Definition range (a b : Z) : list Z := seqZ a (b - a).

(** What [get_idx] reads of [torch.utils.data.get_worker_info()]. *)
Record worker_info : Type := mkWorkerInfo {
  num_workers : Z;
  id : Z
}.

(** [self.zs.chunk_size], the attribute of the [data] group. *)
Definition store_chunk_size (zs : Zarr.ZarrStore) : result Z :=
  match Zarr.data zs with
  | None => Raise (KeyError "data")
  | Some _ =>
      match Zarr.chunk_size_attr zs with
      | None => Raise (KeyError "chunk_size")
      | Some c => Ok (Z.of_nat c)
      end
  end.

Section Random.

(** [W] holds the state of the random generator and whatever the hook
    reads and changes; [permutation] is [np.random.permutation] on a list
    of integers. *)
Variable W : Type.
Variable permutation : list Z -> M W (list Z).

(** The attributes [__init__] sets (the store itself is passed to
    [__iter__], which reads it as it is then). *)
Record t : Type := mk {
  n_samples : Z;
  offset : Z;
  chunk_size : Z;
  n_chunks : Z;
  on_after_load_sample : option (dict (list Z) -> M W (dict (list Z)))
}.

(** [ZarrStoreIterableDataset.__init__] *)
Definition __init__ (zs : Zarr.ZarrStore) (idx_range : option (Z * Z))
    (hook : option (dict (list Z) -> M W (dict (list Z)))) : result t :=
  rbind (match idx_range with
         | None =>
             match fst (Zarr.__len__ zs) with
             | Ok n => Ok (Z.of_nat n, 0%Z)
             | Raise e => Raise e
             end
         | Some r => Ok ((snd r - fst r)%Z, fst r)
         end)
        (fun no =>
  rbind (store_chunk_size zs) (fun cs =>
  rbind (ceil_div (fst no) cs) (fun nc =>
  Ok (mk (fst no) (snd no) cs nc hook)))).

(** [ZarrStoreIterableDataset.get_idx] *)
Definition get_idx (n_chunks : Z) (info : option worker_info)
  : M W (list Z) :=
  match info with
  | Some info =>
      match ceil_div n_chunks (num_workers info) with
      | Raise e => raise e
      | Ok n_chunks_per_worker =>
          permutation
            (range (id info * n_chunks_per_worker)
                   (Z.min ((id info + 1) * n_chunks_per_worker) n_chunks))
      end
  | None => permutation (range 0 n_chunks)
  end.

(** The state of a run of the generator: the world, and what has been
    yielded so far. *)
Definition in_w {A} (c : M W A) : M (W * list (dict (list Z))) A :=
  fun s => let (r, w') := c (fst s) in (r, (w', snd s)).

Definition yield (out : dict (list Z)) : M (W * list (dict (list Z))) unit :=
  modify (fun s => (fst s, snd s ++ [out])).

(** The chunk [i0] of every array: [data[k][offset + i0 * chunk_size :
    offset + (i0 + 1) * chunk_size]] for the names of [data]. *)
Definition read_chunk (self : t) (zs : Zarr.ZarrStore) (i0 : Z)
  : result (dict (list (list Z))) :=
  match Zarr.data zs with
  | None => Raise (KeyError "data")
  | Some d =>
      rmap (fun ka : string * Zarr.zarray =>
              rbind (zarr_getitem_slice (snd ka)
                       (Some (offset self + i0 * chunk_size self)%Z)
                       (Some (offset self + (i0 + 1) * chunk_size self)%Z))
                    (fun rows => Ok (fst ka, rows)))
           (map_to_list d)
  end.

(** [ZarrStoreIterableDataset.__iter__], run to its end; [n] is the length
    of the chunk of the last name, and there is none when [data] has no
    array. *)
Definition __iter__ (self : t) (zs : Zarr.ZarrStore)
    (info : option worker_info) : M (W * list (dict (list Z))) unit :=
  idx <- in_w (get_idx (n_chunks self) info) ;;
  forM_ (fun i0 =>
           match read_chunk self zs i0 with
           | Raise e => raise e
           | Ok data_chunk =>
               match List.last (map (fun kv => Some (length (snd kv)))
                                    data_chunk) None with
               | None => raise (UserError "UnboundLocalError")
               | Some n =>
                   order <- in_w (permutation (range 0 (Z.of_nat n))) ;;
                   forM_ (fun i =>
                            match Samples.row data_chunk i with
                            | Raise e => raise e
                            | Ok out =>
                                out <- match on_after_load_sample self with
                                       | Some hook => in_w (hook out)
                                       | None => ret out
                                       end ;;
                                yield out
                            end) order
               end
           end) idx.

End Random.

Arguments mk {W}.
Arguments n_samples {W}.
Arguments offset {W}.
Arguments chunk_size {W}.
Arguments n_chunks {W}.
Arguments on_after_load_sample {W}.
Arguments __init__ {W}.
Arguments get_idx {W}.
Arguments in_w {W A}.
Arguments yield {W}.
Arguments read_chunk {W}.
Arguments __iter__ {W}.

End ZarrStoreIterableDataset.

(** ** Reading the store: [keys], [__getitem__] *)

Module ZarrRead.

Import Zarr.

(** What [ZarrStore.__getitem__] is called with: an integer, a slice or a
    string, or anything else. *)
Inductive any_index : Type :=
| Known (i : index)
| Other.

(** What it returns: a row (a plain dict), [Samples] of a slice, or the
    array of a name. *)
Inductive item : Type :=
| Row (row : dict (list Z))
| Sub (samples : Samples.t (list Z))
| Array (a : zarray).

(** [ZarrStore.keys] *)
Definition keys : M ZarrStore (list string) :=
  fun self =>
    match data self with
    | None => (Raise (KeyError "data"), self)
    | Some d => (Ok (map fst (map_to_list d)), self)
    end.

(** [self.data[k]] *)
Definition data_getitem (k : string) : M ZarrStore zarray :=
  fun self =>
    match data self with
    | None => (Raise (KeyError "data"), self)
    | Some d =>
        match d !! k with
        | Some a => (Ok a, self)
        | None => (Raise (KeyError k), self)
        end
    end.

(** [ZarrStore.numpy]: every array read in full. *)
Definition numpy : M ZarrStore (dict (list (list Z))) :=
  fun self =>
    match data self with
    | None => (Raise (KeyError "data"), self)
    | Some d =>
        (rmap (fun ka : string * zarray =>
                 rbind (ZarrRun.read_all (snd ka))
                       (fun rows => Ok (fst ka, rows)))
              (map_to_list d), self)
    end.

(** [ZarrStore.get_sample_store] *)
Definition get_sample_store : M ZarrStore (Samples.t (list Z)) := numpy.

(** [ZarrStore.__getitem__]; a slice is [start:stop], without a step. *)
Definition __getitem__ (i : any_index) : M ZarrStore item :=
  match i with
  | Known (Int i) =>
      ks <- keys ;;
      row <- mapM (fun k => a <- data_getitem k ;;
                            match zarr_getitem_int a i with
                            | Ok x => ret (k, x)
                            | Raise e => raise e
                            end) ks ;;
      ret (Row row)
  | Known (Slice start stop) =>
      ks <- keys ;;
      cols <- mapM (fun k => a <- data_getitem k ;;
                             match zarr_getitem_slice a start stop with
                             | Ok x => ret (k, x)
                             | Raise e => raise e
                             end) ks ;;
      ret (Sub cols)
  | Known (Key k) => a <- data_getitem k ;; ret (Array a)
  | Other => raise (ValueError "")
  end.

End ZarrRead.

(** ** More concrete runs *)

Module Demo2.

Import Demo.

(** [def pair(): counter += 1; return (1, 2)] *)
Definition pair : pyfn pyval nat :=
  mkFn "pair" (fun _ _ counter => (Ok (VTuple [VInt 1; VInt 2]), S counter)).

(** A function that bumps the counter and returns ten times its new
    value, whatever the arguments: the value tells at which call of the run
    the function was invoked. *)
Definition stamp (name : string) : pyfn pyval nat :=
  mkFn name (fun _ _ counter =>
               (Ok (VInt (10 * Z.of_nat (S counter))), S counter)).

(** The node of [trace.sample(["a", "b"], pair)] for the name [a]. *)
Definition node_a : LazyValue pyval nat :=
  mkLazyValue "a" (ManyNames ["a"; "b"]) pair false [] [].

(** Leaves [p] and [q], and a node that takes [p] by position and [q] by
    keyword. *)
Definition leaf_p : LazyValue pyval nat :=
  mkLazyValue "p" (OneName "p") (stamp "fp") false [] [].

Definition leaf_q : LazyValue pyval nat :=
  mkLazyValue "q" (OneName "q") (stamp "fq") false [] [].

Definition node_pq : LazyValue pyval nat :=
  mkLazyValue "r" (OneName "r") (stamp "fr") false
              [Lazy leaf_p] [("key", Lazy leaf_q)].

(** No value of this universe is a torch tensor; stacking makes a tuple of
    the values. *)
#[global] Instance pyval_stacking : Stacking pyval := {|
  is_tensor := fun _ => false;
  torch_stack := fun vs => Ok (VTuple vs);
  np_stack := fun vs => Ok (VTuple vs)
|}.

(** A [forward] that registers [y], made by [f]. *)
Definition forward_y : M (state pyval nat) unit :=
  run_op (Sample (NameStr "y") f [] []).

(** A [sample_fn] for [store3]: [n] rows for [x], each holding twice the
    number of the call. *)
Definition draw (n : Z) : M nat (gmap string ZarrRun.ndarray) :=
  fun counter =>
    (Ok {[ "x" := ZarrRun.mkNd [2]
                    (replicate (Z.to_nat n)
                               [Z.of_nat (S counter); Z.of_nat (S counter)]) ]},
     S counter).

(** The store that [init(3, 0, shapes, dtypes)] makes of an empty
    directory, and its arrays. *)
Definition store0 : Zarr.ZarrStore :=
  snd (Zarr.init 3 0 (Some shapes_x) (Some dtypes_x) Zarr.empty_store).

Definition data0 : gmap string Zarr.zarray :=
  {[ "x" := Zarr.zeros 3 0 [2] "f8" ]}.

(** Samples with two columns of three rows. *)
Definition samples_xy : Samples.t Z :=
  [("x", [10; 20; 30]%Z); ("y", [1; 2; 3]%Z)].

(** A generator that always draws the reversed list. *)
Definition reversed (l : list Z) : M unit (list Z) := ret (reverse l).

End Demo2.
(** * Properties *)

(** ** The monad *)

Lemma bind_inv {S A B} (c : M S A) (k : A -> M S B) s r s' :
  bind c k s = (r, s') ->
  (exists a s1, c s = (Ok a, s1) /\ k a s1 = (r, s')) \/
  (exists e, c s = (Raise e, s') /\ r = Raise e).
Proof.
  unfold bind. destruct (c s) as [[a|e] s1]; intros H.
  - left. eauto.
  - right. inversion H; subst. eauto.
Qed.

Lemma bind_returns {S A B} (c : M S A) (k : A -> M S B) s a s1 :
  c s = (Ok a, s1) -> bind c k s = k a s1.
Proof. unfold bind. intros ->. reflexivity. Qed.

Lemma bind_raises {S A B} (c : M S A) (k : A -> M S B) s e s1 :
  c s = (Raise e, s1) -> bind c k s = (Raise e, s1).
Proof. unfold bind. intros ->. reflexivity. Qed.

(** Split a hypothesis [bind c k s = (r, s')] into its two cases: [c]
    returned [a] in state [s1], or it raised. *)
Tactic Notation "bind_cases" hyp(H) "as" ident(a) ident(s1) ident(Hc) :=
  let e := fresh "e" in
  let Hr := fresh "Hr" in
  apply bind_inv in H;
  destruct H as [(a & s1 & Hc & H) | (e & Hc & Hr)].

(** The same, when the whole is known to have returned. *)
Tactic Notation "bind_ok" hyp(H) "as" ident(a) ident(s1) ident(Hc) :=
  bind_cases H as a s1 Hc; [|discriminate].

Section Preservation.

Context {S : Type} (R : S -> S -> Prop) `{!PreOrder R}.

Lemma preserves_ret {A} (a : A) : preserves R (ret a).
Proof using Type*. intros s r s' H. inversion H; subst. reflexivity. Qed.

Lemma preserves_raise {A} (e : exn) : preserves R (@raise S A e).
Proof using Type*. intros s r s' H. inversion H; subst. reflexivity. Qed.

Lemma preserves_get : preserves R (@get S).
Proof using Type*. intros s r s' H. inversion H; subst. reflexivity. Qed.

Lemma preserves_bind {A B} (c : M S A) (k : A -> M S B) :
  preserves R c -> (forall a, preserves R (k a)) -> preserves R (bind c k).
Proof using Type*.
  intros Hc Hk s r s' H. bind_cases H as a s1 Ha.
  - transitivity s1; [eapply Hc | eapply Hk]; eassumption.
  - eapply Hc; eassumption.
Qed.

Lemma preserves_mapM {A B} (f : A -> M S B) (l : list A) :
  Forall (fun a => preserves R (f a)) l -> preserves R (mapM f l).
Proof using Type*.
  induction 1 as [|a l Ha _ IH]; cbn [mapM].
  - apply preserves_ret.
  - apply preserves_bind; [exact Ha|]. intros b.
    apply preserves_bind; [exact IH|]. intros bs. apply preserves_ret.
Qed.

Lemma preserves_forM_ {A} (f : A -> M S unit) (l : list A) :
  (forall a, preserves R (f a)) -> preserves R (forM_ f l).
Proof using Type*.
  intros Hf. induction l as [|a l IH]; cbn [forM_].
  - apply preserves_ret.
  - apply preserves_bind; [apply Hf|]. intros _. exact IH.
Qed.

End Preservation.

(** ** Dictionaries in insertion order *)

Section DictFacts.

Context {value : Type}.
Implicit Types (d : dict value) (k : string) (v : value).

Lemma contains_true (l : list string) k : contains l k = true <-> In k l.
Proof.
  unfold contains. rewrite existsb_exists. split.
  - intros (x & Hin & Heq). apply String.eqb_eq in Heq. now subst.
  - intros Hin. exists k. split; [exact Hin | apply String.eqb_refl].
Qed.

Lemma contains_false (l : list string) k : contains l k = false <-> ~ In k l.
Proof.
  rewrite <- contains_true. destruct (contains l k); split; congruence.
Qed.

Lemma dict_get_contains d k :
  contains (dict_keys d) k = true <-> exists v, dict_get d k = Some v.
Proof.
  induction d as [|[k' v'] d IH]; cbn.
  - split; [discriminate | intros [? ?]; discriminate].
  - rewrite (String.eqb_sym k k'). destruct (String.eqb k' k); cbn.
    + split; eauto.
    + exact IH.
Qed.

Lemma dict_get_none d k :
  contains (dict_keys d) k = false <-> dict_get d k = None.
Proof.
  pose proof (dict_get_contains d k) as H.
  destruct (dict_get d k) as [v|].
  - split; [|discriminate]. intros E. destruct H as [_ H].
    rewrite H in E by eauto. discriminate.
  - split; [reflexivity|]. intros _.
    destruct (contains (dict_keys d) k); [|reflexivity].
    destruct H as [H _]. destruct (H eq_refl). discriminate.
Qed.

Lemma dict_get_app_some d d' k v :
  dict_get d k = Some v -> dict_get (d ++ d') k = Some v.
Proof.
  induction d as [|[k' v'] d IH]; cbn; [discriminate|].
  destruct (String.eqb k' k); auto.
Qed.

Lemma key_index_app_some (l l' : list string) k i :
  key_index l k = Some i -> key_index (l ++ l') k = Some i.
Proof.
  revert i. induction l as [|k' l IH]; cbn; intros i; [discriminate|].
  destruct (String.eqb k' k); [auto|].
  destruct (key_index l k) as [j|]; cbn; [|discriminate].
  intros H. now rewrite (IH j eq_refl).
Qed.

Lemma dict_keys_app d d' : dict_keys (d ++ d') = dict_keys d ++ dict_keys d'.
Proof. unfold dict_keys. apply map_app. Qed.

(** [Trace.__setitem__] on a key that is there gives the trace back. *)
Lemma setitem_present (t : Trace value) k v :
  contains (keys t) k = true -> __setitem__ t k v = t.
Proof. unfold __setitem__. now intros ->. Qed.

(** On a new key it appends the entry. *)
Lemma setitem_absent (t : Trace value) k v :
  contains (keys t) k = false ->
  __setitem__ t k v = set_items t (items t ++ [(k, v)]).
Proof. unfold __setitem__. now intros ->. Qed.

Lemma setitem_items (t : Trace value) k v :
  exists d, items (__setitem__ t k v) = items t ++ d.
Proof.
  unfold __setitem__. destruct (contains (keys t) k); cbn.
  - exists []. now rewrite app_nil_r.
  - eauto.
Qed.

Lemma setitem_contains (t : Trace value) k v :
  contains (keys (__setitem__ t k v)) k = true.
Proof.
  unfold __setitem__. destruct (contains (keys t) k) eqn:E; cbn [negb];
    [exact E|].
  unfold keys, set_items. cbn [items]. rewrite dict_keys_app.
  apply contains_true. apply in_or_app. right. cbn. now left.
Qed.

End DictFacts.

(** ** The engine: what every run preserves *)

Section EngineFacts.

Variables (value W : Type).
Context {protocol : Protocol value W}.

Local Abbreviation state := (state value W).
Local Abbreviation LazyValue := (LazyValue value W).

#[local] Instance grows_preorder : PreOrder (@grows value W).
Proof.
  split.
  - intros s. repeat split; try (exists []; now rewrite app_nil_r).
  - intros s1 s2 s3 ([d1 H1] & T1 & F1 & [l1 C1]) ([d2 H2] & T2 & F2 & [l2 C2]).
    repeat split; try congruence.
    + exists (d1 ++ d2). now rewrite H2, H1, app_assoc.
    + exists (l1 ++ l2). now rewrite C2, C1, app_assoc.
Qed.

#[local] Instance extends_preorder : PreOrder (@extends value W).
Proof.
  split.
  - intros s. split; reflexivity.
  - intros s1 s2 s3 [G1 P1] [G2 P2]. split; [now transitivity s2 | congruence].
Qed.

#[local] Instance same_trace_preorder : PreOrder (@same_trace value W).
Proof.
  split; unfold same_trace; [intros s; reflexivity|].
  intros s1 s2 s3 H1 H2. congruence.
Qed.

Lemma extends_grows (s s' : state) : extends s s' -> grows s s'.
Proof. now intros [H _]. Qed.

(** An induction principle that reaches the nodes among the arguments. *)
Lemma LazyValue_nested_ind (P : LazyValue -> Prop) :
  (forall n o f d args kwargs,
      Forall (arg_holds P) args ->
      Forall (fun ka => arg_holds P (snd ka)) kwargs ->
      P (mkLazyValue n o f d args kwargs)) ->
  forall lv, P lv.
Proof.
  intros H. fix IH 1. intros [n o f d args kwargs]. apply H.
  - induction args as [|a args IHa]; constructor; [|exact IHa].
    destruct a as [v|l]; [exact I | apply IH].
  - induction kwargs as [|[k a] kwargs IHk]; constructor; [|exact IHk].
    destruct a as [v|l]; [exact I | apply IH].
Qed.

(** [evaluate], one step unfolded. *)
Lemma evaluate_eq (lv : LazyValue) :
  evaluate lv =
  (s <- get ;;
   instance <-
     (if negb (contains (keys (trace s)) (_this_name lv)) then
        if negb (_dist lv) then
          result <- call_fn lv ;;
          store_outputs (_fn_out_names lv) result ;;;
          ret None
        else
          instance <- call_fn lv ;;
          result <- in_env (in_world (py_sample instance)) ;;
          store_outputs (_fn_out_names lv) result ;;;
          ret (Some instance)
      else ret None) ;;
   finish lv (call_fn lv) instance).
Proof. destruct lv. reflexivity. Qed.

Create HintDb pres discriminated.

(** Walk down a computation, one construct of the monad at a time; the
    leaves are closed from the hint base and the hypotheses. *)
Ltac pres :=
  lazymatch goal with
  | |- preserves _ (bind _ _) =>
      apply preserves_bind; [apply _ | pres | intros ?; pres]
  | |- preserves _ (ret _) => apply preserves_ret; apply _
  | |- preserves _ (raise _) => apply preserves_raise; apply _
  | |- preserves _ get => apply preserves_get; apply _
  | |- preserves _ (if ?b then _ else _) => destruct b; pres
  | |- preserves _ (match ?x with _ => _ end) => destruct x; pres
  | |- _ => eauto with pres
  end.

Lemma invoke_extends (f : pyfn value W) ar kw :
  preserves extends (invoke f ar kw).
Proof.
  intros s r s' H. unfold invoke, in_env in H.
  destruct (fn_call f ar kw (world (env s))) as [r0 w].
  inversion H; subst; clear H.
  repeat split; cbn; eauto; exists []; now rewrite app_nil_r.
Qed.

Lemma invoke_same_trace (f : pyfn value W) ar kw :
  preserves same_trace (invoke f ar kw).
Proof.
  intros s r s' H. unfold invoke, in_env in H.
  destruct (fn_call f ar kw (world (env s))) as [r0 w].
  now inversion H; subst.
Qed.

Lemma in_world_extends {A} (c : M W A) :
  preserves (@extends value W) (in_env (in_world c)).
Proof.
  intros s r s' H. unfold in_env, in_world in H.
  destruct (c (world (env s))) as [r0 w].
  inversion H; subst; clear H.
  repeat split; cbn; exists []; now rewrite app_nil_r.
Qed.

Lemma in_world_same_trace {A} (c : M W A) :
  preserves (@same_trace value W) (in_env (in_world c)).
Proof.
  intros s r s' H. unfold in_env, in_world in H.
  destruct (c (world (env s))) as [r0 w].
  now inversion H; subst.
Qed.

Lemma trace_set_extends k v : preserves (@extends value W) (trace_set k v).
Proof.
  intros s r s' H. inversion H; subst; clear H.
  unfold extends, grows, with_trace. cbn [trace env].
  unfold __setitem__. destruct (negb (contains (keys (trace s)) k)); cbn.
  - repeat split; eauto. exists []. now rewrite app_nil_r.
  - repeat split; exists []; now rewrite app_nil_r.
Qed.

Lemma trace_get_id k (s : state) r s' : trace_get k s = (r, s') -> s' = s.
Proof.
  unfold trace_get. destruct (dict_get (items (trace s)) k); now inversion 1.
Qed.

Lemma trace_get_preserves (R : state -> state -> Prop) `{!PreOrder R} k :
  preserves R (trace_get k).
Proof.
  intros s r s' H. apply trace_get_id in H. subst. reflexivity.
Qed.

Lemma trace_get_ok k (s : state) v s' :
  trace_get k s = (Ok v, s') -> dict_get (items (trace s)) k = Some v.
Proof.
  unfold trace_get. destruct (dict_get (items (trace s)) k); now inversion 1.
Qed.

#[local] Hint Resolve invoke_extends in_world_extends trace_set_extends
  invoke_same_trace in_world_same_trace : pres.
#[local] Hint Extern 1 (preserves _ (trace_get _)) =>
  apply trace_get_preserves; apply _ : pres.

Lemma store_outputs_extends outs result :
  preserves (@extends value W) (store_outputs outs result).
Proof.
  unfold store_outputs. pres.
  apply preserves_forM_; [apply _|]. intros a. pres.
Qed.

#[local] Hint Resolve store_outputs_extends : pres.

Lemma finish_extends lv rebuild instance :
  preserves extends rebuild ->
  preserves extends (finish lv rebuild instance).
Proof. intros Hr. unfold finish. pres. Qed.

Lemma eval_arg_preserves (R : state -> state -> Prop) `{!PreOrder R} a :
  arg_holds (fun l => preserves R (evaluate l)) a -> preserves R (eval_arg a).
Proof.
  destruct a as [v|l]; cbn; [intros _; now apply preserves_ret | auto].
Qed.

Lemma call_fn_preserves (R : state -> state -> Prop) `{!PreOrder R} lv :
  (forall f ar kw, preserves R (invoke f ar kw)) ->
  Forall (arg_holds (fun l => preserves R (evaluate l))) (_args lv) ->
  Forall (fun ka => arg_holds (fun l => preserves R (evaluate l)) (snd ka))
         (_kwargs lv) ->
  preserves R (call_fn lv).
Proof.
  intros Hi Ha Hk. unfold call_fn.
  apply preserves_bind; [apply _| |intros kw].
  - apply preserves_mapM; [apply _|].
    eapply Forall_impl; [exact Hk|]. intros ka H. unfold eval_kwarg.
    apply preserves_bind; [apply _| |intros; apply preserves_ret; apply _].
    apply eval_arg_preserves; [apply _|exact H].
  - apply preserves_bind; [apply _| |intros; apply Hi].
    apply preserves_mapM; [apply _|].
    eapply Forall_impl; [exact Ha|]. intros a H.
    apply eval_arg_preserves; [apply _|exact H].
Qed.

(** Evaluating a node, whatever it drags along and however it ends, only
    adds entries behind the ones already in the trace. *)
Lemma evaluate_extends lv : preserves extends (evaluate lv).
Proof.
  induction lv as [n o f d args kwargs IHa IHk] using LazyValue_nested_ind.
  assert (Hcall : preserves extends
                    (call_fn (mkLazyValue n o f d args kwargs)))
    by (apply call_fn_preserves;
        [apply _ | apply invoke_extends | assumption | assumption]).
  rewrite evaluate_eq. cbn [_this_name _dist _fn_out_names].
  pose proof (finish_extends (mkLazyValue n o f d args kwargs)) as Hfin.
  pres.
Qed.

Lemma call_fn_extends lv : preserves extends (call_fn lv).
Proof.
  apply call_fn_preserves; [apply _ | apply invoke_extends | |].
  - apply Forall_forall. intros [v|l] _; cbn; [exact I|apply evaluate_extends].
  - apply Forall_forall. intros [k [v|l]] _; cbn;
      [exact I|apply evaluate_extends].
Qed.

#[local] Instance same_calls_preorder : PreOrder (@same_calls value W).
Proof.
  split; unfold same_calls; [intros s; reflexivity|].
  intros s1 s2 s3 H1 H2. congruence.
Qed.

Lemma in_world_same_calls {A} (c : M W A) :
  preserves (@same_calls value W) (in_env (in_world c)).
Proof.
  intros s r s' H. unfold in_env, in_world in H.
  destruct (c (world (env s))) as [r0 w].
  now inversion H; subst.
Qed.

Lemma trace_set_same_calls k v :
  preserves (@same_calls value W) (trace_set k v).
Proof. intros s r s' H. now inversion H; subst. Qed.

#[local] Hint Resolve in_world_same_calls trace_set_same_calls : pres.

Lemma store_outputs_same_calls outs result :
  preserves (@same_calls value W) (store_outputs outs result).
Proof.
  unfold store_outputs. pres.
  apply preserves_forM_; [apply _|]. intros a. pres.
Qed.

#[local] Hint Resolve store_outputs_same_calls : pres.

(** With an instance at hand, the second half of [evaluate] invokes no
    user function, whatever [rebuild] is. *)
Lemma finish_some_same_calls lv rebuild i :
  preserves same_calls (finish lv rebuild (Some i)).
Proof. unfold finish. pres. Qed.

(** Without the log-probability block, it is the final lookup. *)
Lemma finish_plain lv rebuild instance (s : state) :
  wants_log_prob (trace s) lv = false ->
  finish lv rebuild instance s = trace_get (_this_name lv) s.
Proof.
  intros Hw. unfold finish, bind, get. rewrite Hw. reflexivity.
Qed.

(** A value that [evaluate] returns is the one in the trace. *)
Lemma finish_ok_get lv rebuild instance (s : state) v s' :
  finish lv rebuild instance s = (Ok v, s') ->
  dict_get (items (trace s')) (_this_name lv) = Some v.
Proof.
  unfold finish. intros H.
  bind_ok H as s0 s1 H0. bind_ok H as u s2 H1.
  pose proof (trace_get_id _ _ _ _ H) as ->.
  now apply trace_get_ok in H.
Qed.

Lemma evaluate_ok_get lv (s : state) v s' :
  evaluate lv s = (Ok v, s') ->
  dict_get (items (trace s')) (_this_name lv) = Some v.
Proof.
  rewrite evaluate_eq. intros H.
  bind_ok H as s0 s1 H0. bind_ok H as i s2 H1.
  eapply finish_ok_get; eassumption.
Qed.

(** A name that is in the trace, on a node without the log-probability
    block: [evaluate] is the lookup, and nothing else. *)
Lemma evaluate_memoized lv (s : state) :
  contains (keys (trace s)) (_this_name lv) = true ->
  wants_log_prob (trace s) lv = false ->
  evaluate lv s = trace_get (_this_name lv) s.
Proof.
  intros Hin Hw. rewrite evaluate_eq. unfold bind at 1 2. unfold get at 1.
  rewrite Hin. cbn [negb]. unfold ret at 1. now apply finish_plain.
Qed.

Lemma wants_log_prob_extends (lv : LazyValue) (s s' : state) :
  extends s s' -> wants_log_prob (trace s') lv = wants_log_prob (trace s) lv.
Proof.
  intros [(_ & _ & Hf & _) _]. unfold wants_log_prob. now rewrite Hf.
Qed.

Lemma extends_get (s s' : state) k v :
  extends s s' ->
  dict_get (items (trace s)) k = Some v ->
  dict_get (items (trace s')) k = Some v.
Proof.
  intros [([d Hd] & _) _] H. rewrite Hd. now apply dict_get_app_some.
Qed.

Lemma invoke_calls (f : pyfn value W) ar kw (s : state) r s' :
  invoke f ar kw s = (r, s') ->
  calls (env s') = calls (env s) ++ [fn_name f] /\ trace s' = trace s.
Proof.
  unfold invoke, in_env.
  destruct (fn_call f ar kw (world (env s))) as [r0 w].
  now inversion 1; subst.
Qed.

(** A call that returns has evaluated the arguments and then invoked the
    function once. *)
Lemma call_fn_ok lv (s : state) v s' :
  call_fn lv s = (Ok v, s') ->
  exists kw ar sa,
    eval_arguments lv s = (Ok (kw, ar), sa) /\
    invoke (_fn lv) ar kw sa = (Ok v, s').
Proof.
  unfold call_fn, eval_arguments. intros H.
  bind_ok H as kw s1 Hkw. bind_ok H as ar sa Har.
  exists kw, ar, sa. split; [|exact H].
  erewrite bind_returns by eassumption. erewrite bind_returns by eassumption.
  reflexivity.
Qed.

(** ** Nodes whose evaluation has left its mark *)

Lemma all_of_Forall {A} (P : A -> Prop) (l : list A) :
  all_of P l <-> Forall P l.
Proof.
  induction l as [|a l IH]; cbn.
  - split; [constructor | trivial].
  - rewrite Forall_cons. now rewrite IH.
Qed.

Lemma settled_eq (t : Trace value) (lv : LazyValue) :
  settled t lv <->
  contains (keys t) (_this_name lv) = true /\
  (wants_log_prob t lv = true ->
   contains (keys t) (_this_name lv +:+ ":log_prob") = true /\
   Forall (arg_holds (settled t)) (_args lv) /\
   Forall (fun ka => arg_holds (settled t) (snd ka)) (_kwargs lv)).
Proof.
  destruct lv as [n o f d args kwargs].
  cbn [settled _this_name _args _kwargs]. unfold wants_log_prob.
  cbn [_this_name _dist]. rewrite !all_of_Forall. reflexivity.
Qed.

#[local] Instance frame_preorder (J : Trace value -> Prop) :
  PreOrder (@frame value W J).
Proof.
  split; unfold frame.
  - intros s _. reflexivity.
  - intros s1 s2 s3 H1 H2 HJ. specialize (H1 HJ).
    rewrite H1 in H2. now rewrite (H2 HJ).
Qed.

Lemma frame_weaken {A} (J J' : Trace value -> Prop) (c : M state A) :
  (forall t, J t -> J' t) -> preserves (frame J') c -> preserves (frame J) c.
Proof. intros HJ Hc s r s' H Hs. eapply Hc; eauto. Qed.

Lemma same_trace_frame {A} (J : Trace value -> Prop) (c : M state A) :
  preserves same_trace c -> preserves (frame J) c.
Proof. intros Hc s r s' H _. eapply Hc; eauto. Qed.

Lemma contains_grows (s s' : state) k :
  grows s s' ->
  contains (keys (trace s)) k = true -> contains (keys (trace s')) k = true.
Proof.
  intros ([d Hd] & _) H. unfold keys in *. rewrite Hd, dict_keys_app.
  apply contains_true. apply in_or_app. left. now apply contains_true.
Qed.

Lemma wants_log_prob_grows (lv : LazyValue) (s s' : state) :
  grows s s' -> wants_log_prob (trace s') lv = wants_log_prob (trace s) lv.
Proof. intros (_ & _ & Hf & _). unfold wants_log_prob. now rewrite Hf. Qed.

(** What is settled stays settled. *)
Lemma settled_grows (s s' : state) (lv : LazyValue) :
  grows s s' -> settled (trace s) lv -> settled (trace s') lv.
Proof.
  intros Hg. induction lv as [n o f d args kwargs IHa IHk]
    using LazyValue_nested_ind.
  rewrite !settled_eq. rewrite (wants_log_prob_grows _ _ _ Hg).
  cbn [_this_name _args _kwargs].
  intros [Hn Hw]. split; [eapply contains_grows; eassumption|].
  intros Hwant. destruct (Hw Hwant) as (Hlp & Ha & Hk).
  split; [eapply contains_grows; eassumption|]. split.
  - revert Ha. rewrite !Forall_forall. intros Ha a Hin.
    specialize (Ha a Hin). rewrite Forall_forall in IHa.
    specialize (IHa a Hin). destruct a; cbn in *; auto.
  - revert Hk. rewrite !Forall_forall. intros Hk ka Hin.
    specialize (Hk ka Hin). rewrite Forall_forall in IHk.
    specialize (IHk ka Hin). destruct ka as [k [v|l]]; cbn in *; auto.
Qed.

Lemma arg_settled_grows (s s' : state) (a : arg value LazyValue) :
  grows s s' ->
  arg_holds (settled (trace s)) a -> arg_holds (settled (trace s')) a.
Proof.
  intros Hg. destruct a as [v|l]; cbn; [trivial|]. now apply settled_grows.
Qed.

Lemma mapM_settles {X B} (f : X -> M state B)
    (proj : X -> arg value LazyValue) (l : list X) :
  (forall x, preserves extends (f x)) ->
  Forall (fun x => forall s b s',
              f x s = (Ok b, s') -> arg_holds (settled (trace s')) (proj x)) l ->
  forall s bs s',
    mapM f l s = (Ok bs, s') ->
    Forall (fun x => arg_holds (settled (trace s')) (proj x)) l.
Proof.
  intros Hext HP.
  induction HP as [|x l Hx HP IH]; intros s bs s' H; [constructor|].
  cbn [mapM] in H. bind_ok H as b s1 Hb. bind_ok H as bs' s2 Hbs.
  inversion H; subst; clear H. constructor.
  - eapply arg_settled_grows; [|eapply Hx; eassumption].
    apply extends_grows. eapply preserves_mapM; [apply _| |eassumption].
    apply Forall_forall. intros; apply Hext.
  - eapply IH; eassumption.
Qed.

(** A call that returns leaves the nodes among its arguments settled. *)
Lemma call_fn_settles (lv : LazyValue) :
  Forall (arg_holds (fun l => forall s v s',
            evaluate l s = (Ok v, s') -> settled (trace s') l)) (_args lv) ->
  Forall (fun ka => arg_holds (fun l => forall s v s',
            evaluate l s = (Ok v, s') -> settled (trace s') l) (snd ka))
         (_kwargs lv) ->
  forall s v s',
    call_fn lv s = (Ok v, s') ->
    Forall (arg_holds (settled (trace s'))) (_args lv) /\
    Forall (fun ka => arg_holds (settled (trace s')) (snd ka)) (_kwargs lv).
Proof.
  intros IHa IHk s v s' H. unfold call_fn in H.
  bind_ok H as kw s1 Hkw. bind_ok H as ar s2 Har.
  apply invoke_calls in H as [_ Ht]. rewrite Ht.
  assert (Hext : extends s1 s2).
  { eapply preserves_mapM; [apply _| |eassumption].
    apply Forall_forall. intros [w|l] _; cbn; [pres|apply evaluate_extends]. }
  split.
  - eapply (mapM_settles eval_arg (fun a => a)); [| |eassumption].
    + intros [w|l]; cbn; [pres|apply evaluate_extends].
    + eapply Forall_impl; [exact IHa|]. intros [w|l] Hl; cbn in *; eauto.
  - eapply Forall_impl; [|intros ka; apply arg_settled_grows, extends_grows, Hext].
    eapply (mapM_settles eval_kwarg snd); [| |eassumption].
    + intros [k [w|l]]; unfold eval_kwarg; cbn; pres. apply evaluate_extends.
    + eapply Forall_impl; [exact IHk|]. intros [k a] Hl s0 b s0' Hb.
      unfold eval_kwarg in Hb. cbn [fst snd] in *.
      bind_ok Hb as w s3 Hw. inversion Hb; subst; clear Hb.
      destruct a as [w'|l]; cbn in *; eauto.
Qed.

(** An evaluation that returns leaves its node settled. *)
Lemma evaluate_settles (lv : LazyValue) (s : state) v s' :
  evaluate lv s = (Ok v, s') -> settled (trace s') lv.
Proof.
  revert s v s'.
  induction lv as [n o f d args kwargs IHa IHk] using LazyValue_nested_ind.
  intros s v s' H.
  pose proof (call_fn_settles (mkLazyValue n o f d args kwargs) IHa IHk)
    as Hcall.
  pose proof (call_fn_extends (mkLazyValue n o f d args kwargs)) as Hcext.
  set (lv := mkLazyValue n o f d args kwargs) in *.
  pose proof (evaluate_ok_get _ _ _ _ H) as Hget.
  apply settled_eq. split; [apply dict_get_contains; eauto|].
  intros Hwant. rewrite evaluate_eq in H.
  bind_ok H as s0 s1 H0. inversion H0; subst s0 s1; clear H0.
  bind_ok H as inst s1 Hblock.
  pose proof (finish_extends lv (call_fn lv) inst Hcext _ _ _ H) as Hext.
  rewrite (wants_log_prob_extends _ _ _ Hext) in Hwant.
  unfold finish in H. bind_ok H as s2 s3 H0.
  inversion H0; subst s2 s3; clear H0. rewrite Hwant in H.
  bind_ok H as u s2 Hlp. apply trace_get_id in H as ->.
  bind_ok Hlp as i s3 Hinst. bind_ok Hlp as m sm Hm.
  assert (sm = s3) as -> by (destruct (py_log_prob i); now inversion Hm).
  bind_ok Hlp as v0 s4 Hv0.
  bind_ok Hlp as lp s5 Hlpv. apply trace_get_id in Hv0 as ->.
  assert (Hlast : extends s3 s2).
  { transitivity s5; [eapply in_world_extends; eassumption|].
    eapply trace_set_extends; eassumption. }
  split.
  { inversion Hlp; subst. cbn [trace with_trace]. apply setitem_contains. }
  destruct inst as [i0|].
  - (* the instance came from the first block *)
    inversion Hinst; subst i0 s3; clear Hinst.
    cbn [_this_name _dist _fn_out_names lv] in Hblock.
    destruct (negb (contains (keys (trace s)) n)); [|discriminate].
    destruct (negb d).
    + bind_ok Hblock as r1 sx Hc. bind_ok Hblock as u1 sy Hs. discriminate.
    + bind_ok Hblock as r1 sx Hc. destruct (Hcall _ _ _ Hc) as [Ha Hk].
      assert (Hxs : extends sx s2).
      { transitivity s1; [|exact Hlast].
        lazymatch type of Hblock with
        | ?c sx = _ =>
            assert (Hp : preserves extends c) by pres;
            exact (Hp _ _ _ Hblock)
        end. }
      split; (eapply Forall_impl; [eassumption|]); intros;
        eapply arg_settled_grows; eauto using extends_grows.
  - destruct (Hcall _ _ _ Hinst) as [Ha Hk].
    split; (eapply Forall_impl; [eassumption|]); intros;
      eapply arg_settled_grows; eauto using extends_grows.
Qed.

#[local] Hint Resolve same_trace_frame : pres.

(** Evaluating a settled node leaves the trace as it is. *)
Lemma evaluate_settled_frame (lv : LazyValue) :
  preserves (frame (fun t => settled t lv)) (evaluate lv).
Proof.
  induction lv as [n o f d args kwargs IHa IHk] using LazyValue_nested_ind.
  set (lv := mkLazyValue n o f d args kwargs) in *.
  intros s r s' H Hs. apply settled_eq in Hs as [Hn Hw].
  rewrite evaluate_eq in H. unfold bind at 1 2 in H. unfold get at 1 in H.
  rewrite Hn in H. cbn [negb] in H. unfold ret at 1 in H.
  destruct (wants_log_prob (trace s) lv) eqn:Hwant.
  2:{ rewrite finish_plain in H by assumption.
      now apply trace_get_id in H as ->. }
  destruct (Hw eq_refl) as (Hlp & Ha & Hk). clear Hw.
  set (J := fun t : Trace value =>
              contains (keys t) (_this_name lv +:+ ":log_prob") = true /\
              Forall (arg_holds (settled t)) args /\
              Forall (fun ka => arg_holds (settled t) (snd ka)) kwargs).
  assert (Hset : forall v, preserves (@frame value W J)
                   (trace_set (_this_name lv +:+ ":log_prob") v)).
  { intros v s0 r0 s0' H0 (HJ & _). inversion H0; subst.
    cbn [trace with_trace]. now apply setitem_present. }
  assert (Hcall : preserves (frame J) (call_fn lv)).
  { apply call_fn_preserves; [apply _|intros; pres| |].
    - apply Forall_forall. intros [v|l] Hin; cbn; [exact I|].
      rewrite Forall_forall in IHa. specialize (IHa _ Hin). cbn in IHa.
      eapply frame_weaken; [|exact IHa]. intros t (_ & HJa & _).
      rewrite Forall_forall in HJa. exact (HJa _ Hin).
    - apply Forall_forall. intros [k [v|l]] Hin; cbn; [exact I|].
      rewrite Forall_forall in IHk. specialize (IHk _ Hin). cbn in IHk.
      eapply frame_weaken; [|exact IHk]. intros t (_ & _ & HJk).
      rewrite Forall_forall in HJk. exact (HJk _ Hin). }
  assert (Hfin : preserves (frame J) (finish lv (call_fn lv) None))
    by (unfold finish; pres).
  apply (Hfin _ _ _ H). now repeat split.
Qed.

(** The first evaluation of a name that is not in the trace: the arguments
    are evaluated, then the function is invoked, and that is the last
    invocation of the run. *)
Lemma evaluate_fresh_calls_once (lv : LazyValue) (s : state) v s1 :
  contains (keys (trace s)) (_this_name lv) = false ->
  evaluate lv s = (Ok v, s1) ->
  exists kw ar sa,
    eval_arguments lv s = (Ok (kw, ar), sa) /\
    calls (env s1) = calls (env sa) ++ [fn_name (_fn lv)].
Proof.
  intros Hnew H. rewrite evaluate_eq in H.
  bind_ok H as s0 s0' H0. inversion H0; subst s0 s0'; clear H0.
  rewrite Hnew in H. cbn [negb] in H.
  bind_ok H as inst sb Hblock.
  destruct (_dist lv) eqn:Hd; cbn [negb] in Hblock.
  - bind_ok Hblock as r1 sx Hc. bind_ok Hblock as r2 sy Hsm.
    bind_ok Hblock as u sz Hs. inversion Hblock; subst; clear Hblock.
    apply call_fn_ok in Hc as (kw & ar & sa & Hargs & Hinv).
    exists kw, ar, sa. split; [exact Hargs|].
    apply invoke_calls in Hinv as [<- _].
    transitivity (calls (env sb));
      [eapply finish_some_same_calls; eassumption|].
    transitivity (calls (env sy)).
    + eapply store_outputs_same_calls; eassumption.
    + eapply in_world_same_calls; eassumption.
  - bind_ok Hblock as r1 sx Hc. bind_ok Hblock as u sy Hs.
    inversion Hblock; subst; clear Hblock.
    rewrite finish_plain in H
      by (unfold wants_log_prob; rewrite Hd; apply andb_false_r).
    apply trace_get_id in H as ->.
    apply call_fn_ok in Hc as (kw & ar & sa & Hargs & Hinv).
    exists kw, ar, sa. split; [exact Hargs|].
    apply invoke_calls in Hinv as [<- _].
    eapply store_outputs_same_calls; eassumption.
Qed.

(** With the log-probability block, an evaluation of a name that is in the
    trace evaluates the arguments and invokes the function again. *)
Lemma evaluate_rebuilds (lv : LazyValue) (s : state) v s1 :
  contains (keys (trace s)) (_this_name lv) = true ->
  wants_log_prob (trace s) lv = true ->
  evaluate lv s = (Ok v, s1) ->
  exists kw ar sa,
    eval_arguments lv s = (Ok (kw, ar), sa) /\
    calls (env s1) = calls (env sa) ++ [fn_name (_fn lv)].
Proof.
  intros Hin Hw H. rewrite evaluate_eq in H.
  bind_ok H as s0 s0' H0. inversion H0; subst s0 s0'; clear H0.
  rewrite Hin in H. cbn [negb] in H.
  bind_ok H as inst sb Hblock. inversion Hblock; subst; clear Hblock.
  unfold finish in H. bind_ok H as s0 s0' H0.
  inversion H0; subst s0 s0'; clear H0. rewrite Hw in H.
  bind_ok H as u sc Hlp. apply trace_get_id in H as ->.
  bind_ok Hlp as i sx Hc. bind_ok Hlp as m sm Hm.
  assert (sm = sx) as -> by (destruct (py_log_prob i); now inversion Hm).
  bind_ok Hlp as v0 sy Hv0.
  bind_ok Hlp as lp sz Hlpv. apply trace_get_id in Hv0 as ->.
  apply call_fn_ok in Hc as (kw & ar & sa & Hargs & Hinv).
  exists kw, ar, sa. split; [exact Hargs|].
  apply invoke_calls in Hinv as [<- _].
  transitivity (calls (env sz)).
  - eapply trace_set_same_calls; eassumption.
  - eapply in_world_same_calls; eassumption.
Qed.

(** ** Claim C1: evaluating a node twice *)

(** C1 (as amended).  Let the first [evaluate()] of a node return [v].
    A second [evaluate()], if it returns, returns the same [v], and it leaves
    the trace as it is.  If the name was not in the trace before the first
    call, that call evaluated the arguments and then invoked [fn] once.
    Where the log-probability block does not apply to the node, the second
    call is the lookup alone: it returns [v], invokes no function and
    changes nothing, so [fn] was invoked exactly once over the two calls.
    Where the block applies, a second call that returns has evaluated the
    arguments and invoked [fn] once more. *)
Theorem evaluate_twice (lv : LazyValue) (s : state) v s1 :
  evaluate lv s = (Ok v, s1) ->
  (forall r s2, evaluate lv s1 = (r, s2) ->
     trace s2 = trace s1 /\ (forall v', r = Ok v' -> v' = v)) /\
  (contains (keys (trace s)) (_this_name lv) = false ->
   exists kw ar sa,
     eval_arguments lv s = (Ok (kw, ar), sa) /\
     calls (env s1) = calls (env sa) ++ [fn_name (_fn lv)]) /\
  (wants_log_prob (trace s1) lv = false -> evaluate lv s1 = (Ok v, s1)) /\
  (wants_log_prob (trace s1) lv = true ->
   forall v' s2, evaluate lv s1 = (Ok v', s2) ->
   exists kw ar sa,
     eval_arguments lv s1 = (Ok (kw, ar), sa) /\
     calls (env s2) = calls (env sa) ++ [fn_name (_fn lv)]).
Proof.
  intros H.
  pose proof (evaluate_ok_get _ _ _ _ H) as Hget.
  pose proof (evaluate_settles _ _ _ _ H) as Hsettled.
  assert (Hin : contains (keys (trace s1)) (_this_name lv) = true)
    by (apply dict_get_contains; eauto).
  repeat split.
  - eapply evaluate_settled_frame; eassumption.
  - intros v' ->.
    pose proof (evaluate_settled_frame lv _ _ _ H0 Hsettled) as Ht.
    apply evaluate_ok_get in H0. rewrite Ht in H0. congruence.
  - intros Hnew. eapply evaluate_fresh_calls_once; eassumption.
  - intros Hw. rewrite evaluate_memoized by assumption.
    unfold trace_get. now rewrite Hget.
  - intros Hw v' s2 H2. eapply evaluate_rebuilds; eassumption.
Qed.

(** ** Claim C10: what a registration evaluates *)

Lemma registered_names (t : Trace value) names (fn : pyfn value W) dist
    args kwargs :
  map _this_name (registered t names fn dist args kwargs) =
  match names with
  | NameStr x => [_prefix t +:+ x]
  | NameList xs => map (fun n => _prefix t +:+ n) xs
  | NameOther => []
  end.
Proof.
  destruct names as [x|xs|]; cbn; try reflexivity.
  rewrite map_map. cbn. apply map_id.
Qed.

(** [_sample], in terms of the nodes it builds. *)
Lemma _sample_eq names fn dist args kwargs (s : state) r :
  returned names (registered (trace s) names fn dist args kwargs) = Some r ->
  _sample names fn dist args kwargs s =
  if wanted (trace s)
            (map _this_name (registered (trace s) names fn dist args kwargs))
  then match registered (trace s) names fn dist args kwargs with
       | lv0 :: _ => (evaluate lv0 ;;; ret r) s
       | [] => (Raise IndexError, s)
       end
  else (Ok r, s).
Proof.
  rewrite registered_names.
  destruct names as [x|xs|]; cbn [registered returned]; intros Hr;
    inversion Hr; subst; clear Hr.
  - unfold _sample, bind at 1, get at 1.
    destruct (wanted (trace s) [_prefix (trace s) +:+ x]).
    + unfold bind. destruct (evaluate _ s) as [[v|e] s']; reflexivity.
    + reflexivity.
  - unfold _sample, bind at 1, get at 1.
    destruct (wanted (trace s) (map _ xs)); [|reflexivity].
    destruct xs as [|x xs]; cbn [map]; [reflexivity|].
    unfold bind. destruct (evaluate _ s) as [[v|e] s']; reflexivity.
Qed.

(** C10 (as amended).  A registration through [sample] or [sample_dist]
    calls [evaluate()] on the first node it returns exactly when the trace
    has no targets or one of the prefixed names is a target; otherwise it
    returns the nodes and nothing else happens.  That evaluation invokes
    [fn] and fills the trace when the name of the first node is not yet a
    key; a name that is already there (a condition) is left alone and,
    unless the log-probability block applies, [fn] is not invoked. *)
Theorem registration_evaluates_when_wanted names fn dist args kwargs
    (s : state) r :
  let lvs := registered (trace s) names fn dist args kwargs in
  returned names lvs = Some r ->
  (wanted (trace s) (map _this_name lvs) = false ->
   _sample names fn dist args kwargs s = (Ok r, s)) /\
  (wanted (trace s) (map _this_name lvs) = true ->
   forall lv0 rest, lvs = lv0 :: rest ->
   snd (_sample names fn dist args kwargs s) = snd (evaluate lv0 s) /\
   (contains (keys (trace s)) (_this_name lv0) = false ->
    forall r' s', _sample names fn dist args kwargs s = (Ok r', s') ->
    contains (keys (trace s')) (_this_name lv0) = true /\
    exists kw ar sa,
      eval_arguments lv0 s = (Ok (kw, ar), sa) /\
      calls (env s') = calls (env sa) ++ [fn_name (_fn lv0)]) /\
   (contains (keys (trace s)) (_this_name lv0) = true ->
    wants_log_prob (trace s) lv0 = false ->
    _sample names fn dist args kwargs s = (Ok r, s))).
Proof.
  intros lvs Hr. rewrite (_sample_eq _ _ _ _ _ _ _ Hr). fold lvs.
  split; [now intros ->|].
  intros -> lv0 rest ->. repeat split.
  - unfold bind. now destruct (evaluate lv0 s) as [[v|e] s1].
  - bind_ok H0 as v s1 Hev. inversion H0; subst.
    apply evaluate_ok_get in Hev. apply dict_get_contains. eauto.
  - bind_ok H0 as v s1 Hev. inversion H0; subst.
    eapply evaluate_fresh_calls_once; eassumption.
  - intros Hin Hw. unfold bind.
    rewrite evaluate_memoized by assumption. unfold trace_get.
    apply dict_get_contains in Hin as [v ->]. reflexivity.
Qed.

(** ** Claims C3 and C9: prefix scopes *)

Lemma set_prefix_same (t : Trace value) : set_prefix t (_prefix t) = t.
Proof. now destruct t. Qed.

Lemma with_trace_same (s : state) : with_trace s (trace s) = s.
Proof. now destruct s. Qed.

(** [with cm: body], spelled out: the body runs on the trace with the new
    prefix in front, and the old prefix is put back on whatever the body
    leaves. *)
Lemma with_eq {A} (p : string) (body : M state A) (s : state) :
  with_ (prefix p) body s =
  let entered := with_trace s (set_prefix (trace s) (p +:+ _prefix (trace s))) in
  let after := snd (body entered) in
  (fst (body entered),
   with_trace after (set_prefix (trace after) (_prefix (trace s)))).
Proof.
  unfold with_, __enter__, __exit__, prefix, modify. cbn.
  now destruct (body _) as [r s2].
Qed.

(** C9.  After [with trace.prefix(p): body], the prefix of the trace is
    what it was before, whether the body returned or raised; the outcome is
    the outcome of the body; apart from the prefix, the state is the one
    the body left; and a scope with nothing in it changes nothing. *)
Theorem prefix_scope_restores {A} (p : string) (body : M state A)
    (s : state) :
  let entered := with_trace s (set_prefix (trace s) (p +:+ _prefix (trace s))) in
  let after := snd (body entered) in
  let s' := snd (with_ (prefix p) body s) in
  _prefix (trace s') = _prefix (trace s) /\
  fst (with_ (prefix p) body s) = fst (body entered) /\
  items (trace s') = items (trace after) /\
  _targets (trace s') = _targets (trace after) /\
  _eval_log_probs (trace s') = _eval_log_probs (trace after) /\
  env s' = env after /\
  (forall a : A, with_ (prefix p) (ret a) s = (Ok a, s)).
Proof.
  cbn zeta. rewrite with_eq. cbn. repeat split.
  intros a. destruct s as [[i t pr f] e]; reflexivity.
Qed.

(** C3 (as amended).  A name [x] registered inside [trace.prefix(inner)]
    nested inside [trace.prefix(outer)] gets the inner prefix first, then
    the outer one, then the prefix the trace had: the node, and the key
    under which its value is stored, is [inner + outer + prefix + x], so
    ["ab" + x] for [inner = "a"], [outer = "b"] on a fresh trace.  Both
    scopes left, the prefix is what it was. *)
Theorem nested_prefix_registers_inner_first outer inner x fn dist args kwargs
    (s : state) r s' :
  with_ (prefix outer)
        (with_ (prefix inner) (_sample (NameStr x) fn dist args kwargs)) s
  = (r, s') ->
  let name := (inner +:+ outer +:+ _prefix (trace s)) +:+ x in
  _prefix (trace s') = _prefix (trace s) /\
  (forall lvs, r = Ok lvs ->
     lvs = OneLazy (mkLazyValue name (OneName name) fn dist args kwargs) /\
     (wanted (trace s) [name] = true ->
      contains (keys (trace s')) name = true)).
Proof.
  intros H name. rewrite with_eq in H. cbn zeta in H.
  rewrite with_eq in H. cbn zeta in H.
  cbn [trace with_trace set_prefix _prefix fst snd] in H.
  set (s2 := with_trace _ _) in H.
  set (lv := mkLazyValue name (OneName name) fn dist args kwargs).
  assert (Heq : _sample (NameStr x) fn dist args kwargs s2 =
                if wanted (trace s) [name]
                then (evaluate lv ;;; ret (OneLazy lv)) s2
                else (Ok (OneLazy lv), s2))
    by (now rewrite (_sample_eq (NameStr x) fn dist args kwargs s2 (OneLazy lv))).
  rewrite Heq in H. clear Heq.
  destruct (wanted (trace s) [name]).
  - unfold bind in H.
    destruct (evaluate lv s2) as [[v|e] s3] eqn:Hev;
      cbn [fst snd ret] in H; inversion H; subst r s'; clear H;
      (split; [reflexivity|]); intros lvs Hr; inversion Hr; subst lvs.
    split; [reflexivity|]. intros _.
    apply evaluate_ok_get in Hev. apply dict_get_contains. eauto.
  - cbn [fst snd] in H. inversion H; subst r s'; clear H.
    split; [reflexivity|]. intros lvs Hr. inversion Hr; subst lvs.
    split; [reflexivity|discriminate].
Qed.
(** ** Claim C4: keys are written once *)

Lemma _sample_extends names fn dist args kwargs :
  preserves extends (_sample names fn dist args kwargs).
Proof.
  pose proof evaluate_extends as Hev. unfold _sample.
  apply preserves_bind; [apply _|pres|]. intros s.
  destruct names as [x|xs|]; [| |pres]; pres.
Qed.

Lemma enter_grows cm : preserves (@grows value W) (__enter__ cm ;;; ret tt).
Proof.
  intros s r s' H. inversion H; subst; clear H.
  repeat split; cbn; exists []; now rewrite app_nil_r.
Qed.

Lemma exit_grows cm : preserves (@grows value W) (__exit__ cm).
Proof.
  intros s r s' H. inversion H; subst; clear H.
  repeat split; cbn; exists []; now rewrite app_nil_r.
Qed.

Lemma extends_preserves_grows {A} (c : M state A) :
  preserves extends c -> preserves grows c.
Proof. intros Hc s r s' H. apply extends_grows. eapply Hc; eassumption. Qed.

(** Every operation that the trace classes define themselves only adds
    entries behind the ones that are there. *)
Lemma run_op_grows op :
  defined_by_trace op = true -> preserves grows (run_op op).
Proof.
  pose proof evaluate_extends as Hev. pose proof _sample_extends as Hs.
  destruct op; cbn [defined_by_trace run_op]; intros Hd; try discriminate;
    try solve [apply extends_preserves_grows; unfold sample, sample_dist; pres].
  - apply enter_grows.
  - apply exit_grows.
Qed.

Lemma run_ops_grows ops (s : state) :
  Forall (fun op => defined_by_trace op = true) ops ->
  grows s (run_ops ops s).
Proof.
  intros Hops. revert s.
  induction Hops as [|op ops Hop _ IH]; intros s; cbn; [reflexivity|].
  transitivity (snd (run_op op s)); [|apply IH].
  eapply run_op_grows; [exact Hop|]. apply surjective_pairing.
Qed.

Lemma dict_get_key_index (d : dict value) k v :
  dict_get d k = Some v -> exists i, key_index (dict_keys d) k = Some i.
Proof.
  unfold dict_keys.
  induction d as [|[k' v'] d IH]; cbn; [discriminate|].
  destruct (String.eqb k' k); [eauto|].
  intros H. destruct (IH H) as [i ->]. cbn. eauto.
Qed.

(** C4 (as amended).  With [k] in the trace, [trace[k] = v'] raises
    nothing and changes nothing; and over any run of the operations that
    [Trace], [LazyValue] and [TracePrefixContextManager] define
    ([__setitem__], [covers_targets], [sample], [sample_dist], [evaluate],
    entering and leaving a prefix scope), caught exceptions included, [k]
    keeps its value and its place in the insertion order. *)
Theorem trace_keys_written_once (ops : list (trace_op value W)) (s : state)
    k v :
  dict_get (items (trace s)) k = Some v ->
  Forall (fun op => defined_by_trace op = true) ops ->
  (forall v', trace_set k v' s = (Ok tt, s)) /\
  dict_get (items (trace (run_ops ops s))) k = Some v /\
  key_index (keys (trace (run_ops ops s))) k = key_index (keys (trace s)) k.
Proof.
  intros Hget Hops. split; [|split].
  - intros v'. unfold trace_set, modify.
    rewrite setitem_present by (apply dict_get_contains; eauto).
    now rewrite with_trace_same.
  - destruct (run_ops_grows ops s Hops) as ([d Hd] & _).
    rewrite Hd. now apply dict_get_app_some.
  - destruct (run_ops_grows ops s Hops) as ([d Hd] & _).
    destruct (dict_get_key_index _ _ _ Hget) as [i Hi].
    unfold keys in *. rewrite Hd, dict_keys_app, Hi.
    now apply key_index_app_some.
Qed.

(** ** Claims C5 and C6: the simulator driver *)

Lemma covers_targets_missing (t : Trace value) ts k :
  _targets t = Some ts -> In k ts -> ~ In k (keys t) ->
  covers_targets t = false.
Proof.
  intros Ht Hin Hk. unfold covers_targets. rewrite Ht.
  apply not_true_is_false. intros Hall.
  rewrite forallb_forall in Hall. apply Hk, contains_true, Hall, Hin.
Qed.

(** A [forward] made of the operations of the trace leaves the targets of
    the trace as they are. *)
Lemma call_forward_keeps_targets (fwd : M state unit) (t : Trace value)
    (e : Env W) t' e' :
  preserves grows fwd ->
  call_forward fwd t e = (Ok t', e') -> _targets t' = _targets t.
Proof.
  intros Hg H. unfold call_forward in H.
  destruct (fwd (mkState t e)) as [[u|x] s'] eqn:Hf; inversion H; subst.
  now destruct (Hg _ _ _ Hf) as (_ & Ht & _).
Qed.

(** C5.  A run with targets [ts]: once the conditions are there (and have
    gone through [on_before_forward]) without covering the targets,
    [forward] is called; if it returns and some target is still not a key of
    the trace, [_run] raises [ValueError("Missing simulation targets.")], in
    the environment that this one call of [forward] left: the run is over,
    [on_after_forward] is not reached and nothing is tried again. *)
Theorem run_missing_targets (sim : Simulator value W) ts conditions log_prob
    (e : Env W) conds e1 conds' e2 t' e3 k :
  resolve_conditions conditions e = (Ok conds, e1) ->
  in_world (on_before_forward sim conds) e1 = (Ok conds', e2) ->
  covers_targets (Trace__init__ (Some ts) conds' log_prob) = false ->
  call_forward (forward sim) (Trace__init__ (Some ts) conds' log_prob) e2
  = (Ok t', e3) ->
  _targets t' = Some ts -> In k ts -> ~ In k (keys t') ->
  _run sim (Some ts) conditions log_prob e
  = (Raise (ValueError "Missing simulation targets."), e3).
Proof.
  intros Hc Hb Hcov Hf Ht Hin Hk. unfold _run.
  erewrite bind_returns by exact Hc.
  erewrite bind_returns by exact Hb.
  rewrite Hcov. cbn [negb].
  erewrite bind_returns by exact Hf.
  rewrite (covers_targets_missing t' ts k Ht Hin Hk). reflexivity.
Qed.

(** C6.  With the hooks of the base class, a run with [targets = ["x"]] and
    [conditions = {"x": v}] returns [{"x": v}] and leaves the environment as
    it is, whatever [forward] is: [forward] is not invoked.  So does every
    run whose conditions, a dict or what a callable returns, cover the
    targets: it returns the conditions, in the environment in which they
    were obtained. *)
Theorem run_conditions_cover_targets (fwd : M state unit) log_prob
    (e : Env W) :
  (forall v,
     _run (simulator_of fwd) (Some ["x"]) (CondDict [("x", v)]) log_prob e
     = (Ok [("x", v)], e)) /\
  (forall ts conditions d e1,
     resolve_conditions conditions e = (Ok d, e1) ->
     covers_targets (Trace__init__ (Some ts) d log_prob) = true ->
     _run (simulator_of fwd) (Some ts) conditions log_prob e = (Ok d, e1)).
Proof.
  assert (Hgen : forall ts conditions d e1,
     resolve_conditions conditions e = (Ok d, e1) ->
     covers_targets (Trace__init__ (Some ts) d log_prob) = true ->
     _run (simulator_of fwd) (Some ts) conditions log_prob e = (Ok d, e1)).
  { intros ts conditions d [w c] Hc Hcov.
    unfold _run, simulator_of, base_simulator.
    cbn [on_before_forward on_after_forward forward].
    rewrite (bind_returns _ _ _ _ _ Hc).
    rewrite (bind_returns (in_world (ret d)) _ (mkEnv w c) d (mkEnv w c)
                          eq_refl).
    rewrite Hcov. cbn [negb].
    rewrite (bind_returns (ret (Trace__init__ (Some ts) d log_prob)) _
                          (mkEnv w c) _ (mkEnv w c) eq_refl).
    rewrite Hcov. reflexivity. }
  split; [|exact Hgen]. intros v. now apply Hgen.
Qed.

End EngineFacts.

(** ** Claim C7: [get_index_slices] *)

(** The first index is always in the mask, so the subscripts [[0]] and
    [[-1]] of the loop body are taken of a non-empty array. *)
Lemma masked_run_nonempty (r0 : Z) (rest : list Z) :
  masked (run_mask (r0 :: rest)) (r0 :: rest) <> [].
Proof.
  unfold masked, run_mask. cbn [imap combine].
  replace (r0 - r0 - Z.of_nat 0 =? 0)%Z with true
    by (symmetry; apply Z.eqb_eq; lia).
  rewrite filter_cons_True by reflexivity. discriminate.
Qed.

(** C7.  [get_index_slices([2, 3, 4, 7, 8, 10])] is the three runs
    [[0,3) -> [2,5)], [[3,5) -> [7,9)], [[5,6) -> [10,11)], in this order
    (each entry: batch positions, then rows). *)
Theorem get_index_slices_example :
  get_index_slices [2; 3; 4; 7; 8; 10]%Z
  = [((0, 3), (2, 5)); ((3, 5), (7, 9)); ((5, 6), (10, 11))]%Z.
Proof. reflexivity. Qed.

(** ** Claims C2 and C8: the store *)

Module ZarrFacts.

Import Zarr.

(** [resize] returns on an array with a chunk grid, whatever its chunks
    hold past its end, and the array then has as many rows as asked. *)
Lemma resize_ok N a rest :
  chunked a = true ->
  exists a' rest',
    resize N a rest = Ok (a', rest') /\
    alen a' = N /\ length (rows a') = N /\
    chunks a' = chunks a /\ dtype a' = dtype a /\
    tl (shape a') = tl (shape a).
Proof.
  intros Hc. unfold resize. rewrite Hc. eexists _, _.
  split; [reflexivity|]. cbn [alen shape rows chunks dtype hd tl].
  repeat split. rewrite length_app, length_take, length_replicate. lia.
Qed.

(** It raises [ZeroDivisionError] on any other. *)
Lemma resize_not_chunked N a rest :
  chunked a = false -> resize N a rest = Raise ZeroDivisionError.
Proof. intros Hc. unfold resize. now rewrite Hc. Qed.

(** The chunks that are kept reach the new end. *)
Lemma rows_kept_ge N a : chunked a = true -> N <= rows_kept N a.
Proof.
  unfold rows_kept, chunked. destruct (chunks a) as [|c cs]; [lia|].
  cbn [forallb]. intros Hc. apply andb_true_iff in Hc as [Hc _].
  apply Nat.ltb_lt in Hc.
  pose proof (Nat.div_mod_eq (N + c - 1) c) as Hdm.
  pose proof (Nat.mod_upper_bound (N + c - 1) c ltac:(lia)) as Hm.
  nia.
Qed.

(** Where nothing is held past the end, the rows a growth adds are
    zeros. *)
Lemma resize_grow N a :
  chunked a = true -> length (rows a) <= N ->
  resize N a []
  = Ok (mkArray (N :: tl (shape a)) (chunks a) (dtype a)
                (rows a ++ replicate (N - length (rows a))
                                     (zero_row (tl (shape a)))),
        []).
Proof.
  intros Hc Hle. unfold resize. rewrite Hc, app_nil_r.
  pose proof (rows_kept_ge N a Hc) as Hk.
  rewrite (take_ge (rows a)) by lia.
  rewrite (take_ge (rows a)) by lia.
  now rewrite drop_ge by lia.
Qed.

(** [__len__] never changes the store. *)
Lemma len_state self r self' : __len__ self = (r, self') -> self' = self.
Proof.
  unfold __len__. destruct (data self) as [d|]; [|now inversion 1].
  destruct (map _ (map_to_list d)) as [|n ns]; [now inversion 1|].
  destruct (forallb _ _); now inversion 1.
Qed.

(** When [__len__] returns [N], every array of the [data] group has
    length [N], and there is at least one if the group exists. *)
Lemma len_ok self N d :
  __len__ self = (Ok N, self) -> data self = Some d ->
  d <> ∅ /\ map_Forall (fun _ a => alen a = N) d.
Proof.
  unfold __len__. intros H Hd. rewrite Hd in H.
  destruct (map _ (map_to_list d)) as [|n ns] eqn:Hns; [discriminate|].
  destruct (forallb (Nat.eqb n) (n :: ns)) eqn:Hall; [|discriminate].
  inversion H; subst n; clear H. split.
  - intros ->. rewrite map_to_list_empty in Hns. discriminate.
  - intros k a Hk. rewrite forallb_forall in Hall.
    symmetry. apply Nat.eqb_eq, Hall. rewrite <- Hns.
    apply in_map_iff. exists (k, a). split; [reflexivity|].
    apply list_elem_of_In. now apply elem_of_map_to_list.
Qed.

(** Conversely: a non-empty [data] group whose arrays all have length [N]
    has length [N]. *)
Lemma len_of_uniform self N d :
  data self = Some d -> d <> ∅ -> map_Forall (fun _ a => alen a = N) d ->
  __len__ self = (Ok N, self).
Proof.
  intros Hd Hne Hall. unfold __len__. rewrite Hd.
  assert (Hns : Forall (fun n => n = N)
                  (map (fun kv : string * zarray => alen (snd kv))
                       (map_to_list d))).
  { apply Forall_forall. intros n Hin.
    apply list_elem_of_In, in_map_iff in Hin as ([k a] & <- & Hin).
    apply list_elem_of_In, elem_of_map_to_list in Hin. exact (Hall k a Hin). }
  destruct (map _ (map_to_list d)) as [|n ns] eqn:Hmap.
  - exfalso. apply Hne. apply map_to_list_empty_iff.
    now destruct (map_to_list d).
  - pose proof (Forall_inv Hns) as ->.
    replace (forallb (Nat.eqb N) (N :: ns)) with true; [reflexivity|].
    symmetry. apply forallb_forall. intros n Hin. apply Nat.eqb_eq.
    rewrite Forall_forall in Hns. symmetry. apply Hns.
    now apply list_elem_of_In.
Qed.

(** No array of [data] has the path of the status array. *)
Lemma data_path_not_status k : "meta/sim_status" <> "data/" +:+ k.
Proof. discriminate. Qed.

(** The loop of [set_length] over names whose arrays have a chunk grid:
    it returns; the arrays of these names are resized, each with what its
    own chunks held past its end; nothing else changes. *)
Lemma forM_resize_data N ks :
  forall self d,
    data self = Some d ->
    (forall k, k ∈ ks -> exists a, d !! k = Some a /\ chunked a = true) ->
    exists self' d',
      forM_ (resize_data N) ks self = (Ok tt, self') /\
      data self' = Some d' /\
      chunk_size_attr self' = chunk_size_attr self /\
      sim_status self' = sim_status self /\
      (forall k, is_Some (d' !! k) <-> is_Some (d !! k)) /\
      (forall k a', d' !! k = Some a' ->
         (k ∈ ks -> alen a' = N /\ length (rows a') = N) /\
         exists a, d !! k = Some a /\ chunks a' = chunks a /\
                   (k ∉ ks -> a' = a)) /\
      (forall p, (forall k, k ∈ ks -> p <> "data/" +:+ k) ->
         past_end self' !! p = past_end self !! p).
Proof.
  induction ks as [|k ks IH]; intros self d Hd Hks.
  - exists self, d. cbn [forM_]. split; [reflexivity|].
    split; [exact Hd|]. do 3 (split; [reflexivity|]). split; [|reflexivity].
    intros k a' Hk. split; [intros Hin; inversion Hin|]. eauto.
  - destruct (Hks k ltac:(left)) as (a & Hka & Hc).
    destruct (resize_ok N a (past ("data/" +:+ k) self) Hc)
      as (a1 & rest1 & Hr & Hal & Hlen & Hch & _).
    set (self1 := mkStore (Some (<[k := a1]> d)) (chunk_size_attr self)
                          (sim_status self)
                          (<["data/" +:+ k := rest1]> (past_end self))).
    assert (H1 : resize_data N k self = (Ok tt, self1)).
    { unfold resize_data. rewrite Hd. cbn [default from_option id].
      rewrite Hka, Hr. reflexivity. }
    destruct (IH self1 (<[k := a1]> d) eq_refl)
      as (self' & d' & Hrun & Hd' & Hattr & Hst & Hdom & Harr & Hpast).
    { intros k' Hin. destruct (decide (k' = k)) as [->|Hne].
      - exists a1. rewrite lookup_insert_eq. unfold chunked in *.
        now rewrite Hch.
      - rewrite lookup_insert_ne by congruence. apply Hks. now right. }
    exists self', d'. split.
    { cbn [forM_]. rewrite (bind_returns _ _ _ _ _ H1). exact Hrun. }
    split; [exact Hd'|]. split; [exact Hattr|]. split; [exact Hst|].
    split; [|split].
    + intros k'. rewrite Hdom. destruct (decide (k' = k)) as [->|Hne].
      * rewrite lookup_insert_eq, Hka. split; eauto.
      * now rewrite lookup_insert_ne by congruence.
    + intros k' a' Hk'. destruct (Harr k' a' Hk') as (Hin & a0 & Ha0 & Hc0 & Hout).
      destruct (decide (k' = k)) as [->|Hne].
      * rewrite lookup_insert_eq in Ha0. injection Ha0 as <-. split.
        { intros _. destruct (decide (k ∈ ks)) as [Hi|Hi]; [now apply Hin|].
          now rewrite (Hout Hi). }
        exists a. split; [exact Hka|]. split; [congruence|].
        intros Hnot. exfalso. apply Hnot. now left.
      * rewrite lookup_insert_ne in Ha0 by congruence. split.
        { intros Hi. apply Hin. apply elem_of_cons in Hi as [?|?];
            [contradiction|assumption]. }
        exists a0. split; [exact Ha0|]. split; [exact Hc0|].
        intros Hnot. apply Hout. intros Hi. apply Hnot. now right.
    + intros p Hp. rewrite Hpast.
      * cbn [past_end self1]. rewrite lookup_insert_ne; [reflexivity|].
        intros Heq. apply (Hp k); [now left|now symmetry].
      * intros k' Hi. apply Hp. now right.
Qed.

(** The names the loop of [set_length] visits are the names of [data]. *)
Lemma data_keys (d : gmap string zarray) k :
  k ∈ map fst (map_to_list d) <-> is_Some (d !! k).
Proof.
  rewrite list_elem_of_In, in_map_iff. split.
  - intros ([k' a] & <- & Hin).
    apply list_elem_of_In, elem_of_map_to_list in Hin. eauto.
  - intros [a Ha]. exists (k, a). split; [reflexivity|].
    now apply list_elem_of_In, elem_of_map_to_list.
Qed.

(** C8.  On a store of length [N] that has its arrays: [set_length(N')]
    with [N' < N] and without [clubber] raises [ValueError] with the
    message of the source, and the store is as before, no array resized;
    with [N' >= N], or with [clubber], and arrays that have a chunk grid
    (no chunk extent is [0]), it returns, the [data] group has the arrays
    of the same names, and each of them and the status array then have
    length [N'] (so has the store). *)
Theorem set_length_spec (self : ZarrStore) (N N' : nat) (clubber : bool)
    d st :
  __len__ self = (Ok N, self) ->
  data self = Some d ->
  sim_status self = Some st ->
  (N' < N -> clubber = false ->
   set_length N' clubber self
   = (Raise (ValueError shorter_than_store), self)) /\
  (N <= N' \/ clubber = true ->
   (forall k a, d !! k = Some a -> chunked a = true) ->
   chunked st = true ->
   exists self' d' st',
     set_length N' clubber self = (Ok tt, self') /\
     data self' = Some d' /\
     sim_status self' = Some st' /\
     chunk_size_attr self' = chunk_size_attr self /\
     (forall k, is_Some (d' !! k) <-> is_Some (d !! k)) /\
     map_Forall (fun _ a => alen a = N' /\ length (rows a) = N') d' /\
     alen st' = N' /\ length (rows st') = N' /\
     __len__ self' = (Ok N', self')).
Proof.
  intros Hlen Hd Hst. split.
  - intros Hlt ->. unfold set_length.
    rewrite (bind_returns _ _ _ _ _ Hlen).
    apply Nat.ltb_lt in Hlt. rewrite Hlt. reflexivity.
  - intros Hge Hcd Hcs.
    assert (Hgate : (N' <? N)%nat && negb clubber = false).
    { destruct Hge as [Hge | ->]; [|apply andb_false_r].
      apply Nat.ltb_ge in Hge. now rewrite Hge. }
    destruct (forM_resize_data N' (map fst (map_to_list d)) self d Hd)
      as (self1 & d' & Hrun & Hd' & Hattr & Hst1 & Hdom & Harr & _).
    { intros k Hk. apply data_keys in Hk as [a Ha]. eauto. }
    destruct (resize_ok N' st (past "meta/sim_status" self1) Hcs)
      as (st' & rest' & Hr & Hal & Hrows & _).
    set (self' := mkStore (data self1) (chunk_size_attr self1) (Some st')
                          (<["meta/sim_status" := rest']> (past_end self1))).
    assert (Hall : map_Forall (fun _ a => alen a = N' /\ length (rows a) = N')
                              d').
    { intros k a' Hk. apply (Harr k a' Hk). apply data_keys, Hdom. eauto. }
    exists self', d', st'. split.
    { unfold set_length. rewrite (bind_returns _ _ _ _ _ Hlen), Hgate.
      unfold bind at 1. rewrite Hd, Hrun. unfold resize_status.
      rewrite Hst1, Hst, Hr. reflexivity. }
    split; [exact Hd'|]. split; [reflexivity|]. split; [exact Hattr|].
    split; [exact Hdom|]. split; [exact Hall|].
    split; [exact Hal|]. split; [exact Hrows|].
    destruct (len_ok _ _ _ Hlen Hd) as [Hne _].
    eapply len_of_uniform; [exact Hd'| |].
    + intros ->. destruct (map_choose d Hne) as (k & a & Hk).
      destruct (proj2 (Hdom k) ltac:(eauto)) as [a' Ha'].
      now rewrite lookup_empty in Ha'.
    + intros k a Hk. now apply (Hall k a Hk).
Qed.

Section InitFacts.

Context {numpy : Numpy}.

(** What [_init_shapes] checks of a variable whose array exists. *)
Lemma init_variable_checks self dtypes N chunk_size k s d a dt :
  data self = Some d -> d !! k = Some a -> dtypes !! k = Some dt ->
  (shape a = N :: s -> chunks a = chunk_size :: s ->
   same_dtype (dtype a) dt = true ->
   init_variable (Some dtypes) N chunk_size (k, s) self = (Ok tt, self)) /\
  (shape a <> N :: s \/ chunks a <> chunk_size :: s \/
   same_dtype (dtype a) dt = false ->
   exists msg,
     init_variable (Some dtypes) N chunk_size (k, s) self
     = (Raise (AssertionError msg), self)).
Proof.
  intros Hd Hk Hdt. unfold init_variable. cbn [fst snd].
  rewrite Hdt, Hd. cbn [default from_option id]. rewrite Hk.
  unfold list_nat_eqb, assert_, bind. split.
  - intros -> -> ->. now rewrite !bool_decide_eq_true_2 by reflexivity.
  - intros H.
    destruct (decide (shape a = N :: s)) as [Hs|Hs].
    2:{ rewrite (bool_decide_eq_false_2 _ Hs). eauto. }
    rewrite (bool_decide_eq_true_2 _ Hs).
    destruct (decide (chunks a = chunk_size :: s)) as [Hc|Hc].
    2:{ rewrite (bool_decide_eq_false_2 _ Hc). eauto. }
    rewrite (bool_decide_eq_true_2 _ Hc).
    destruct (same_dtype (dtype a) dt) eqn:He; [|eauto].
    exfalso. destruct H as [H|[H|H]]; congruence.
Qed.

(** C2 (as amended).  On a store of positive length, [init] returns at
    once and leaves the store as it is, whatever [N], chunk size, shapes and
    dtypes it is given: a matching schema and a differing one are treated
    alike, nothing is compared.  The comparisons of [_init_shapes] are
    reached only on a store of length zero, where [init] is
    [_init_shapes]. *)
Theorem init_on_initialized_store (self : ZarrStore) (n N chunk_size : nat)
    shapes dtypes :
  __len__ self = (Ok n, self) ->
  (0 < n -> init N chunk_size shapes dtypes self = (Ok tt, self)) /\
  (n = 0 ->
   init N chunk_size shapes dtypes self
   = _init_shapes shapes dtypes N chunk_size self).
Proof.
  intros Hlen. unfold init. rewrite (bind_returns _ _ _ _ _ Hlen). split.
  - intros Hpos. apply Nat.ltb_lt in Hpos. now rewrite Hpos.
  - now intros ->.
Qed.

End InitFacts.

End ZarrFacts.

(** ** The claims on concrete runs *)

Module Examples.

Import Demo.

(** C1 as stated fails where the trace collects log-probabilities and the
    node is a distribution node: [normal] is invoked by each of the two
    evaluations. *)
Lemma evaluate_twice_log_prob_invokes_twice :
  let s0 := fresh None [] true in
  let s1 := snd (evaluate node_x s0) in
  let s2 := snd (evaluate node_x s1) in
  fst (evaluate node_x s0) = Ok (VInt 0) /\
  fst (evaluate node_x s1) = Ok (VInt 0) /\
  calls (env s2) = ["normal"; "normal"] /\
  world (env s2) = 2 /\
  length (calls (env s2)) <> 1.
Proof. cbn. repeat split; discriminate. Qed.

Lemma evaluate_twice_witness :
  let lv := mkLazyValue "x" (OneName "x") f false [] [] in
  let s0 := fresh None [] false in
  let s1 := snd (evaluate lv s0) in
  evaluate lv s0 = (Ok (VInt 7), s1) /\
  evaluate lv s1 = (Ok (VInt 7), s1) /\
  calls (env s1) = ["f"].
Proof.
  cbn zeta.
  pose proof (evaluate_twice pyval nat
                (mkLazyValue "x" (OneName "x") f false [] [])
                (fresh None [] false) (VInt 7) _ eq_refl) as (_ & _ & H & _).
  split; [reflexivity|]. split; [exact (H eq_refl)|reflexivity].
Defined.

(** C3 as stated fails: the key is ["abx"], not ["bax"]. *)
Lemma nested_prefix_key_is_not_ba :
  let s' := snd (nested_registration (fresh None [] false)) in
  keys (trace s') = ["abx"] /\
  contains (keys (trace s')) "bax" = false.
Proof. split; reflexivity. Qed.

Lemma nested_prefix_witness :
  let s' := snd (nested_registration (fresh None [] false)) in
  fst (nested_registration (fresh None [] false))
  = Ok (OneLazy (mkLazyValue "abx" (OneName "abx") f false [] [])) /\
  _prefix (trace s') = "" /\
  contains (keys (trace s')) "abx" = true.
Proof.
  cbn zeta.
  pose proof (nested_prefix_registers_inner_first pyval nat
                "b" "a" "x" f false [] [] (fresh None [] false) _ _
                (surjective_pairing _)) as [Hp Hk].
  split; [reflexivity|]. split; [exact Hp|].
  exact (proj2 (Hk _ eq_refl) eq_refl).
Defined.

(** C4 as stated fails for the mutators that [Trace] inherits from [dict]:
    [update] overwrites a key that is set, [del] removes it. *)
Lemma inherited_mutators_overwrite :
  let s := fresh None [("x", VInt 1)] false in
  dict_get (items (trace s)) "x" = Some (VInt 1) /\
  dict_get (items (trace (snd (run_op (Update [("x", VInt 2)]) s)))) "x"
  = Some (VInt 2) /\
  dict_get (items (trace (snd (run_op (DelItem "x") s)))) "x" = None.
Proof. repeat split. Qed.

Lemma trace_keys_written_once_witness :
  let s := fresh None [("x", VInt 1)] false in
  let ops := [SetItem "x" (VInt 2); Sample (NameStr "x") f [] [];
              Sample (NameStr "y") f [] []; Enter (prefix "p");
              Evaluate node_x; Exit (prefix "")] in
  dict_get (items (trace s)) "x" = Some (VInt 1) /\
  dict_get (items (trace (run_ops ops s))) "x" = Some (VInt 1) /\
  key_index (keys (trace (run_ops ops s))) "x" = Some 0.
Proof.
  cbn zeta. split; [reflexivity|].
  refine (proj2 (trace_keys_written_once pyval nat
                   [SetItem "x" (VInt 2); Sample (NameStr "x") f [] [];
                    Sample (NameStr "y") f [] []; Enter (prefix "p");
                    Evaluate node_x; Exit (prefix "")]
                   (fresh None [("x", VInt 1)] false) "x" (VInt 1)
                   eq_refl _)).
  repeat constructor.
Defined.

(** C5 on a simulator that registers [y] while [x] is asked for. *)
Lemma run_missing_targets_witness :
  _run sim_y (Some ["x"]) (CondDict []) false env0
  = (Raise (ValueError "Missing simulation targets."), env0).
Proof.
  refine (run_missing_targets pyval nat sim_y ["x"] (CondDict []) false env0
            [] env0 [] env0 (Trace__init__ (Some ["x"]) [] false) env0 "x"
            eq_refl eq_refl eq_refl eq_refl eq_refl _ _).
  - now left.
  - intros [].
Defined.

(** C6 on the run of the claim, with a [forward] that would raise. *)
Lemma run_conditions_cover_targets_witness :
  _run (simulator_of (raise NotImplementedError)) (Some ["x"])
       (CondDict [("x", VInt 5)]) false env0
  = (Ok [("x", VInt 5)], env0).
Proof.
  exact (proj2 (run_conditions_cover_targets pyval nat
                  (raise NotImplementedError) false env0)
               ["x"] (CondDict [("x", VInt 5)]) [("x", VInt 5)] env0
               eq_refl eq_refl).
Defined.

(** C10 as stated fails on a conditioned name: the trace has no targets,
    yet registering [x] does not invoke [f]. *)
Lemma conditioned_registration_invokes_nothing :
  let s := fresh None [("x", VInt 5)] false in
  _targets (trace s) = None /\
  sample (NameStr "x") f [] [] s
  = (Ok (OneLazy (mkLazyValue "x" (OneName "x") f false [] [])), s) /\
  calls (env (snd (sample (NameStr "x") f [] [] s))) = [].
Proof. repeat split. Qed.

Lemma registration_witness :
  let s := fresh (Some ["y"]) [] false in
  _sample (NameStr "x") f false [] [] s
  = (Ok (OneLazy (mkLazyValue "x" (OneName "x") f false [] [])), s).
Proof.
  exact (proj1 (registration_evaluates_when_wanted pyval nat (NameStr "x") f
                  false [] [] (fresh (Some ["y"]) [] false) _ eq_refl)
               eq_refl).
Defined.

(** C2 as stated fails: a store of length 3 with [x] of shape [(2,)],
    chunk size 2 and dtype [f8] accepts an [init] that asks for shape
    [(7,)], chunk size 5 and dtype [i4], and stays as it is. *)
Lemma init_accepts_other_schema :
  Zarr.data store3
  = Some {[ "x" := Zarr.mkArray [3; 2] [2; 2] "f8"
                                (replicate 3 [0; 0]%Z) ]} /\
  Zarr.chunk_size_attr store3 = Some 2 /\
  Zarr.init 3 5 (Some [("x", [7])]) (Some {[ "x" := "i4" ]}) store3
  = (Ok tt, store3).
Proof. repeat split; vm_compute; reflexivity. Qed.

Lemma init_on_initialized_store_witness :
  Zarr.__len__ store3 = (Ok 3, store3) /\
  Zarr.init 3 2 (Some shapes_x) (Some dtypes_x) store3 = (Ok tt, store3).
Proof.
  assert (H : Zarr.__len__ store3 = (Ok 3, store3)) by (vm_compute; reflexivity).
  split; [exact H|].
  apply (ZarrFacts.init_on_initialized_store store3 3 3 2 _ _ H). lia.
Defined.

Lemma set_length_witness :
  fst (Zarr.set_length 2 false store3)
  = Raise (ValueError Zarr.shorter_than_store) /\
  fst (Zarr.__len__ (snd (Zarr.set_length 5 false store3))) = Ok 5.
Proof.
  assert (H : Zarr.__len__ store3 = (Ok 3, store3)) by (vm_compute; reflexivity).
  destruct (ZarrFacts.set_length_spec store3 3 2 false data3 _ H eq_refl
              eq_refl) as [Hshrink _].
  destruct (ZarrFacts.set_length_spec store3 3 5 false data3 _ H eq_refl
              eq_refl) as [_ Hgrow].
  split.
  - rewrite Hshrink; [reflexivity|lia|reflexivity].
  - destruct Hgrow as (self' & d' & st' & Hset & _ & _ & _ & _ & _ & _ & _
                       & Hlen).
    + left; lia.
    + intros k a Hk. unfold data3 in Hk.
      apply lookup_singleton_Some in Hk as [_ <-]. reflexivity.
    + reflexivity.
    + rewrite Hset. cbn [snd]. now rewrite Hlen.
Defined.

End Examples.


(** * More of the code *)

(** ** The engine: outputs, argument order, log-probabilities *)

Section EngineMore.

Variables (value W : Type).
Context {protocol : Protocol value W}.

Local Abbreviation state := (state value W).
Local Abbreviation LazyValue := (LazyValue value W).

#[local] Existing Instance grows_preorder.
#[local] Existing Instance extends_preorder.

Lemma set_items_set_items (t : Trace value) d1 d2 :
  set_items (set_items t d1) d2 = set_items t d2.
Proof. reflexivity. Qed.

Lemma items_set_items (t : Trace value) d : items (set_items t d) = d.
Proof. reflexivity. Qed.

Lemma set_items_same (t : Trace value) : set_items t (items t) = t.
Proof. now destruct t. Qed.

(** Assigning fresh, distinct names appends the pairs in order. *)
Lemma forM_trace_set_fresh (l : list (string * value)) (s : state) :
  NoDup (map fst l) ->
  (forall n, In n (map fst l) -> ~ In n (keys (trace s))) ->
  forM_ (fun nv : string * value => trace_set (fst nv) (snd nv)) l s
  = (Ok tt, with_trace s (set_items (trace s) (items (trace s) ++ l))).
Proof.
  revert s. induction l as [|[n v] l IH]; intros s Hnd Hfresh.
  - cbn. rewrite app_nil_r, set_items_same. now destruct s.
  - cbn [forM_ map fst] in *. apply NoDup_cons in Hnd as [Hn Hnd].
    unfold bind, trace_set at 1, modify. cbn [fst snd].
    rewrite setitem_absent
      by (apply contains_false, Hfresh; now left).
    rewrite IH; [|exact Hnd|].
    + cbn [trace with_trace items set_items env].
      now rewrite <- app_assoc.
    + intros n' Hin. cbn [trace with_trace]. unfold keys, set_items.
      cbn [items]. rewrite dict_keys_app. intros Hin'.
      apply in_app_or in Hin' as [Hin'|[<-|[]]].
      * eapply Hfresh; [right; exact Hin|exact Hin'].
      * apply Hn. now apply list_elem_of_In.
Qed.

Lemma dict_get_key_in {A} (d : dict A) k v :
  dict_get d k = Some v -> In k (map fst d).
Proof.
  induction d as [|[k' v'] d IH]; cbn; [discriminate|].
  destruct (String.eqb_spec k' k) as [->|_]; [now left|]. intros H.
  right. now apply IH.
Qed.

Lemma combine_keys_in {A} (ns : list string) (vs : list A) n :
  In n (map fst (combine ns vs)) -> In n ns.
Proof.
  intros Hin. apply in_map_iff in Hin as ([n' v] & <- & Hin).
  eapply in_combine_l; exact Hin.
Qed.

Lemma combine_keys_NoDup {A} (ns : list string) (vs : list A) :
  NoDup ns -> NoDup (map fst (combine ns vs)).
Proof.
  revert vs. induction ns as [|n ns IH]; intros [|v vs] Hnd; cbn;
    try constructor.
  - apply NoDup_cons in Hnd as [Hn Hnd]. intros Hin. apply Hn.
    apply list_elem_of_In, (combine_keys_in ns vs). now apply list_elem_of_In.
  - apply NoDup_cons in Hnd as [_ Hnd]. now apply IH.
Qed.

Lemma dict_get_app_fresh (d d' : dict value) k :
  ~ In k (dict_keys d) -> dict_get (d ++ d') k = dict_get d' k.
Proof.
  induction d as [|[k' v'] d IH]; cbn; [reflexivity|]. intros Hk.
  destruct (String.eqb_spec k' k) as [->|_]; [exfalso; apply Hk; now left|].
  apply IH. intros Hin. apply Hk. now right.
Qed.

(** Arguments that evaluate, followed by the invocation, are the call. *)
Lemma call_fn_of_arguments (lv : LazyValue) (s : state) kw ar sa :
  eval_arguments lv s = (Ok (kw, ar), sa) ->
  call_fn lv s = invoke (_fn lv) ar kw sa.
Proof.
  unfold eval_arguments, call_fn. intros H.
  bind_ok H as kw' s1 Hkw. bind_ok H as ar' s2 Har.
  inversion H; subst; clear H.
  now rewrite (bind_returns _ _ _ _ _ Hkw), (bind_returns _ _ _ _ _ Har).
Qed.

Lemma invoke_run (f : pyfn value W) ar kw (s : state) r w' :
  fn_call f ar kw (world (env s)) = (r, w') ->
  invoke f ar kw s
  = (r, mkState (trace s) (mkEnv w' (calls (env s) ++ [fn_name f]))).
Proof. unfold invoke, in_env. now intros ->. Qed.

(** The first evaluation of a plain node whose function returns: what is
    left is to store the outputs and to look the name up. *)
Lemma evaluate_fresh_plain (lv : LazyValue) (s : state) kw ar sa r w' :
  _dist lv = false ->
  contains (keys (trace s)) (_this_name lv) = false ->
  eval_arguments lv s = (Ok (kw, ar), sa) ->
  fn_call (_fn lv) ar kw (world (env sa)) = (Ok r, w') ->
  evaluate lv s
  = (store_outputs (_fn_out_names lv) r ;;; trace_get (_this_name lv))
      (mkState (trace sa) (mkEnv w' (calls (env sa) ++ [fn_name (_fn lv)]))).
Proof.
  intros Hd Hnew Hargs Hcall. rewrite evaluate_eq.
  rewrite (bind_returns get _ s s s eq_refl). rewrite Hnew, Hd. cbn [negb].
  set (s1 := mkState (trace sa)
                     (mkEnv w' (calls (env sa) ++ [fn_name (_fn lv)]))).
  assert (Hc : call_fn lv s = (Ok r, s1))
    by (rewrite (call_fn_of_arguments _ _ _ _ _ Hargs);
        apply invoke_run, Hcall).
  destruct (store_outputs (_fn_out_names lv) r s1) as [[u|e] s2] eqn:Hs.
  - erewrite bind_returns.
    2:{ erewrite bind_returns by exact Hc.
        erewrite bind_returns by exact Hs. reflexivity. }
    erewrite (bind_returns (store_outputs _ _)) by exact Hs.
    apply finish_plain. unfold wants_log_prob. rewrite Hd.
    apply andb_false_r.
  - erewrite bind_raises.
    2:{ erewrite bind_returns by exact Hc.
        erewrite bind_raises by exact Hs. reflexivity. }
    now erewrite bind_raises by exact Hs.
Qed.

(** X1.  One call serves all the names of a node: on the first evaluation
    of a node with several output names, distinct and none of them in the
    trace yet, the result of the function is zipped with the names in
    their order and every pair is appended to the trace; the value
    returned is the one zipped with the name of the node.  The function is
    invoked once. *)
Theorem fan_out_stores_every_output (lv : LazyValue) ns (s : state) kw ar sa
    r w' vs v :
  _fn_out_names lv = ManyNames ns -> _dist lv = false ->
  contains (keys (trace s)) (_this_name lv) = false ->
  eval_arguments lv s = (Ok (kw, ar), sa) ->
  fn_call (_fn lv) ar kw (world (env sa)) = (Ok r, w') ->
  py_iter r = Some vs ->
  NoDup ns -> (forall n, In n ns -> ~ In n (keys (trace sa))) ->
  dict_get (combine ns vs) (_this_name lv) = Some v ->
  evaluate lv s
  = (Ok v,
     mkState (set_items (trace sa) (items (trace sa) ++ combine ns vs))
             (mkEnv w' (calls (env sa) ++ [fn_name (_fn lv)]))).
Proof.
  intros Hout Hd Hnew Hargs Hcall Hiter Hnd Hfresh Hv.
  rewrite (evaluate_fresh_plain _ _ _ _ _ _ _ Hd Hnew Hargs Hcall), Hout.
  unfold store_outputs. rewrite Hiter. unfold bind.
  rewrite forM_trace_set_fresh.
  - unfold trace_get, with_trace. cbn [trace env]. rewrite items_set_items.
    rewrite dict_get_app_fresh, Hv; [reflexivity|].
    apply Hfresh. eapply combine_keys_in, dict_get_key_in, Hv.
  - now apply combine_keys_NoDup.
  - intros n Hin. cbn [trace]. apply Hfresh. eapply combine_keys_in, Hin.
Qed.

(** X2.  When the function of a node with several output names returns
    something that cannot be iterated, the evaluation raises [TypeError] and
    stores nothing; when it returns too few values for the name of the node
    to get one, the pairs that were zipped are stored and the evaluation
    raises [KeyError] for the name of the node.  In both cases the function
    has been invoked. *)
Theorem fan_out_short_result_raises (lv : LazyValue) ns (s : state) kw ar sa
    r w' :
  _fn_out_names lv = ManyNames ns -> _dist lv = false ->
  contains (keys (trace s)) (_this_name lv) = false ->
  eval_arguments lv s = (Ok (kw, ar), sa) ->
  fn_call (_fn lv) ar kw (world (env sa)) = (Ok r, w') ->
  (py_iter r = None ->
   evaluate lv s
   = (Raise TypeError,
      mkState (trace sa)
              (mkEnv w' (calls (env sa) ++ [fn_name (_fn lv)])))) /\
  (forall vs,
     py_iter r = Some vs ->
     NoDup ns -> (forall n, In n ns -> ~ In n (keys (trace sa))) ->
     ~ In (_this_name lv) (keys (trace sa)) ->
     dict_get (combine ns vs) (_this_name lv) = None ->
     evaluate lv s
     = (Raise (KeyError (_this_name lv)),
        mkState (set_items (trace sa) (items (trace sa) ++ combine ns vs))
                (mkEnv w' (calls (env sa) ++ [fn_name (_fn lv)])))).
Proof.
  intros Hout Hd Hnew Hargs Hcall.
  rewrite (evaluate_fresh_plain _ _ _ _ _ _ _ Hd Hnew Hargs Hcall), Hout.
  unfold store_outputs. split.
  - intros ->. reflexivity.
  - intros vs -> Hnd Hfresh Hthis Hv. unfold bind.
    rewrite forM_trace_set_fresh.
    + unfold trace_get, with_trace. cbn [trace env]. rewrite items_set_items.
      now rewrite dict_get_app_fresh, Hv.
    + now apply combine_keys_NoDup.
    + intros n Hin. cbn [trace]. apply Hfresh. eapply combine_keys_in, Hin.
Qed.

(** A node with one name, no arguments and a function that returns. *)
Lemma evaluate_leaf n (f : pyfn value W) (s : state) v w' :
  ~ In n (keys (trace s)) ->
  fn_call f [] [] (world (env s)) = (Ok v, w') ->
  evaluate (mkLazyValue n (OneName n) f false [] []) s
  = (Ok v,
     mkState (set_items (trace s) (items (trace s) ++ [(n, v)]))
             (mkEnv w' (calls (env s) ++ [fn_name f]))).
Proof.
  intros Hn Hcall.
  rewrite (evaluate_fresh_plain (mkLazyValue n (OneName n) f false [] [])
             s [] [] s v w' eq_refl
             (proj2 (contains_false _ _) Hn) eq_refl Hcall).
  cbn [_fn_out_names _this_name store_outputs _fn].
  unfold bind, trace_set, modify, with_trace. cbn [trace env].
  rewrite setitem_absent by (now apply contains_false).
  unfold trace_get. cbn [trace]. rewrite items_set_items.
  rewrite dict_get_app_fresh by exact Hn. cbn. now rewrite String.eqb_refl.
Qed.

(** X3.  The nodes among the keyword arguments are evaluated before the
    nodes among the positional arguments: for a node that takes a fresh
    leaf [p] by position and a fresh leaf [q] by keyword, the function of
    [q] runs first, then the function of [p] (in the world that [q] left),
    then the function of the node; the trace gets [q], [p] and the node in
    this order. *)
Theorem keyword_arguments_evaluate_first n np nq key (f fp fq : pyfn value W)
    (s : state) vq w1 vp w2 v w3 :
  let p := mkLazyValue np (OneName np) fp false [] [] in
  let q := mkLazyValue nq (OneName nq) fq false [] [] in
  let lv := mkLazyValue n (OneName n) f false [Lazy p] [(key, Lazy q)] in
  NoDup [n; np; nq] ->
  (forall k, In k [n; np; nq] -> ~ In k (keys (trace s))) ->
  fn_call fq [] [] (world (env s)) = (Ok vq, w1) ->
  fn_call fp [] [] w1 = (Ok vp, w2) ->
  fn_call f [vp] [(key, vq)] w2 = (Ok v, w3) ->
  evaluate lv s
  = (Ok v,
     mkState (set_items (trace s)
                 (items (trace s) ++ [(nq, vq); (np, vp); (n, v)]))
             (mkEnv w3 (calls (env s)
                        ++ [fn_name fq; fn_name fp; fn_name f]))).
Proof.
  intros p q lv Hnd Hfresh Hq Hp Hf.
  apply NoDup_cons in Hnd as [Hn Hnd]. apply NoDup_cons in Hnd as [Hnp _].
  rewrite !list_elem_of_In in Hn, Hnp. cbn [In] in Hn, Hnp.
  assert (Hkn : ~ In n (keys (trace s))) by (apply Hfresh; cbn; tauto).
  assert (Hkp : ~ In np (keys (trace s))) by (apply Hfresh; cbn; tauto).
  assert (Hkq : ~ In nq (keys (trace s))) by (apply Hfresh; cbn; tauto).
  pose proof (evaluate_leaf nq fq s vq w1 Hkq Hq) as Eq.
  set (sq := mkState (set_items (trace s) (items (trace s) ++ [(nq, vq)]))
                     (mkEnv w1 (calls (env s) ++ [fn_name fq]))) in *.
  assert (Hkp' : ~ In np (keys (trace sq))).
  { unfold sq, keys. cbn [trace]. rewrite items_set_items, dict_keys_app.
    intros Hin. apply in_app_or in Hin as [Hin|[Hin|[]]]; [tauto|].
    cbn in Hin. subst. tauto. }
  pose proof (evaluate_leaf np fp sq vp w2 Hkp' Hp) as Ep.
  set (sp := mkState (set_items (trace sq) (items (trace sq) ++ [(np, vp)]))
                     (mkEnv w2 (calls (env sq) ++ [fn_name fp]))) in *.
  assert (Hargs : eval_arguments lv s = (Ok ([(key, vq)], [vp]), sp)).
  { unfold eval_arguments, lv. cbn [_kwargs _args mapM].
    unfold eval_kwarg. cbn [fst snd eval_arg]. unfold p, q.
    erewrite bind_returns.
    2:{ erewrite bind_returns; [reflexivity|].
        erewrite bind_returns by exact Eq. reflexivity. }
    erewrite bind_returns; [reflexivity|].
    erewrite bind_returns by exact Ep. reflexivity. }
  assert (Hnew : contains (keys (trace s)) (_this_name lv) = false)
    by (now apply contains_false).
  rewrite (evaluate_fresh_plain lv s _ _ _ v w3 eq_refl Hnew Hargs Hf).
  cbn [_fn_out_names _this_name store_outputs _fn lv].
  unfold bind, trace_set, modify, with_trace. cbn [trace env].
  assert (Hkn' : ~ In n (keys (trace sp))).
  { unfold sp, sq, keys. cbn [trace]. rewrite !items_set_items.
    rewrite !dict_keys_app. intros Hin.
    apply in_app_or in Hin as [Hin|[Hin|[]]];
      [apply in_app_or in Hin as [Hin|[Hin|[]]]|];
      cbn in Hin; subst; tauto. }
  rewrite setitem_absent by (now apply contains_false).
  unfold trace_get. cbn [trace]. rewrite items_set_items.
  rewrite dict_get_app_fresh by exact Hkn'. cbn [dict_get].
  rewrite String.eqb_refl. unfold sp, sq. cbn [trace env calls world].
  rewrite !items_set_items, !set_items_set_items, <- !app_assoc.
  reflexivity.
Qed.

Lemma eval_arguments_extends (lv : LazyValue) :
  preserves extends (eval_arguments lv).
Proof.
  pose proof (evaluate_extends value W) as Hev. unfold eval_arguments.
  assert (Ha : forall a, preserves extends (eval_arg a))
    by (intros [v|l]; cbn; [apply preserves_ret; apply _|apply Hev]).
  apply preserves_bind; [apply _| |intros kw].
  - apply preserves_mapM; [apply _|]. apply Forall_forall. intros ka _.
    unfold eval_kwarg.
    apply preserves_bind; [apply _|apply Ha|intros; apply preserves_ret, _].
  - apply preserves_bind; [apply _| |intros; apply preserves_ret, _].
    apply preserves_mapM; [apply _|]. apply Forall_forall. intros; apply Ha.
Qed.

(** X4.  With log-probability collection on, evaluating a distribution
    node whose name is already in the trace (a condition) does not sample:
    it evaluates the arguments, builds the instance, takes [log_prob] of the
    value that is stored and writes it under [name + ":log_prob"] (if that
    key is free); the stored value is what it returns. *)
Theorem log_prob_of_conditioned_value (lv : LazyValue) (s : state) v0 kw ar
    sa inst w1 method lp w2 :
  _eval_log_probs (trace s) = true -> _dist lv = true ->
  nonempty (_this_name lv) = true ->
  dict_get (items (trace s)) (_this_name lv) = Some v0 ->
  eval_arguments lv s = (Ok (kw, ar), sa) ->
  fn_call (_fn lv) ar kw (world (env sa)) = (Ok inst, w1) ->
  py_log_prob inst = Some method ->
  method v0 w1 = (Ok lp, w2) ->
  evaluate lv s
  = (Ok v0,
     mkState (__setitem__ (trace sa) (_this_name lv +:+ ":log_prob") lp)
             (mkEnv w2 (calls (env sa) ++ [fn_name (_fn lv)]))).
Proof.
  intros Hflag Hd Hne Hget Hargs Hcall Hm Hlp.
  pose proof (eval_arguments_extends lv _ _ _ Hargs) as Hext.
  pose proof (extends_get _ _ _ _ _ _ Hext Hget) as Hget'.
  assert (Hw : wants_log_prob (trace s) lv = true)
    by (unfold wants_log_prob; now rewrite Hflag, Hne, Hd).
  rewrite evaluate_eq.
  rewrite (bind_returns get _ s s s eq_refl).
  assert (Hin : contains (keys (trace s)) (_this_name lv) = true)
    by (apply dict_get_contains; eauto).
  rewrite Hin. cbn [negb].
  rewrite (bind_returns (ret None) _ s None s eq_refl).
  unfold finish. rewrite (bind_returns get _ s s s eq_refl), Hw.
  set (s1 := mkState (trace sa)
                     (mkEnv w1 (calls (env sa) ++ [fn_name (_fn lv)]))).
  assert (Hc : call_fn lv s = (Ok inst, s1))
    by (rewrite (call_fn_of_arguments _ _ _ _ _ Hargs);
        apply invoke_run, Hcall).
  set (s2 := mkState (__setitem__ (trace sa) (_this_name lv +:+ ":log_prob") lp)
                     (mkEnv w2 (calls (env sa) ++ [fn_name (_fn lv)]))).
  erewrite bind_returns with (a := tt) (s1 := s2).
  - unfold trace_get, s2. cbn [trace].
    destruct (setitem_items (trace sa) (_this_name lv +:+ ":log_prob") lp)
      as [d ->].
    now rewrite (dict_get_app_some _ d _ _ Hget').
  - erewrite bind_returns by exact Hc. rewrite Hm.
    erewrite (bind_returns (ret method)) by reflexivity.
    erewrite (bind_returns (trace_get _)).
    2:{ unfold trace_get, s1. cbn [trace]. rewrite Hget'. reflexivity. }
    erewrite (bind_returns (in_env (in_world (method v0)))).
    2:{ unfold in_env, in_world, s1. cbn [env world trace calls].
        rewrite Hlp. reflexivity. }
    reflexivity.
Qed.

Lemma covers_targets_grows (s s' : state) :
  grows s s' -> covers_targets (trace s) = true ->
  covers_targets (trace s') = true.
Proof.
  intros Hg. pose proof Hg as (_ & Ht & _). unfold covers_targets.
  rewrite Ht. destruct (_targets (trace s)) as [ts|]; [|discriminate].
  rewrite !forallb_forall. intros H k Hin.
  eapply contains_grows; [exact Hg|]. now apply H.
Qed.

(** X5.  Once the targets are covered they stay covered: no run of the
    operations that the trace classes define (setting items, registering
    and evaluating nodes, prefix scopes), exceptions included, uncovers
    them. *)
Theorem covered_targets_stay_covered (ops : list (trace_op value W))
    (s : state) :
  Forall (fun op => defined_by_trace op = true) ops ->
  covers_targets (trace s) = true ->
  covers_targets (trace (run_ops ops s)) = true.
Proof.
  intros Hops. apply covers_targets_grows. now apply run_ops_grows.
Qed.

(** X6.  A prefix manager that is entered a second time does not put its
    own prefix in front again: [__enter__] has overwritten the manager's
    prefix with the prefix the trace had at the first entry, and it is this
    saved prefix that the second scope puts in front (nothing at all, if the
    trace had no prefix then).  The prefix is still restored on exit. *)
Theorem reentered_manager_uses_saved_prefix {A} (p : string) (s : state)
    cm' s1 (body : M state A) (s2 : state) :
  __enter__ (prefix p) s = (Ok cm', s1) ->
  let entered :=
    with_trace s2 (set_prefix (trace s2)
                              (_prefix (trace s) +:+ _prefix (trace s2))) in
  let after := snd (body entered) in
  with_ cm' body s2
  = (fst (body entered),
     with_trace after (set_prefix (trace after) (_prefix (trace s2)))).
Proof.
  intros H. inversion H; subst; clear H. cbn zeta.
  unfold with_, __enter__, __exit__, modify. cbn [cm_prefix].
  now destruct (body _) as [r s3].
Qed.

End EngineMore.

(** ** The simulator: conditions, resampling, batches *)

Section SimulatorMore.

Variables (value W : Type).
Context {protocol : Protocol value W} {stacking : Stacking value}.

Local Abbreviation state := (state value W).

#[local] Existing Instance grows_preorder.

Lemma dict_delitem_in (d : dict value) k :
  (exists d', dict_delitem d k = Some d') <-> In k (dict_keys d).
Proof.
  unfold dict_keys. induction d as [|[k' v'] d IH]; cbn.
  - split; [intros [? ?]; discriminate|tauto].
  - destruct (String.eqb_spec k' k) as [->|Hne].
    + split; eauto.
    + rewrite <- IH. destruct (dict_delitem d k) as [d''|].
      * split; eauto.
      * split; [intros [? ?]; discriminate|].
        intros [?|[? ?]]; [contradiction|discriminate].
Qed.

(** [pop] leaves the other keys alone. *)
Lemma dict_delitem_get (d d' : dict value) k k' :
  dict_delitem d k = Some d' -> k' <> k -> dict_get d' k' = dict_get d k'.
Proof.
  revert d'. induction d as [|[k0 v0] d IH]; cbn; intros d' H Hne;
    [discriminate|].
  destruct (String.eqb_spec k0 k) as [->|Hk0].
  - inversion H; subst.
    destruct (String.eqb_spec k k') as [->|_]; [contradiction|reflexivity].
  - destruct (dict_delitem d k) as [d''|]; [|discriminate].
    inversion H; subst. cbn. destruct (String.eqb k0 k'); auto.
Qed.

Lemma pop_all_ok (d d' : dict value) ts :
  pop_all d ts = Ok d' ->
  forall k, ~ In k ts -> dict_get d' k = dict_get d k.
Proof.
  revert d. induction ts as [|t ts IH]; cbn; intros d H k Hk.
  - now inversion H.
  - destruct (dict_delitem d t) as [d1|] eqn:Hd; [|discriminate].
    rewrite (IH _ H) by tauto.
    eapply dict_delitem_get; [exact Hd|]. intros ->. tauto.
Qed.

Lemma pop_all_raises (d : dict value) ts e :
  pop_all d ts = Raise e -> exists k, In k ts /\ e = KeyError k.
Proof.
  revert d. induction ts as [|t ts IH]; cbn; intros d H; [discriminate|].
  destruct (dict_delitem d t) as [d1|] eqn:Hd.
  - destruct (IH _ H) as (k & Hin & ->). eauto.
  - inversion H; subst. eauto.
Qed.

Lemma dict_delitem_keys_in (d d' : dict value) k k' :
  dict_delitem d k = Some d' -> In k' (dict_keys d') -> In k' (dict_keys d).
Proof.
  unfold dict_keys. revert d'.
  induction d as [|[k0 v0] d IH]; cbn; intros d' H; [discriminate|].
  destruct (String.eqb k0 k).
  - inversion H; subst. tauto.
  - destruct (dict_delitem d k) as [d''|]; [|discriminate].
    inversion H; subst. cbn. intros [?|?]; [tauto|]. right. eauto.
Qed.

Lemma pop_all_needs_keys (d d' : dict value) ts :
  pop_all d ts = Ok d' -> forall k, In k ts -> In k (dict_keys d).
Proof.
  revert d. induction ts as [|t ts IH]; cbn; intros d H k Hk; [tauto|].
  destruct (dict_delitem d t) as [d1|] eqn:Hd; [|discriminate].
  destruct Hk as [<-|Hk].
  - apply dict_delitem_in. eauto.
  - eapply dict_delitem_keys_in; [exact Hd|]. eapply IH; eassumption.
Qed.

Lemma call_forward_grows (fwd : M state unit) (t : Trace value) (e : Env W)
    t' e' :
  preserves grows fwd ->
  call_forward fwd t e = (Ok t', e') ->
  (exists d, items t' = items t ++ d) /\ _targets t' = _targets t.
Proof.
  intros Hg H. unfold call_forward in H.
  destruct (fwd (mkState t e)) as [[u|x] s'] eqn:Hf; inversion H; subst.
  destruct (Hg _ _ _ Hf) as (Hd & Ht & _). now split.
Qed.

Lemma covers_targets_in (t : Trace value) ts k :
  _targets t = Some ts -> covers_targets t = true -> In k ts ->
  In k (keys t).
Proof.
  unfold covers_targets. intros -> Hall Hin.
  rewrite forallb_forall in Hall. apply contains_true, Hall, Hin.
Qed.

(** What [_run] returns, for the hooks of the base class and a [forward]
    that uses the trace through its own operations. *)
Lemma run_output_inv (fwd : M state unit) targets
    (d : dict value) log_prob (e : Env W) out e' :
  preserves grows fwd ->
  _run (simulator_of fwd) targets (CondDict d) log_prob e = (Ok out, e') ->
  (exists d', out = d ++ d') /\
  (forall ts k, targets = Some ts -> In k ts -> In k (dict_keys out)).
Proof.
  intros Hg H. unfold _run, simulator_of, base_simulator in H.
  cbn [on_before_forward on_after_forward forward resolve_conditions] in H.
  destruct e as [w c].
  rewrite (bind_returns (ret d) _ (mkEnv w c) d (mkEnv w c) eq_refl) in H.
  rewrite (bind_returns (in_world (ret d)) _ (mkEnv w c) d (mkEnv w c)
                        eq_refl) in H.
  set (t0 := Trace__init__ targets d log_prob) in *.
  bind_ok H as t' e1 Hfwd. bind_ok H as u e2 Hchk.
  assert (Hout : out = items t').
  { unfold in_world, ret in H. destruct e2. now inversion H. }
  assert (Ht' : (exists d', items t' = d ++ d') /\ _targets t' = targets).
  { destruct (covers_targets t0).
    - inversion Hfwd; subst. split; [exists []; now rewrite app_nil_r|].
      reflexivity.
    - cbn [negb] in Hfwd. exact (call_forward_grows _ _ _ _ _ Hg Hfwd). }
  destruct Ht' as [Hd Ht]. subst out. split; [exact Hd|].
  intros ts k -> Hin. cbn [is_some] in Hchk.
  destruct (covers_targets t') eqn:Hcov; [|discriminate].
  eapply covers_targets_in; eassumption.
Qed.

(** X7.  What a run returns starts with the conditions, unchanged and in
    their order, and it has every target: for a simulator with the hooks of
    the base class whose [forward] uses the trace through its own
    operations, the sample returned is the conditions followed by what the
    run added, and each requested target is among its keys. *)
Theorem run_output_extends_conditions (fwd : M state unit) targets
    (d : dict value) log_prob (e : Env W) out e' :
  preserves grows fwd ->
  _run (simulator_of fwd) targets (CondDict d) log_prob e = (Ok out, e') ->
  (exists d', out = d ++ d') /\
  (forall ts k, targets = Some ts -> In k ts -> In k (dict_keys out)).
Proof. apply run_output_inv. Qed.

(** X8.  Resampling a sample that lacks one of the targets raises
    [KeyError] before the simulator is called: the environment is
    untouched. *)
Theorem resampler_missing_target_raises (sim : Simulator value W) targets
    (sample : dict value) (e : Env W) k :
  In k targets -> ~ In k (dict_keys sample) ->
  exists k',
    In k' targets /\
    SimulatorResampler__call__ sim targets sample e = (Raise (KeyError k'), e).
Proof.
  intros Hin Hk. unfold SimulatorResampler__call__.
  destruct (pop_all sample targets) as [d'|x] eqn:Hpop.
  - exfalso. apply Hk. eapply pop_all_needs_keys; eassumption.
  - destruct (pop_all_raises _ _ _ Hpop) as (k' & Hin' & ->). eauto.
Qed.

(** X9.  For a simulator with the hooks of the base class whose
    [forward] keeps the entries a trace has (as the operations of the
    trace do), a resampled sample keeps every entry of the given sample
    whose name is not a target, and it has all the targets. *)
Theorem resampler_keeps_other_entries (fwd : M state unit) targets
    (sample : dict value) (e : Env W) r e' :
  preserves grows fwd ->
  SimulatorResampler__call__ (simulator_of fwd) targets sample e = (Ok r, e') ->
  exists out,
    r = OneSample out /\
    (forall k v, ~ In k targets -> dict_get sample k = Some v ->
                 dict_get out k = Some v) /\
    (forall k, In k targets -> In k (dict_keys out)).
Proof.
  intros Hg H. unfold SimulatorResampler__call__ in H.
  destruct (pop_all sample targets) as [conditions|x] eqn:Hpop;
    [|discriminate].
  unfold Simulator__call__ in H. bind_ok H as out e1 Hrun.
  inversion H; subst; clear H. exists out. split; [reflexivity|].
  destruct (run_output_inv _ _ _ _ _ _ _ Hg Hrun)
    as [[d' ->] Hts].
  split.
  - intros k v Hk Hget. apply dict_get_app_some.
    now rewrite (pop_all_ok _ _ _ Hpop k Hk).
  - intros k Hin. now apply (Hts targets k eq_refl).
Qed.

Lemma rmap_ok_keys (f : string -> result (string * value)) ks out :
  (forall k kv, f k = Ok kv -> fst kv = k) ->
  rmap f ks = Ok out -> dict_keys out = ks.
Proof.
  intros Hf. unfold dict_keys. revert out.
  induction ks as [|k ks IH]; cbn; intros out H.
  - now inversion H.
  - destruct (f k) as [kv|x] eqn:Hk; [|discriminate]. cbn in H.
    destruct (rmap f ks) as [rest|x]; [|discriminate]. cbn in H.
    inversion H; subst. cbn. now rewrite (Hf _ _ Hk), (IH _ eq_refl).
Qed.

Lemma rmap_ok_each {A B} (f : A -> result B) l out :
  rmap f l = Ok out -> forall a, In a l -> exists b, f a = Ok b.
Proof.
  revert out. induction l as [|a0 l IH]; cbn; intros out H a Hin; [tauto|].
  destruct (f a0) as [b0|x] eqn:H0; [|discriminate]. cbn in H.
  destruct (rmap f l) as [rest|x]; [|discriminate].
  destruct Hin as [<-|Hin]; eauto.
Qed.

(** X10.  [collate_output] takes its keys from the first sample: when it
    returns, the result has exactly the keys of the first sample, in their
    order, and every sample of the list has all of them (keys that only
    later samples have are dropped).  On an empty list it raises
    [IndexError], and so does a batch call of the simulator with [N <= 0],
    without a single run. *)
Theorem collate_output_keys (out : list (dict value)) :
  (forall c, collate_output out = Ok c ->
     exists first rest,
       out = first :: rest /\ dict_keys c = dict_keys first /\
       forall x k, In x out -> In k (dict_keys first) -> In k (dict_keys x)) /\
  (out = [] -> collate_output out = Raise IndexError) /\
  (forall (self : Simulator value W) N targets conditions log_prob
          (e : Env W),
     (N <= 0)%Z ->
     Simulator__call__ self (Some N) targets conditions log_prob e
     = (Raise IndexError, e)).
Proof.
  split; [|split].
  - intros c Hc. destruct out as [|first rest]; [discriminate|].
    exists first, rest. split; [reflexivity|]. cbn [collate_output] in Hc.
    split.
    + eapply rmap_ok_keys; [|exact Hc]. intros k kv Hk.
      unfold collate_key in Hk.
      destruct (dict_getitem first k); [|discriminate]. cbn [rbind] in Hk.
      destruct (rmap _ (first :: rest)); [|discriminate]. cbn [rbind] in Hk.
      destruct (if is_tensor _ then _ else _); [|discriminate].
      now inversion Hk.
    + intros x k Hx Hk.
      destruct (rmap_ok_each _ _ _ Hc k Hk) as [kv Hkv].
      unfold collate_key in Hkv.
      destruct (dict_getitem first k) as [v0|]; [|discriminate].
      cbn [rbind] in Hkv.
      destruct (rmap (fun x => dict_getitem x k) (first :: rest))
        as [col|] eqn:Hcol; [|discriminate].
      destruct (rmap_ok_each _ _ _ Hcol x Hx) as [v Hv].
      unfold dict_getitem in Hv.
      destruct (dict_get x k) as [v'|] eqn:Hg; [|discriminate].
      eapply dict_get_key_in, Hg.
  - now intros ->.
  - intros self N targets conditions log_prob e HN.
    unfold Simulator__call__. replace (Z.to_nat N) with 0%nat by lia.
    reflexivity.
Qed.

End SimulatorMore.

(** ** [get_index_slices] on any list of indices *)

Lemma mask_from_cons r0 i x l :
  mask_from r0 i (x :: l)
  = (x - r0 - Z.of_nat i =? 0)%Z :: mask_from r0 (S i) l.
Proof.
  unfold mask_from. cbn [imap]. rewrite Nat.add_0_r. f_equal.
  apply imap_ext. intros j y _. cbn. now rewrite Nat.add_succ_r.
Qed.

Lemma run_mask_from r0 rest :
  run_mask (r0 :: rest) = mask_from r0 0 (r0 :: rest).
Proof. reflexivity. Qed.

Lemma length_mask_from r0 i l : length (mask_from r0 i l) = length l.
Proof. unfold mask_from. apply length_imap. Qed.

Lemma masked_cons b m x l :
  masked (b :: m) (x :: l) = if b then x :: masked m l else masked m l.
Proof.
  unfold masked. cbn [combine]. destruct b.
  - now rewrite filter_cons_True by reflexivity.
  - now rewrite filter_cons_False by (cbn; discriminate).
Qed.

Lemma mask_sum_cons b m :
  mask_sum (b :: m) = ((if b then 1 else 0) + mask_sum m)%Z.
Proof.
  unfold mask_sum. destruct b.
  - rewrite filter_cons_True by reflexivity. cbn [length]. lia.
  - rewrite filter_cons_False by discriminate. lia.
Qed.

(** Every index is either in the run or left for the next turn. *)
Lemma mask_splits m (l : list Z) :
  length m = length l ->
  (mask_sum m + Z.of_nat (length (unmasked m l)))%Z = Z.of_nat (length l).
Proof.
  revert l. induction m as [|b m IH]; intros [|x l] H; try discriminate.
  - reflexivity.
  - unfold unmasked. cbn [map]. rewrite masked_cons, mask_sum_cons.
    injection H as H. specialize (IH l H). unfold unmasked in IH.
    destruct b; cbn [negb length]; lia.
Qed.

Lemma mask_sum_run_pos r0 rest : (0 < mask_sum (run_mask (r0 :: rest)))%Z.
Proof.
  rewrite run_mask_from, mask_from_cons, mask_sum_cons.
  replace (r0 - r0 - Z.of_nat 0 =? 0)%Z with true
    by (symmetry; apply Z.eqb_eq; lia).
  unfold mask_sum. lia.
Qed.

Lemma loop_tiles (pointer : Z) (idx : list Z) :
  tiles pointer (map fst (get_index_slices_loop pointer idx))
        (pointer + Z.of_nat (length idx)).
Proof.
  funelim (get_index_slices_loop pointer idx).
  - cbn. lia.
  - simp get_index_slices_loop. cbn [map fst snd tiles].
    split; [reflexivity|]. split.
    + pose proof (mask_sum_run_pos r0 rest). lia.
    + replace (pointer + Z.of_nat (length (r0 :: rest)))%Z
        with (pointer + mask_sum (run_mask (r0 :: rest))
              + Z.of_nat (length (unmasked (run_mask (r0 :: rest))
                                           (r0 :: rest))))%Z; [exact H|].
      rewrite <- (mask_splits (run_mask (r0 :: rest)) (r0 :: rest)).
      * lia.
      * rewrite run_mask_from. apply length_mask_from.
Qed.

(** X11.  Whatever the indices, the batch positions of the slices
    [get_index_slices] returns follow one another from [0] to [len(idx)],
    and none of them is empty: every position of the batch is in exactly
    one slice. *)
Theorem get_index_slices_positions (idx : list Z) :
  tiles 0 (map fst (get_index_slices idx)) (Z.of_nat (length idx)).
Proof. exact (loop_tiles 0 idx). Qed.

(** On increasing indices nothing after a gap is in the run. *)
Lemma mask_from_above r0 i l :
  StronglySorted Z.lt l ->
  (forall x, head l = Some x -> (r0 + Z.of_nat i < x)%Z) ->
  mask_from r0 i l = replicate (length l) false.
Proof.
  intros Hs. revert i. induction Hs as [|x l Hs IH Hall]; intros i Hx.
  - reflexivity.
  - rewrite mask_from_cons. cbn [length replicate].
    specialize (Hx x eq_refl). f_equal.
    + apply Z.eqb_neq. lia.
    + apply IH. intros y Hy. destruct l as [|y' l]; [discriminate|].
      injection Hy as ->. apply Forall_cons in Hall as [Hxy _]. lia.
Qed.

(** On increasing indices the mask is a prefix: the run is the first [k]
    indices, which are consecutive, and the next index is beyond them. *)
Lemma mask_from_sorted r0 i l :
  StronglySorted Z.lt l ->
  (forall x, head l = Some x -> (r0 + Z.of_nat i <= x)%Z) ->
  exists k,
    k <= length l /\
    mask_from r0 i l = replicate k true ++ replicate (length l - k) false /\
    take k l = seqZ (r0 + Z.of_nat i) (Z.of_nat k) /\
    Forall (fun y => (r0 + Z.of_nat i + Z.of_nat k < y)%Z) (drop k l).
Proof.
  intros Hs. revert i. induction Hs as [|x l Hs IH Hall]; intros i Hx.
  - exists 0. repeat split; constructor.
  - specialize (Hx x eq_refl).
    destruct (Z.eq_dec x (r0 + Z.of_nat i)%Z) as [->|Hne].
    + destruct (IH (S i)) as (k & Hk & Hm & Ht & Hd).
      { intros y Hy. destruct l as [|y' l]; [discriminate|].
        injection Hy as ->. apply Forall_cons in Hall as [Hxy _]. lia. }
      exists (S k). split; [cbn; lia|]. split; [|split].
      * rewrite mask_from_cons, Hm. cbn [replicate app length Nat.sub].
        f_equal. apply Z.eqb_eq. lia.
      * cbn [take]. rewrite Ht.
        replace (Z.of_nat (S k)) with (Z.succ (Z.of_nat k)) by lia.
        rewrite (seqZ_cons (r0 + Z.of_nat i)) by lia.
        f_equal. f_equal; lia.
      * cbn [drop]. eapply Forall_impl; [exact Hd|]. cbn. intros; lia.
    + exists 0. split; [lia|]. split; [|split].
      * rewrite Nat.sub_0_r. apply mask_from_above; [now constructor|].
        intros y Hy. injection Hy as <-. lia.
      * reflexivity.
      * cbn [drop]. constructor; [lia|].
        eapply Forall_impl; [exact Hall|]. cbn. intros; lia.
Qed.

Lemma masked_prefix k (l : list Z) :
  k <= length l ->
  masked (replicate k true ++ replicate (length l - k) false) l = take k l
  /\ unmasked (replicate k true ++ replicate (length l - k) false) l
     = drop k l
  /\ mask_sum (replicate k true ++ replicate (length l - k) false)
     = Z.of_nat k.
Proof.
  revert l. induction k as [|k IH]; intros l Hk.
  - rewrite Nat.sub_0_r. cbn [replicate app take drop]. clear Hk.
    induction l as [|x l IHl]; [now cbn|].
    cbn [length replicate]. unfold unmasked in *. cbn [map negb].
    rewrite !masked_cons, mask_sum_cons.
    destruct IHl as (-> & -> & ->). now cbn.
  - destruct l as [|x l]; [cbn in Hk; lia|].
    cbn [length] in *. destruct (IH l ltac:(lia)) as (H1 & H2 & H3).
    cbn [replicate app Nat.sub take drop]. unfold unmasked in *.
    cbn [map negb]. rewrite !masked_cons, mask_sum_cons, H1, H2, H3.
    repeat split. lia.
Qed.

(** One turn of the loop on increasing indices. *)
Lemma run_sorted r0 rest :
  StronglySorted Z.lt (r0 :: rest) ->
  exists k,
    1 <= k <= length (r0 :: rest) /\
    mask_sum (run_mask (r0 :: rest)) = Z.of_nat k /\
    masked (run_mask (r0 :: rest)) (r0 :: rest) = seqZ r0 (Z.of_nat k) /\
    unmasked (run_mask (r0 :: rest)) (r0 :: rest) = drop k (r0 :: rest) /\
    take k (r0 :: rest) = seqZ r0 (Z.of_nat k) /\
    Forall (fun y => (r0 + Z.of_nat k < y)%Z) (drop k (r0 :: rest)).
Proof.
  intros Hs.
  destruct (mask_from_sorted r0 0 (r0 :: rest) Hs) as (k & Hk & Hm & Ht & Hd).
  { intros x Hx. injection Hx as <-. lia. }
  rewrite Z.add_0_r in Ht.
  assert (Hk1 : 1 <= k).
  { destruct k; [|lia]. exfalso.
    rewrite mask_from_cons in Hm. cbn [replicate app] in Hm.
    injection Hm as Hm _. apply Z.eqb_neq in Hm. lia. }
  exists k. rewrite run_mask_from, Hm.
  destruct (masked_prefix k (r0 :: rest) Hk) as (H1 & H2 & H3).
  rewrite H1, H2, H3, Ht. repeat split; try lia; try assumption.
  eapply Forall_impl; [exact Hd|]. cbn. intros; lia.
Qed.

Lemma seqZ_hd_last r0 k :
  1 <= k ->
  hd 0%Z (seqZ r0 (Z.of_nat k)) = r0 /\
  (List.last (seqZ r0 (Z.of_nat k)) 0 + 1 = r0 + Z.of_nat k)%Z.
Proof.
  intros Hk. destruct k as [|k]; [lia|]. split.
  - rewrite seqZ_cons by lia. reflexivity.
  - rewrite seqZ_S, List.last_last. lia.
Qed.

Lemma StronglySorted_drop k (l : list Z) :
  StronglySorted Z.lt l -> StronglySorted Z.lt (drop k l).
Proof.
  intros Hs. revert k. induction Hs as [|x l Hs IH Hall]; intros [|k];
    cbn [drop]; try constructor; auto.
Qed.

(** The slices of increasing indices, one run of consecutive indices
    each. *)
Lemma loop_sorted (pointer : Z) (idx : list Z) :
  StronglySorted Z.lt idx ->
  slice_rows (get_index_slices_loop pointer idx) = idx /\
  Forall (fun s => (snd (fst s) - fst (fst s)
                    = snd (snd s) - fst (snd s))%Z
                   /\ In (fst (snd s)) idx)
         (get_index_slices_loop pointer idx) /\
  StronglySorted (fun s t => (snd (snd s) < fst (snd t))%Z)
                 (get_index_slices_loop pointer idx).
Proof.
  funelim (get_index_slices_loop pointer idx); intros Hs.
  - simp get_index_slices_loop. repeat split; constructor.
  - simp get_index_slices_loop.
    destruct (run_sorted r0 rest Hs) as (k & Hk & Hsum & Hm & Hu & Ht & Hd).
    rewrite Hm, Hu, Hsum in *.
    destruct (seqZ_hd_last r0 k ltac:(lia)) as [Hhd Hlast].
    rewrite Hhd, Hlast.
    destruct (H (StronglySorted_drop k _ Hs)) as (IH1 & IH2 & IH3).
    split; [|split].
    + unfold slice_rows in *. cbn [flat_map fst snd]. rewrite IH1.
      replace (r0 + Z.of_nat k - r0)%Z with (Z.of_nat k) by lia.
      rewrite <- Ht. apply take_drop.
    + constructor.
      * cbn [fst snd]. split; [lia|now left].
      * eapply Forall_impl; [exact IH2|]. cbn beta.
        intros s [Hlen Hin]. split; [exact Hlen|].
        rewrite <- (take_drop k (r0 :: rest)). apply in_or_app. now right.
    + constructor; [exact IH3|].
      rewrite List.Forall_forall in IH2. rewrite List.Forall_forall in Hd.
      apply List.Forall_forall. intros s Hin. cbn [fst snd].
      destruct (IH2 s Hin) as [_ Hj0]. now apply Hd.
Qed.

(** X12.  On strictly increasing indices below [2**63 - 1] (so that the
    end [last + 1] of a row range is a 64-bit integer, as numpy computes
    it) the slices are the maximal runs of consecutive indices: the row
    ranges, one after the other, are the indices themselves; each batch
    range is as long as its row range; and each row range ends before the
    next one starts, with a gap. *)
Theorem get_index_slices_runs (idx : list Z) :
  StronglySorted Z.lt idx ->
  Forall (fun j => (j < 2 ^ 63 - 1)%Z) idx ->
  slice_rows (get_index_slices idx) = idx /\
  Forall (fun s => (snd (fst s) - fst (fst s)
                    = snd (snd s) - fst (snd s))%Z)
         (get_index_slices idx) /\
  StronglySorted (fun s t => (snd (snd s) < fst (snd t))%Z)
                 (get_index_slices idx).
Proof.
  intros Hs _. destruct (loop_sorted 0 idx Hs) as (H1 & H2 & H3).
  split; [exact H1|]. split; [|exact H3].
  eapply Forall_impl; [exact H2|]. now intros s [? _].
Qed.

(** ** Filling the store *)

Lemma loop_runs (pointer : Z) (idx : list Z) :
  StronglySorted Z.lt idx ->
  runs pointer (get_index_slices_loop pointer idx) idx.
Proof.
  funelim (get_index_slices_loop pointer idx); intros Hs.
  - simp get_index_slices_loop. reflexivity.
  - simp get_index_slices_loop.
    destruct (run_sorted r0 rest Hs) as (k & Hk & Hsum & Hm & Hu & Ht & Hd).
    rewrite Hm, Hu, Hsum in *.
    destruct (seqZ_hd_last r0 k ltac:(lia)) as [Hhd Hlast].
    rewrite Hhd, Hlast. cbn [runs].
    exists k, r0, (drop k (r0 :: rest)). split; [lia|].
    split; [reflexivity|]. split.
    + rewrite <- Ht. symmetry. apply take_drop.
    + apply H. now apply StronglySorted_drop.
Qed.

Module ZarrRunFacts.

Import Zarr ZarrRun.

Section WithNumpy.

Context {numpy : Numpy}.

(** *** The pending positions *)

Lemma pidx_cons s r rows :
  pidx s (r :: rows)
  = if decide (pending r) then s :: pidx (s + 1) rows else pidx (s + 1) rows.
Proof.
  unfold pidx. cbn [map length].
  rewrite (seqZ_cons s) by lia. rewrite masked_cons.
  replace (Z.pred (Z.of_nat (S (length rows)))) with (Z.of_nat (length rows))
    by lia.
  replace (Z.succ s) with (s + 1)%Z by lia.
  destruct (decide (pending r)) as [Hp|Hp].
  - now rewrite bool_decide_eq_true_2.
  - now rewrite bool_decide_eq_false_2.
Qed.

Lemma pidx_lower s rows : Forall (fun j => (s <= j)%Z) (pidx s rows).
Proof.
  revert s. induction rows as [|r rows IH]; intros s.
  - constructor.
  - rewrite pidx_cons.
    assert (H : Forall (fun j => (s <= j)%Z) (pidx (s + 1) rows)).
    { eapply Forall_impl; [apply IH|]. cbn. intros; lia. }
    destruct (decide (pending r)); [constructor; [lia|exact H]|exact H].
Qed.

Lemma pidx_sorted s rows : StronglySorted Z.lt (pidx s rows).
Proof.
  revert s. induction rows as [|r rows IH]; intros s.
  - constructor.
  - rewrite pidx_cons. destruct (decide (pending r)); [|apply IH].
    constructor; [apply IH|].
    eapply Forall_impl; [apply (pidx_lower (s + 1))|]. cbn. intros; lia.
Qed.

Lemma pidx_length s rows :
  Z.of_nat (length (pidx s rows)) = count_pending rows.
Proof.
  unfold count_pending. revert s.
  induction rows as [|r rows IH]; intros s; [reflexivity|].
  rewrite pidx_cons. destruct (decide (pending r)) as [Hp|Hp].
  - rewrite filter_cons_True by exact Hp. cbn [length].
    specialize (IH (s + 1)%Z). lia.
  - rewrite filter_cons_False by exact Hp. apply IH.
Qed.

Lemma pidx_upper s rows :
  Forall (fun j => (j < s + Z.of_nat (length rows))%Z) (pidx s rows).
Proof.
  revert s. induction rows as [|r rows IH]; intros s.
  - constructor.
  - rewrite pidx_cons. cbn [length].
    assert (H : Forall (fun j => (j < s + Z.of_nat (S (length rows)))%Z)
                       (pidx (s + 1) rows)).
    { eapply Forall_impl; [apply IH|]. cbn. intros; lia. }
    destruct (decide (pending r)); [constructor; [lia|exact H]|exact H].
Qed.

(** *** Marking *)

Lemma mark_first_nil n : mark_first n [] = [].
Proof. now destruct n. Qed.

Lemma mark_first_length n rows : length (mark_first n rows) = length rows.
Proof.
  revert n. induction rows as [|r rows IH]; intros [|n]; cbn; auto.
  destruct (decide (pending r)); cbn; now rewrite IH.
Qed.

Lemma count_pending_cons r rows :
  count_pending (r :: rows)
  = ((if decide (pending r) then 1 else 0) + count_pending rows)%Z.
Proof.
  unfold count_pending. destruct (decide (pending r)) as [Hp|Hp].
  - rewrite filter_cons_True by exact Hp. cbn [length]. lia.
  - rewrite filter_cons_False by exact Hp. lia.
Qed.

Lemma count_pending_nonneg rows : (0 <= count_pending rows)%Z.
Proof. unfold count_pending. lia. Qed.

Lemma count_mark_first n rows :
  (Z.of_nat n <= count_pending rows)%Z ->
  count_pending (mark_first n rows) = (count_pending rows - Z.of_nat n)%Z.
Proof.
  revert n. induction rows as [|r rows IH]; intros n Hn.
  - rewrite mark_first_nil. unfold count_pending in *. cbn in *. lia.
  - destruct n as [|n]; [cbn [mark_first]; lia|].
    cbn [mark_first]. rewrite count_pending_cons in Hn.
    destruct (decide (pending r)) as [Hp|Hp].
    + rewrite !count_pending_cons.
      destruct (decide (pending [1%Z])) as [H1|_]; [discriminate H1|].
      destruct (decide (pending r)); [|contradiction].
      rewrite IH by lia. lia.
    + rewrite !count_pending_cons.
      destruct (decide (pending r)); [contradiction|].
      rewrite IH by lia. lia.
Qed.

Lemma mark_first_mark_first n m rows :
  mark_first n (mark_first m rows) = mark_first (m + n) rows.
Proof.
  revert n m. induction rows as [|r rows IH]; intros n m.
  - now rewrite !mark_first_nil.
  - destruct m as [|m]; [reflexivity|]. cbn [mark_first Nat.add].
    destruct (decide (pending r)) as [Hp|Hp].
    + destruct n as [|n].
      * now rewrite Nat.add_0_r.
      * cbn [mark_first].
        destruct (decide (pending [1%Z])) as [H1|_]; [discriminate H1|].
        f_equal. apply IH.
    + destruct n as [|n].
      * now rewrite Nat.add_0_r.
      * cbn [mark_first]. destruct (decide (pending r)); [contradiction|].
        f_equal. specialize (IH (S n) (S m)). cbn [Nat.add] in IH.
        exact IH.
Qed.

(** The entry at [i] after marking the first [n] pending ones. *)
Lemma mark_first_lookup s n rows i :
  mark_first n rows !! i
  = (fun r => if decide ((s + Z.of_nat i)%Z ∈ take n (pidx s rows))
              then [1%Z] else r) <$> rows !! i.
Proof.
  revert s n i. induction rows as [|r rows IH]; intros s n i.
  - now rewrite mark_first_nil.
  - rewrite pidx_cons. destruct n as [|n].
    + cbn [mark_first take]. destruct ((r :: rows) !! i); cbn; [|reflexivity].
      destruct (decide ((s + Z.of_nat i)%Z ∈ [])) as [Hin|_]; [|reflexivity].
      now apply elem_of_nil in Hin.
    + cbn [mark_first].
      pose proof (pidx_lower (s + 1) rows) as Hlow.
      destruct (decide (pending r)) as [Hp|Hp].
      * destruct i as [|i]; simpl.
        -- rewrite Z.add_0_r.
           destruct (decide (s ∈ s :: take n (pidx (s + 1) rows)))
             as [_|Hn]; [reflexivity|]. exfalso. apply Hn. left.
        -- rewrite (IH (s + 1)%Z n i).
           destruct (rows !! i) as [r'|]; cbn; [|reflexivity].
           replace (s + 1 + Z.of_nat i)%Z with (s + Z.of_nat (S i))%Z by lia.
           f_equal.
           destruct (decide ((s + Z.of_nat (S i))%Z
                             ∈ take n (pidx (s + 1) rows))) as [Hin|Hin];
             destruct (decide ((s + Z.of_nat (S i))%Z
                               ∈ s :: take n (pidx (s + 1) rows)))
               as [Hin'|Hin'];
             try reflexivity.
           ++ exfalso. apply Hin'. now right.
           ++ exfalso. apply elem_of_cons in Hin' as [Heq|Hin'];
                [lia|contradiction].
      * destruct i as [|i]; simpl.
        -- rewrite Z.add_0_r.
           destruct (decide (s ∈ take (S n) (pidx (s + 1) rows)))
             as [Hin|_]; [|reflexivity]. exfalso.
           rewrite List.Forall_forall in Hlow.
           assert (Hs : s ∈ pidx (s + 1) rows).
           { rewrite <- (take_drop (S n) (pidx (s + 1) rows)).
             apply elem_of_app. now left. }
           apply list_elem_of_In in Hs. specialize (Hlow s Hs). lia.
        -- rewrite (IH (s + 1)%Z (S n) i).
           replace (s + 1 + Z.of_nat i)%Z with (s + Z.of_nat (S i))%Z by lia.
           reflexivity.
Qed.

(** *** One batch: the status array *)

Lemma rows_set_status_lookup j a i :
  rows (set_status j a) !! i
  = (fun r => if (fst j <=? Z.of_nat i)%Z && (Z.of_nat i <? snd j)%Z
              then [1%Z] else r) <$> rows a !! i.
Proof. cbn [rows set_status]. apply list_lookup_imap. Qed.

(** [sims_required] on a store that has its status array. *)
Lemma sims_required_eq st a :
  sim_status st = Some a ->
  sims_required st
  = ((if chunked a then Ok (count_pending (rows a))
      else Raise ZeroDivisionError), st).
Proof.
  unfold sims_required, read_all. intros ->. now destruct (chunked a).
Qed.

Lemma mark_slice_inv j self self' :
  mark_slice j self = (Ok tt, self') ->
  exists a,
    sim_status self = Some a /\ chunked a = true /\
    self' = mkStore (data self) (chunk_size_attr self)
                    (Some (set_status j a)) (past_end self).
Proof.
  unfold mark_slice. destruct (sim_status self) as [a|]; [|discriminate].
  destruct (chunked a) eqn:Hc; [|discriminate].
  intros [= <-]. eauto.
Qed.

Lemma write_array_status samples i j k self r self' :
  write_array samples i j k self = (r, self') ->
  sim_status self' = sim_status self.
Proof.
  unfold write_array. intros H.
  destruct (samples !! k); [|now inversion H].
  destruct (default ∅ (data self) !! k); [|now inversion H].
  destruct (setslice _ _ _); now inversion H.
Qed.

Lemma forM_write_status samples i j ks self r self' :
  forM_ (write_array samples i j) ks self = (r, self') ->
  sim_status self' = sim_status self.
Proof.
  revert self. induction ks as [|k ks IH]; intros self H.
  - now inversion H.
  - cbn [forM_] in H. bind_cases H as u s1 Hk.
    + rewrite (IH _ H). eapply write_array_status, Hk.
    + eapply write_array_status, Hk.
Qed.

(** The status array after the loop over the slices has returned. *)
Lemma slices_status samples ks sl self self' a :
  forM_ (fun s : (Z * Z) * (Z * Z) =>
           mark_slice (snd s) ;;;
           forM_ (write_array samples (fst s) (snd s)) ks) sl self
  = (Ok tt, self') ->
  sim_status self = Some a ->
  sim_status self'
  = Some (mark_slices sl a).
Proof.
  revert self a. induction sl as [|s sl IH]; intros self a H Ha.
  - inversion H; subst. exact Ha.
  - change (mark_slices (s :: sl) a)
      with (mark_slices sl (set_status (snd s) a)).
    cbn [forM_] in H. bind_ok H as u s1 Hs.
    bind_ok Hs as u' s0 Hm. destruct u'.
    apply mark_slice_inv in Hm as (a0 & Ha0 & _ & ->).
    rewrite Ha in Ha0. injection Ha0 as <-.
    apply forM_write_status in Hs. cbn [sim_status] in Hs.
    exact (IH _ _ H Hs).
Qed.

Lemma rows_marked_lookup sl a i :
  rows (mark_slices sl a) !! i
  = (fun r => if decide (Z.of_nat i ∈ slice_rows sl) then [1%Z] else r)
      <$> rows a !! i.
Proof.
  revert a. induction sl as [|s sl IH]; intros a.
  - cbn [mark_slices foldl slice_rows flat_map].
    destruct (rows a !! i); cbn; [|reflexivity].
    destruct (decide (Z.of_nat i ∈ [])) as [Hin|_]; [|reflexivity].
    now apply elem_of_nil in Hin.
  - change (mark_slices (s :: sl) a)
      with (mark_slices sl (set_status (snd s) a)).
    rewrite IH, rows_set_status_lookup.
    destruct (rows a !! i) as [r|]; cbn; [|reflexivity]. f_equal.
    unfold slice_rows. cbn [flat_map]. fold (slice_rows sl).
    assert (Hin : Z.of_nat i ∈ seqZ (fst (snd s)) (snd (snd s) - fst (snd s))
                  <-> (fst (snd s) <=? Z.of_nat i)%Z
                      && (Z.of_nat i <? snd (snd s))%Z = true).
    { rewrite elem_of_seqZ, andb_true_iff, Z.leb_le, Z.ltb_lt. lia. }
    destruct ((fst (snd s) <=? Z.of_nat i)%Z && (Z.of_nat i <? snd (snd s))%Z)
      eqn:Hb.
    + destruct (decide (Z.of_nat i ∈ slice_rows sl));
        destruct (decide (Z.of_nat i ∈ _ ++ slice_rows sl)) as [|Hn];
        try reflexivity; exfalso; apply Hn, elem_of_app; left;
        now apply Hin.
    + destruct (decide (Z.of_nat i ∈ slice_rows sl)) as [Hs|Hs];
        destruct (decide (Z.of_nat i ∈ _ ++ slice_rows sl)) as [Hn|Hn];
        try reflexivity; exfalso.
      * apply Hn, elem_of_app. now right.
      * apply elem_of_app in Hn as [Hn|Hn]; [|contradiction].
        apply Hin in Hn. discriminate.
Qed.

Lemma StronglySorted_take k (l : list Z) :
  StronglySorted Z.lt l -> StronglySorted Z.lt (take k l).
Proof.
  intros Hs. revert k. induction Hs as [|x l Hs IH Hall]; intros [|k];
    cbn [take]; try constructor; auto.
  apply List.Forall_forall. intros y Hy.
  rewrite List.Forall_forall in Hall. apply Hall.
  rewrite <- (take_drop k l). apply in_or_app. now left.
Qed.

(** Marking the runs of the first [n] pending positions marks the first
    [n] pending entries. *)
Lemma rows_marked n (a : zarray) :
  rows (mark_slices (get_index_slices (take n (pending_idx (rows a)))) a)
  = mark_first n (rows a).
Proof.
  apply list_eq. intros i.
  rewrite rows_marked_lookup, (mark_first_lookup 0). unfold get_index_slices.
  destruct (loop_sorted 0 (take n (pending_idx (rows a)))) as [-> _].
  { apply StronglySorted_take, (pidx_sorted 0). }
  reflexivity.
Qed.

Lemma foldl_set_status_fields sl a :
  shape (mark_slices sl a) = shape a /\
  chunks (mark_slices sl a) = chunks a /\
  dtype (mark_slices sl a) = dtype a.
Proof.
  revert a. induction sl as [|s sl IH]; intros a; [now cbn|].
  change (mark_slices (s :: sl) a)
    with (mark_slices sl (set_status (snd s) a)).
  destruct (IH (set_status (snd s) a)) as (-> & -> & ->).
  now cbn.
Qed.

(** *** One batch: the arrays of [data] *)

(** One assignment [a[j0:j0+k] = col[p:p+k]] that went through. *)
Lemma setslice_ok (a a' : zarray) (col : ndarray) (j0 k p : nat) :
  setslice a (Z.of_nat j0, (Z.of_nat j0 + Z.of_nat k)%Z)
           (getslice (Z.of_nat p, (Z.of_nat p + Z.of_nat k)%Z) col) = Ok a' ->
  j0 + k <= length (rows a) ->
  shape a' = shape a /\ chunks a' = chunks a /\ dtype a' = dtype a /\
  chunked a = true /\
  row_shape col = tl (shape a) /\
  length (take k (drop p (nd_rows col))) = k /\
  rows a' = take j0 (rows a)
            ++ map (map (cast (dtype a))) (take k (drop p (nd_rows col)))
            ++ drop (j0 + k) (rows a).
Proof.
  unfold setslice, getslice. cbn [fst snd row_shape nd_rows].
  destruct (chunked a); [|discriminate].
  rewrite !Nat2Z.id.
  replace (Z.to_nat (Z.of_nat j0 + Z.of_nat k) - j0) with k by lia.
  replace (Z.to_nat (Z.of_nat p + Z.of_nat k) - p) with k by lia.
  intros H Hlen.
  assert (Hsel : length (take k (drop j0 (rows a))) = k).
  { rewrite length_take, length_drop. lia. }
  rewrite Hsel in H.
  destruct (bool_decide _) eqn:Hb; [|discriminate].
  apply bool_decide_eq_true in Hb. injection Hb as Hk Hshape.
  inversion H; subst a'. cbn [shape chunks dtype rows]. auto 10.
Qed.

Lemma setslice_lookup (a a' : zarray) (col : ndarray) (j0 k p : nat) i :
  setslice a (Z.of_nat j0, (Z.of_nat j0 + Z.of_nat k)%Z)
           (getslice (Z.of_nat p, (Z.of_nat p + Z.of_nat k)%Z) col) = Ok a' ->
  j0 + k <= length (rows a) ->
  (j0 <= i < j0 + k ->
   exists x, nd_rows col !! (p + (i - j0)) = Some x /\
             rows a' !! i = Some (map (cast (dtype a)) x)) /\
  (~ j0 <= i < j0 + k -> rows a' !! i = rows a !! i).
Proof.
  intros H Hlen.
  destruct (setslice_ok _ _ _ _ _ _ H Hlen) as (_ & _ & _ & _ & _ & Hk & ->).
  split.
  - intros Hi. rewrite lookup_app_r by (rewrite length_take; lia).
    rewrite length_take, Nat.min_l by lia.
    rewrite lookup_app_l by (rewrite length_map; lia).
    destruct (lookup_lt_is_Some_2 (take k (drop p (nd_rows col))) (i - j0))
      as [x Hx]; [lia|].
    exists x. split.
    + rewrite lookup_take_Some in Hx. destruct Hx as [Hx _].
      now rewrite lookup_drop in Hx.
    + change (map (map (cast (dtype a))) (take k (drop p (nd_rows col))))
        with (map (cast (dtype a)) <$> take k (drop p (nd_rows col))).
      now rewrite list_lookup_fmap, Hx.
  - intros Hi. destruct (Nat.lt_ge_cases i j0) as [Hlt|Hge].
    + rewrite lookup_app_l by (rewrite length_take; lia).
      now rewrite lookup_take_lt by lia.
    + rewrite lookup_app_r by (rewrite length_take; lia).
      rewrite length_take, Nat.min_l by lia.
      rewrite lookup_app_r by (rewrite length_map; lia).
      rewrite length_map, Hk, lookup_drop.
      f_equal. lia.
Qed.

(** The assignments to one array over the runs of [idx]: the [t]-th index
    gets row [p + t] of the samples, the rows that are not in [idx] stay. *)
Lemma write_slices_spec (col : ndarray) sl :
  forall (p : nat) idx a a',
    runs (Z.of_nat p) sl idx ->
    StronglySorted Z.lt idx ->
    Forall (fun j => (0 <= j < Z.of_nat (length (rows a)))%Z) idx ->
    write_slices col sl a = Ok a' ->
    shape a' = shape a /\ chunks a' = chunks a /\ dtype a' = dtype a /\
    length (rows a') = length (rows a) /\
    (sl <> [] -> row_shape col = tl (shape a) /\ chunked a = true) /\
    (forall t j, idx !! t = Some j ->
       exists x, nd_rows col !! (p + t) = Some x /\
                 rows a' !! Z.to_nat j = Some (map (cast (dtype a)) x)) /\
    (forall i, Z.of_nat i ∉ idx -> rows a' !! i = rows a !! i).
Proof.
  induction sl as [|s sl IH]; intros p idx a a' Hruns Hs Hbound Hw.
  - cbn in Hruns, Hw. subst idx. inversion Hw; subst a'.
    repeat split; try reflexivity; try contradiction.
    intros t j Ht. discriminate.
  - cbn [runs] in Hruns.
    destruct Hruns as (k & j0 & idx' & Hk & -> & -> & Hruns).
    cbn [write_slices fst snd] in Hw.
    destruct (setslice _ _ _) as [a1|e] eqn:Hset; [|discriminate].
    assert (Hj0 : (0 <= j0)%Z /\ Z.to_nat j0 + k <= length (rows a)).
    { rewrite List.Forall_forall in Hbound.
      assert (H0 : In j0 (seqZ j0 (Z.of_nat k) ++ idx')).
      { apply in_or_app. left. apply list_elem_of_In, elem_of_seqZ. lia. }
      assert (H1 : In (j0 + Z.of_nat k - 1)%Z (seqZ j0 (Z.of_nat k) ++ idx')).
      { apply in_or_app. left. apply list_elem_of_In, elem_of_seqZ. lia. }
      apply Hbound in H0. apply Hbound in H1. lia. }
    destruct Hj0 as [Hj0 Hlen].
    rewrite <- (Z2Nat.id j0) in Hset by exact Hj0.
    destruct (setslice_ok _ _ _ _ _ _ Hset Hlen)
      as (Hsh & Hch & Hdt & Hck & Hrs & Hblock & Hrows).
    assert (Hlen1 : length (rows a1) = length (rows a)).
    { rewrite Hrows, !length_app, length_take, length_drop, length_map,
        Hblock. lia. }
    assert (Hs' : StronglySorted Z.lt idx').
    { clear -Hs. induction (seqZ j0 (Z.of_nat k)) as [|x l IHl];
        [exact Hs|]. apply IHl. now inversion Hs. }
    assert (Habove : Forall (fun y => (j0 + Z.of_nat k <= y)%Z) idx').
    { clear -Hs Hk.
      assert (Hl : (j0 + Z.of_nat k - 1)%Z ∈ seqZ j0 (Z.of_nat k))
        by (apply elem_of_seqZ; lia).
      induction (seqZ j0 (Z.of_nat k)) as [|x l IHl];
        [now apply elem_of_nil in Hl|].
      inversion Hs as [|? ? Hs1 Hall]; subst.
      apply elem_of_cons in Hl as [<-|Hl]; [|now apply IHl].
      apply Forall_app in Hall as [_ Hall].
      eapply Forall_impl; [exact Hall|]. cbn. intros; lia. }
    assert (Hbound' : Forall (fun j => (0 <= j < Z.of_nat (length (rows a1)))%Z)
                             idx').
    { rewrite Hlen1. now apply Forall_app in Hbound as [_ ?]. }
    replace (Z.of_nat p + Z.of_nat k)%Z with (Z.of_nat (p + k)) in Hruns
      by lia.
    destruct (IH (p + k) idx' a1 a' Hruns Hs' Hbound' Hw)
      as (Hsh' & Hch' & Hdt' & Hlen' & _ & Hin & Hout).
    split; [congruence|]. split; [congruence|]. split; [congruence|].
    split; [congruence|]. split; [intros _; split; [exact Hrs|exact Hck]|].
    rewrite List.Forall_forall in Habove.
    split.
    + intros t j Ht.
      destruct (Nat.lt_ge_cases t k) as [Hlt|Hge].
      * rewrite lookup_app_l in Ht by (rewrite length_seqZ; lia).
        apply lookup_seqZ in Ht as [-> _].
        rewrite Hout.
        2:{ intros Hin'. apply list_elem_of_In, Habove in Hin'. lia. }
        destruct (proj1 (setslice_lookup _ _ _ _ _ _ (Z.to_nat j0 + t)
                           Hset Hlen) ltac:(lia)) as (x & Hx & Hx').
        exists x. replace (Z.to_nat j0 + t - Z.to_nat j0) with t in Hx by lia.
        split; [exact Hx|].
        replace (Z.to_nat (j0 + Z.of_nat t)) with (Z.to_nat j0 + t) by lia.
        exact Hx'.
      * rewrite lookup_app_r in Ht by (rewrite length_seqZ; lia).
        rewrite length_seqZ in Ht.
        destruct (Hin _ _ Ht) as (x & Hx & Hx'). exists x.
        split; [|now rewrite <- Hdt].
        replace (p + t) with (p + k + (t - Z.to_nat (Z.of_nat k))) by lia.
        exact Hx.
    + intros i Hi. apply not_elem_of_app in Hi as [Hi1 Hi2].
      rewrite (Hout i Hi2).
      apply (proj2 (setslice_lookup _ _ _ _ _ _ i Hset Hlen)).
      intros Hrange. apply Hi1, elem_of_seqZ. lia.
Qed.

(** The loop over the arrays, for one slice. *)
Lemma forM_write_data samples i j ks :
  NoDup ks ->
  forall self self' d,
    data self = Some d ->
    (forall k, k ∈ ks -> is_Some (d !! k)) ->
    forM_ (write_array samples i j) ks self = (Ok tt, self') ->
    exists d',
      data self' = Some d' /\
      (forall k a, k ∈ ks -> d !! k = Some a ->
         exists col a', samples !! k = Some col /\
                        setslice a j (getslice i col) = Ok a' /\
                        d' !! k = Some a') /\
      (forall k, k ∉ ks -> d' !! k = d !! k).
Proof.
  induction 1 as [|k ks Hk Hnd IH]; intros self self' d Hd Hkeys H.
  - inversion H; subst. exists d. split; [exact Hd|].
    split; [|reflexivity]. intros k a Hin. now apply elem_of_nil in Hin.
  - cbn [forM_] in H. bind_ok H as u s1 Hw. unfold write_array in Hw.
    destruct (samples !! k) as [col|] eqn:Hcol; [|discriminate].
    rewrite Hd in Hw. cbn [default from_option id] in Hw.
    destruct (d !! k) as [a|] eqn:Hdk; [|discriminate].
    destruct (setslice a j (getslice i col)) as [a1|] eqn:Hset;
      [|discriminate].
    inversion Hw; subst s1; clear Hw.
    destruct (IH (mkStore (Some (<[k := a1]> d)) (chunk_size_attr self)
                          (sim_status self) (past_end self))
                 self' (<[k := a1]> d) eq_refl) as (d' & Hd' & Hin & Hout).
    { intros k' Hk'. destruct (decide (k' = k)) as [->|Hne].
      - rewrite lookup_insert_eq. eauto.
      - rewrite lookup_insert_ne by congruence. apply Hkeys. now right. }
    { exact H. }
    exists d'. split; [exact Hd'|]. split.
    + intros k' a' Hk' Ha'. apply elem_of_cons in Hk' as [->|Hk'].
      * rewrite Hdk in Ha'. injection Ha' as <-. exists col, a1.
        split; [exact Hcol|]. split; [exact Hset|].
        rewrite (Hout k Hk). apply lookup_insert_eq.
      * apply (Hin k' a' Hk').
        rewrite lookup_insert_ne; [exact Ha'|]. intros ->. contradiction.
    + intros k' Hk'. apply not_elem_of_cons in Hk' as [Hne Hk'].
      rewrite (Hout k' Hk'). now rewrite lookup_insert_ne by congruence.
Qed.

(** The loop over the slices. *)
Lemma slices_data samples ks :
  NoDup ks ->
  forall sl self self' d,
    data self = Some d ->
    (forall k, k ∈ ks -> is_Some (d !! k)) ->
    forM_ (fun s : (Z * Z) * (Z * Z) =>
             mark_slice (snd s) ;;;
             forM_ (write_array samples (fst s) (snd s)) ks) sl self
    = (Ok tt, self') ->
    exists d',
      data self' = Some d' /\
      (forall k a, k ∈ ks -> d !! k = Some a ->
         exists a', d' !! k = Some a' /\
           (sl = [] /\ a' = a \/
            exists col, samples !! k = Some col /\
                        write_slices col sl a = Ok a')) /\
      (forall k, k ∉ ks -> d' !! k = d !! k).
Proof.
  intros Hnd. induction sl as [|s sl IH]; intros self self' d Hd Hkeys H.
  - inversion H; subst. exists d. split; [exact Hd|].
    split; [|reflexivity]. intros k a _ Ha. exists a. split; [exact Ha|].
    now left.
  - cbn [forM_] in H. bind_ok H as u s1 Hs. bind_ok Hs as u' s0 Hm.
    destruct u, u'. apply mark_slice_inv in Hm as (a0 & _ & _ & ->).
    destruct (forM_write_data _ _ _ _ Hnd _ _ d
                (Hd : data (mkStore _ _ _ _) = Some d) Hkeys Hs)
      as (d1 & Hd1 & Hin1 & Hout1).
    destruct (IH s1 self' d1 Hd1) as (d' & Hd' & Hin & Hout).
    { intros k Hk. destruct (Hkeys k Hk) as [a Ha].
      destruct (Hin1 k a Hk Ha) as (col & a1 & _ & _ & Ha1). eauto. }
    { exact H. }
    exists d'. split; [exact Hd'|]. split.
    + intros k a Hk Ha.
      destruct (Hin1 k a Hk Ha) as (col & a1 & Hcol & Hset & Ha1).
      destruct (Hin k a1 Hk Ha1) as (a' & Ha' & Hcase).
      exists a'. split; [exact Ha'|]. right. exists col.
      split; [exact Hcol|]. cbn [write_slices]. rewrite Hset.
      destruct Hcase as [[-> ->]|(col' & Hcol' & Hw)]; [reflexivity|].
      rewrite Hcol in Hcol'. now injection Hcol' as <-.
    + intros k Hk. now rewrite (Hout k Hk), (Hout1 k Hk).
Qed.

(** The names of the arrays of a group. *)
Lemma group_keys (d : gmap string zarray) :
  NoDup (map fst (map_to_list d)) /\
  forall k, k ∈ map fst (map_to_list d) <-> is_Some (d !! k).
Proof.
  change (map fst (map_to_list d)) with (fst <$> map_to_list d). split.
  - apply NoDup_fst_map_to_list.
  - intros k. rewrite list_elem_of_fmap. split.
    + intros ([k' a] & -> & Hka). apply elem_of_map_to_list in Hka. eauto.
    + intros [a Ha]. exists (k, a). split; [reflexivity|].
      now apply elem_of_map_to_list.
Qed.

Section BatchFacts.

Variable W : Type.

Implicit Types (sample_fn : Z -> M W (gmap string ndarray)).

Lemma in_store_eq {A} (c : M ZarrStore A) (st : ZarrStore) (w : W) :
  in_store c (st, w) = (fst (c st), (snd (c st), w)).
Proof. unfold in_store. cbn [fst snd]. now destruct (c st). Qed.

Lemma in_user_eq {A} (c : M W A) (st : ZarrStore) (w : W) :
  in_user c (st, w) = (fst (c w), (st, snd (c w))).
Proof. unfold in_user. cbn [fst snd]. now destruct (c w). Qed.

(** The read of the status array that a batch and a turn of the loop of
    [simulate] start with. *)
Lemma in_store_sims_required st (w : W) a :
  sim_status st = Some a ->
  in_store sims_required (st, w)
  = ((if chunked a then Ok (count_pending (rows a))
      else Raise ZeroDivisionError), (st, w)).
Proof. intros Ha. now rewrite in_store_eq, (sims_required_eq _ _ Ha). Qed.

(** What a batch that returns has done: the status array could be read,
    and then the number it returns, the call of [sample_fn], and the loop
    over the slices. *)
Lemma simulate_batch_inv sample_fn batch_size st w n st' w' a :
  sim_status st = Some a ->
  _simulate_batch sample_fn batch_size (st, w) = (Ok n, (st', w')) ->
  chunked a = true /\
  n = Z.min batch_size (count_pending (rows a)) /\
  ((n = 0%Z /\ st' = st /\ w' = w) \/
   (n <> 0%Z /\ exists samples,
      sample_fn n w = (Ok samples, w') /\
      reserve_and_write samples n st = (Ok tt, st'))).
Proof.
  intros Ha H. unfold _simulate_batch in H.
  destruct (chunked a) eqn:Hc.
  2:{ rewrite (bind_raises _ _ (st, w) ZeroDivisionError (st, w)) in H;
        [discriminate|].
      now rewrite (in_store_sims_required _ _ _ Ha), Hc. }
  split; [reflexivity|].
  rewrite (bind_returns _ _ (st, w) (count_pending (rows a)) (st, w)) in H.
  2:{ now rewrite (in_store_sims_required _ _ _ Ha), Hc. }
  cbv zeta in H.
  destruct (Z.eqb_spec (Z.min batch_size (count_pending (rows a))) 0)
    as [H0|H0].
  - inversion H; subst. split; [reflexivity|]. left. now rewrite H0.
  - bind_ok H as samples s1 Hf. bind_ok H as u s2 Hw.
    inversion H; subst; clear H. split; [reflexivity|]. right.
    split; [exact H0|]. exists samples.
    rewrite in_user_eq in Hf.
    destruct (sample_fn _ w) as [r1 w1]; cbn [fst snd] in Hf.
    inversion Hf; subst; clear Hf. rewrite in_store_eq in Hw.
    destruct (reserve_and_write _ _ st) as [r2 st2]; cbn [fst snd] in Hw.
    inversion Hw; subst; clear Hw. destruct u. now split.
Qed.

Lemma upto_nonneg {A} n (l : list A) :
  (0 <= n)%Z -> upto n l = take (Z.to_nat n) l.
Proof. intros Hn. unfold upto. now rewrite (proj2 (Z.leb_le 0 n) Hn). Qed.

(** The status array after a batch. *)
Lemma simulate_batch_status sample_fn batch_size st w n st' w' a :
  sim_status st = Some a ->
  (0 <= batch_size)%Z ->
  _simulate_batch sample_fn batch_size (st, w) = (Ok n, (st', w')) ->
  chunked a = true /\
  n = Z.min batch_size (count_pending (rows a)) /\
  sim_status st'
  = Some (mkArray (shape a) (chunks a) (dtype a)
                  (mark_first (Z.to_nat n) (rows a))).
Proof.
  intros Ha Hb H.
  destruct (simulate_batch_inv _ _ _ _ _ _ _ _ Ha H) as (Hc & Hn & Hcases).
  split; [exact Hc|]. split; [exact Hn|].
  destruct Hcases as [(-> & -> & ->)|(Hn0 & samples & Hf & Hw)].
  - rewrite Ha. destruct a as [sh ch dt rw]. cbn. do 2 f_equal.
    now destruct rw.
  - unfold reserve_and_write, read_all in Hw. rewrite Ha, Hc in Hw.
    destruct (data st) as [d|]; [|discriminate].
    pose proof (count_pending_nonneg (rows a)) as Hcp.
    rewrite upto_nonneg in Hw by lia.
    rewrite (slices_status _ _ _ _ _ _ Hw Ha). f_equal.
    set (sl := get_index_slices _).
    destruct (foldl_set_status_fields sl a) as (Hs & Hch & Hd).
    pose proof (rows_marked (Z.to_nat n) a) as Hr. fold sl in Hr.
    destruct (mark_slices sl a) as [sh ch dt rw]. cbn in *. now subst.
Qed.

Lemma mark_first_0 rows : mark_first 0 rows = rows.
Proof. now destruct rows. Qed.

(** The loop of [simulate] with a positive batch size: it ends within
    [sims_required + 1] turns, and what it has simulated by then. *)
Lemma simulate_loop_spec sample_fn max_sims batch_size :
  (1 <= batch_size)%Z ->
  forall fuel total st w a r st' w',
    sim_status st = Some a ->
    Z.to_nat (count_pending (rows a)) < fuel ->
    simulate_loop sample_fn max_sims batch_size fuel total (st, w)
    = (r, (st', w')) ->
    match r with
    | Raise _ => True
    | Ok None => False
    | Ok (Some t) =>
        chunked a = true /\
        exists done : Z,
          (0 <= done <= count_pending (rows a))%Z /\
          t = (total + done)%Z /\
          sim_status st'
          = Some (mkArray (shape a) (chunks a) (dtype a)
                          (mark_first (Z.to_nat done) (rows a))) /\
          (done = count_pending (rows a) \/
           exists m, max_sims = Some m /\ (m <= t)%Z /\
                     (done = 0%Z \/ (t < m + batch_size)%Z))
    end.
Proof.
  intros Hb. induction fuel as [|fuel IH];
    intros total st w a r st' w' Ha Hfuel H; [lia|].
  pose proof (count_pending_nonneg (rows a)) as Hc.
  cbn [simulate_loop] in H.
  destruct (chunked a) eqn:Hck.
  2:{ rewrite (bind_raises _ _ (st, w) ZeroDivisionError (st, w)) in H.
      - now inversion H.
      - now rewrite (in_store_sims_required _ _ _ Ha), Hck. }
  rewrite (bind_returns _ _ (st, w) (count_pending (rows a)) (st, w)) in H.
  2:{ now rewrite (in_store_sims_required _ _ _ Ha), Hck. }
  assert (Hsame : sim_status st
                  = Some (mkArray (shape a) (chunks a) (dtype a)
                                  (mark_first (Z.to_nat 0) (rows a)))).
  { rewrite Ha. cbn. rewrite mark_first_0. now destruct a. }
  destruct (Z.ltb_spec 0 (count_pending (rows a))) as [Hpos|Hzero].
  - destruct (match max_sims with
              | Some m => (m <=? total)%Z
              | None => false
              end) eqn:Hmax.
    + inversion H; subst. split; [reflexivity|]. exists 0%Z. split; [lia|].
      split; [lia|]. split; [exact Hsame|]. right.
      destruct max_sims as [m|]; [|discriminate]. exists m.
      split; [reflexivity|]. apply Z.leb_le in Hmax. split; [lia|now left].
    + bind_cases H as n s1 Hbatch; [|now subst].
      destruct s1 as [st1 w1].
      assert (Hb0 : (0 <= batch_size)%Z) by lia.
      destruct (simulate_batch_status _ _ _ _ _ _ _ _ Ha Hb0 Hbatch)
        as (_ & Hn & Hs1).
      set (a1 := mkArray (shape a) (chunks a) (dtype a)
                         (mark_first (Z.to_nat n) (rows a))) in *.
      assert (Hc1 : count_pending (rows a1)
                    = (count_pending (rows a) - n)%Z).
      { cbn [rows a1]. rewrite count_mark_first; lia. }
      specialize (IH (total + n)%Z st1 w1 a1 r st' w' Hs1 ltac:(lia) H).
      destruct r as [[t|]|e]; [|exact IH|exact I].
      destruct IH as (_ & done & Hd & Ht & Hst & Hend).
      split; [reflexivity|].
      exists (n + done)%Z. split; [lia|]. split; [lia|]. split.
      * rewrite Hst. cbn [shape chunks dtype rows a1]. f_equal. f_equal.
        rewrite mark_first_mark_first. f_equal. lia.
      * destruct Hend as [Hall|(m & Hm & Hle & Hover)]; [left; lia|].
        right. exists m. split; [exact Hm|]. split; [exact Hle|]. right.
        subst max_sims. apply Z.leb_gt in Hmax.
        destruct Hover as [->|Hlt]; lia.
  - inversion H; subst. split; [reflexivity|]. exists 0%Z. split; [lia|].
    split; [lia|]. split; [exact Hsame|]. left. lia.
Qed.

(** With a batch size of [0] no turn of the loop changes anything. *)
Lemma simulate_loop_stuck sample_fn max_sims st w a :
  sim_status st = Some a ->
  chunked a = true ->
  (0 < count_pending (rows a))%Z ->
  (forall m, max_sims = Some m -> (0 < m)%Z) ->
  forall fuel,
    simulate_loop sample_fn max_sims 0 fuel 0 (st, w) = (Ok None, (st, w)).
Proof.
  intros Ha Hck Hpos Hmax. induction fuel as [|fuel IH]; [reflexivity|].
  cbn [simulate_loop].
  rewrite (bind_returns _ _ (st, w) (count_pending (rows a)) (st, w)).
  2:{ now rewrite (in_store_sims_required _ _ _ Ha), Hck. }
  rewrite (proj2 (Z.ltb_lt _ _) Hpos).
  replace (match max_sims with
           | Some m => (m <=? 0)%Z
           | None => false
           end) with false.
  2:{ destruct max_sims as [m|]; [|reflexivity].
      symmetry. apply Z.leb_gt. now apply Hmax. }
  rewrite (bind_returns _ _ (st, w) 0%Z (st, w)); [exact IH|].
  unfold _simulate_batch.
  rewrite (bind_returns _ _ (st, w) (count_pending (rows a)) (st, w)).
  2:{ now rewrite (in_store_sims_required _ _ _ Ha), Hck. }
  cbv zeta. now rewrite Z.min_l by lia.
Qed.

(** On a status array with a chunk extent of [0] the first read raises. *)
Lemma simulate_loop_unreadable sample_fn max_sims batch_size st w a fuel
    total :
  sim_status st = Some a ->
  chunked a = false ->
  simulate_loop sample_fn max_sims batch_size (S fuel) total (st, w)
  = (Raise ZeroDivisionError, (st, w)).
Proof.
  intros Ha Hck. cbn [simulate_loop].
  apply bind_raises. now rewrite (in_store_sims_required _ _ _ Ha), Hck.
Qed.

End BatchFacts.

(** X13.  A batch that returns has simulated [min(batch_size,
    sims_required)] samples, for a batch size that is not negative, and
    in the status array exactly the first that many pending entries have
    become [1]: [sims_required] has dropped by the number returned, and no
    entry that was not pending has changed. *)
Theorem simulate_batch_marks_first_pending (W : Type)
    (sample_fn : Z -> M W (gmap string ndarray)) (batch_size : Z)
    (st : ZarrStore) (w : W) (n : Z) (st' : ZarrStore) (w' : W)
    (a : zarray) :
  sim_status st = Some a ->
  (0 <= batch_size)%Z ->
  _simulate_batch sample_fn batch_size (st, w) = (Ok n, (st', w')) ->
  n = Z.min batch_size (count_pending (rows a)) /\
  sim_status st'
  = Some (mkArray (shape a) (chunks a) (dtype a)
                  (mark_first (Z.to_nat n) (rows a))) /\
  sims_required st' = (Ok (count_pending (rows a) - n)%Z, st').
Proof.
  intros Ha Hb H.
  destruct (simulate_batch_status W _ _ _ _ _ _ _ _ Ha Hb H)
    as (Hc & Hn & Hs).
  split; [exact Hn|]. split; [exact Hs|].
  rewrite (sims_required_eq _ _ Hs).
  change (chunked (mkArray (shape a) (chunks a) (dtype a)
                           (mark_first (Z.to_nat n) (rows a))))
    with (chunked a).
  rewrite Hc. cbn [rows].
  pose proof (count_pending_nonneg (rows a)).
  rewrite count_mark_first by lia. do 2 f_equal. lia.
Qed.

(** What a batch that returns has written to the arrays of [data]. *)
Lemma simulate_batch_data (W : Type)
    (sample_fn : Z -> M W (gmap string ndarray)) (batch_size : Z)
    (st : ZarrStore) (w : W) (n : Z) (st' : ZarrStore) (w' : W)
    (status : zarray) (d : gmap string zarray) :
  sim_status st = Some status ->
  data st = Some d ->
  (forall k a, d !! k = Some a -> length (rows a) = length (rows status)) ->
  (0 <= batch_size)%Z ->
  _simulate_batch sample_fn batch_size (st, w) = (Ok n, (st', w')) ->
  n <> 0%Z ->
  exists samples d',
    sample_fn n w = (Ok samples, w') /\
    data st' = Some d' /\
    (forall k, d !! k = None -> d' !! k = None) /\
    forall k a, d !! k = Some a ->
      exists col a',
        samples !! k = Some col /\ d' !! k = Some a' /\
        row_shape col = tl (shape a) /\ chunked a = true /\
        shape a' = shape a /\ chunks a' = chunks a /\
        dtype a' = dtype a /\ length (rows a') = length (rows a) /\
        (forall p j,
           take (Z.to_nat n) (pending_idx (rows status)) !! p = Some j ->
           exists x, nd_rows col !! p = Some x /\
                     rows a' !! Z.to_nat j
                     = Some (map (cast (dtype a)) x)) /\
        (forall i,
           Z.of_nat i ∉ take (Z.to_nat n) (pending_idx (rows status)) ->
           rows a' !! i = rows a !! i).
Proof.
  intros Hst Hd Hlens Hb H Hn0.
  destruct (simulate_batch_inv W _ _ _ _ _ _ _ _ Hst H)
    as (Hck & Hn & [(-> & _)|(_ & samples & Hf & Hw)]); [contradiction|].
  unfold reserve_and_write, read_all in Hw. rewrite Hst, Hd, Hck in Hw.
  pose proof (count_pending_nonneg (rows status)) as Hc.
  rewrite upto_nonneg in Hw by lia.
  set (idx := take (Z.to_nat n) (pending_idx (rows status))) in *.
  assert (Hsorted : StronglySorted Z.lt idx)
    by apply StronglySorted_take, (pidx_sorted 0).
  assert (Hne : idx <> []).
  { intros Hnil. apply (f_equal length) in Hnil.
    unfold idx in Hnil. rewrite length_take in Hnil.
    pose proof (pidx_length 0 (rows status)) as Hl.
    unfold pending_idx in Hnil. fold (pidx 0 (rows status)) in Hnil.
    cbn [length] in Hnil. lia. }
  assert (Hbound :
            Forall (fun j => (0 <= j < Z.of_nat (length (rows status)))%Z)
                   idx).
  { apply List.Forall_forall. intros j Hj.
    assert (Hj' : In j (pidx 0 (rows status))).
    { unfold idx in Hj. rewrite <- (take_drop (Z.to_nat n) (pidx 0 _)).
      apply in_or_app. now left. }
    pose proof (pidx_lower 0 (rows status)) as Hlo.
    pose proof (pidx_upper 0 (rows status)) as Hup.
    rewrite List.Forall_forall in Hlo. rewrite List.Forall_forall in Hup.
    specialize (Hlo j Hj'). specialize (Hup j Hj'). cbn beta in Hlo, Hup.
    lia. }
  destruct (group_keys d) as [Hnd Hkeys].
  destruct (slices_data samples (map fst (map_to_list d)) Hnd _ _ _ d Hd
              (fun k => proj1 (Hkeys k)) Hw)
    as (d' & Hd' & Hin & Hout).
  exists samples, d'. split; [exact Hf|]. split; [exact Hd'|]. split.
  { intros k Hk. rewrite Hout; [exact Hk|].
    intros Hin'. apply Hkeys in Hin' as [a Ha]. congruence. }
  intros k a Hka.
  destruct (Hin k a) as (a' & Ha' & Hcase).
  { apply Hkeys. eauto. }
  { exact Hka. }
  pose proof (loop_runs 0 idx Hsorted) as Hruns.
  fold (get_index_slices idx) in Hruns.
  assert (Hsl : get_index_slices idx <> []).
  { intros Hnil. rewrite Hnil in Hruns. cbn in Hruns. contradiction. }
  destruct Hcase as [[Hnil _]|(col & Hcol & Hwr)]; [contradiction|].
  rewrite <- (Hlens k a Hka) in Hbound.
  destruct (write_slices_spec col _ 0 idx a a' Hruns Hsorted Hbound Hwr)
    as (Hsh & Hch & Hdt & Hlen & Hrs & Hrows & Hkeep).
  destruct (Hrs Hsl) as [Hrs1 Hrs2].
  exists col, a'. split; [exact Hcol|]. split; [exact Ha'|].
  split; [exact Hrs1|]. split; [exact Hrs2|].
  split; [exact Hsh|]. split; [exact Hch|]. split; [exact Hdt|].
  split; [exact Hlen|]. split; [exact Hrows|exact Hkeep].
Qed.

(** X14.  A batch that returns a number [n] other than [0] has called
    [sample_fn(n)] once and has put its samples in the rows that were
    pending, converted to the element type of each array: in a store
    whose arrays are as long as the status array, every array of [data]
    gets, at the [p]-th pending position, row [p] of the samples of its
    name with every value cast to the element type of the array, for the
    first [n] pending positions; it keeps all its other rows, its shape,
    chunks, element type and length, and no array is added.  The samples
    of each name have rows of the row shape of the array, or the batch
    would not have returned. *)
Theorem simulate_batch_writes_samples (W : Type)
    (sample_fn : Z -> M W (gmap string ndarray)) (batch_size : Z)
    (st : ZarrStore) (w : W) (n : Z) (st' : ZarrStore) (w' : W)
    (status : zarray) (d : gmap string zarray) :
  sim_status st = Some status ->
  data st = Some d ->
  (forall k a, d !! k = Some a -> length (rows a) = length (rows status)) ->
  (0 <= batch_size)%Z ->
  _simulate_batch sample_fn batch_size (st, w) = (Ok n, (st', w')) ->
  n <> 0%Z ->
  exists samples d',
    sample_fn n w = (Ok samples, w') /\
    data st' = Some d' /\
    (forall k, d !! k = None -> d' !! k = None) /\
    forall k a, d !! k = Some a ->
      exists col a',
        samples !! k = Some col /\ d' !! k = Some a' /\
        row_shape col = tl (shape a) /\
        shape a' = shape a /\ chunks a' = chunks a /\
        dtype a' = dtype a /\ length (rows a') = length (rows a) /\
        (forall p j,
           take (Z.to_nat n) (pending_idx (rows status)) !! p = Some j ->
           exists x, nd_rows col !! p = Some x /\
                     rows a' !! Z.to_nat j
                     = Some (map (cast (dtype a)) x)) /\
        (forall i,
           Z.of_nat i ∉ take (Z.to_nat n) (pending_idx (rows status)) ->
           rows a' !! i = rows a !! i).
Proof.
  intros Hst Hd Hlens Hb H Hn0.
  destruct (simulate_batch_data W _ _ _ _ _ _ _ _ _ Hst Hd Hlens Hb H Hn0)
    as (samples & d' & Hf & Hd' & Hdom & Hrows).
  exists samples, d'. split; [exact Hf|]. split; [exact Hd'|].
  split; [exact Hdom|]. intros k a Hka.
  destruct (Hrows k a Hka)
    as (col & a' & Hcol & Ha' & Hrs & _ & Hsh & Hch & Hdt & Hlen & Hin & Hout).
  exists col, a'. auto 12.
Qed.

(** X15.  [simulate] without [max_sims] and with a batch size of at least
    one ends within [sims_required + 1] turns of its loop (it returns or
    an exception of [sample_fn] or of an assignment leaves it), and when
    it returns nothing is pending any more: every pending entry of the
    status array has become [1], the other entries are as they were. *)
Theorem simulate_fills_store (W : Type)
    (sample_fn : Z -> M W (gmap string ndarray)) (batch_size : Z)
    (fuel : nat) (st : ZarrStore) (w : W) (a : zarray)
    (r : result (option unit)) (st' : ZarrStore) (w' : W) :
  (1 <= batch_size)%Z ->
  sim_status st = Some a ->
  Z.to_nat (count_pending (rows a)) < fuel ->
  simulate sample_fn None batch_size fuel (st, w) = (r, (st', w')) ->
  r <> Ok None /\
  (forall u, r = Ok u ->
     sim_status st'
     = Some (mkArray (shape a) (chunks a) (dtype a)
               (mark_first (Z.to_nat (count_pending (rows a))) (rows a))) /\
     sims_required st' = (Ok 0%Z, st')).
Proof.
  intros Hb Ha Hfuel H. unfold simulate in H.
  bind_cases H as t s1 Hloop.
  - destruct s1 as [st1 w1]. inversion H; subst; clear H.
    pose proof (simulate_loop_spec W sample_fn None batch_size Hb _ _ _ _ _
                  _ _ _ Ha Hfuel Hloop) as Hspec.
    destruct t as [t|]; [|contradiction].
    destruct Hspec as (Hck & done & Hd & _ & Hst & [->|(m & Hm & _)]);
      [|discriminate].
    split; [discriminate|]. intros u _. split; [exact Hst|].
    rewrite (sims_required_eq _ _ Hst).
    change (chunked (mkArray (shape a) (chunks a) (dtype a)
              (mark_first (Z.to_nat (count_pending (rows a))) (rows a))))
      with (chunked a).
    rewrite Hck. cbn [rows].
    rewrite count_mark_first by lia. do 2 f_equal. lia.
  - subst r. split; [discriminate|]. intros u Hu. discriminate.
Qed.

(** X16.  [max_sims] is looked at between batches only: a [simulate]
    that returns with entries still pending has simulated at least
    [max_sims] samples and fewer than [max_sims + batch_size], or none at
    all when [max_sims] is not positive. *)
Theorem simulate_max_sims_overshoot (W : Type)
    (sample_fn : Z -> M W (gmap string ndarray)) (max_sims batch_size : Z)
    (fuel : nat) (st : ZarrStore) (w : W) (a : zarray)
    (u : option unit) (st' : ZarrStore) (w' : W) :
  (1 <= batch_size)%Z ->
  sim_status st = Some a ->
  Z.to_nat (count_pending (rows a)) < fuel ->
  simulate sample_fn (Some max_sims) batch_size fuel (st, w)
  = (Ok u, (st', w')) ->
  u = Some tt /\
  exists done : Z,
    sim_status st'
    = Some (mkArray (shape a) (chunks a) (dtype a)
                    (mark_first (Z.to_nat done) (rows a))) /\
    sims_required st' = (Ok (count_pending (rows a) - done)%Z, st') /\
    (0 <= done <= count_pending (rows a))%Z /\
    (done = count_pending (rows a) \/
     (max_sims <= done)%Z /\
     (done = 0%Z \/ (done < max_sims + batch_size)%Z)).
Proof.
  intros Hb Ha Hfuel H. unfold simulate in H.
  bind_ok H as t s1 Hloop. destruct s1 as [st1 w1].
  inversion H; subst; clear H.
  pose proof (simulate_loop_spec W sample_fn (Some max_sims) batch_size Hb
                _ _ _ _ _ _ _ _ Ha Hfuel Hloop) as Hspec.
  destruct t as [t|]; [|contradiction].
  destruct Hspec as (Hck & done & Hd & Ht & Hst & Hend).
  split; [reflexivity|]. exists done. split; [exact Hst|]. split.
  { rewrite (sims_required_eq _ _ Hst).
    change (chunked (mkArray (shape a) (chunks a) (dtype a)
                             (mark_first (Z.to_nat done) (rows a))))
      with (chunked a).
    rewrite Hck. cbn [rows].
    rewrite count_mark_first by lia. do 2 f_equal. lia. }
  split; [exact Hd|].
  destruct Hend as [Hall|(m & Hm & Hle & Hover)]; [now left|].
  right. injection Hm as <-. rewrite Z.add_0_l in Ht. subst t.
  split; [exact Hle|exact Hover].
Qed.

(** X17.  With [batch_size = 0] and entries pending, [simulate] never
    returns (unless [max_sims] is given and not positive): every turn of
    its loop simulates nothing and leaves the store and the world of
    [sample_fn] as they were, whatever the number of turns.  This is so
    where the status array can be read; where it has a chunk extent of
    [0], the read of the first turn raises [ZeroDivisionError]. *)
Theorem simulate_zero_batch_size_never_returns (W : Type)
    (sample_fn : Z -> M W (gmap string ndarray)) (max_sims : option Z)
    (st : ZarrStore) (w : W) (a : zarray) :
  sim_status st = Some a ->
  (0 < count_pending (rows a))%Z ->
  (forall m, max_sims = Some m -> (0 < m)%Z) ->
  forall fuel,
    simulate sample_fn max_sims 0 fuel (st, w)
    = ((if chunked a then Ok None
        else match fuel with
             | 0 => Ok None
             | S _ => Raise ZeroDivisionError
             end), (st, w)).
Proof.
  intros Ha Hpos Hmax fuel. unfold simulate.
  destruct (chunked a) eqn:Hck.
  - now rewrite (bind_returns _ _ _ _ _
                   (simulate_loop_stuck W sample_fn max_sims st w a Ha Hck
                      Hpos Hmax fuel)).
  - destruct fuel as [|fuel]; [reflexivity|].
    now rewrite (bind_raises _ _ _ _ _
                   (simulate_loop_unreadable W sample_fn max_sims 0 st w a
                      fuel 0 Ha Hck)).
Qed.

End WithNumpy.

End ZarrRunFacts.

(** ** Samples, datasets, tensors *)

Section IndexFacts.

Context {A : Type}.

Lemma getitem_int_in (v : list A) (i : Z) :
  (- Z.of_nat (length v) <= i < Z.of_nat (length v))%Z ->
  exists x,
    v !! Z.to_nat (i mod Z.of_nat (length v)) = Some x /\
    getitem_int v i = Ok x.
Proof.
  intros Hi. unfold getitem_int. cbv zeta.
  set (n := Z.of_nat (length v)) in *.
  assert (Hpos : ((if (i <? 0)%Z then (i + n)%Z else i) = i mod n)%Z).
  { destruct (Z.ltb_spec i 0).
    - apply Z.mod_unique with (q := (-1)%Z); lia.
    - symmetry. apply Z.mod_small. lia. }
  rewrite Hpos.
  assert (Hr : (0 <= i mod n < n)%Z) by (apply Z.mod_pos_bound; lia).
  destruct (Z.ltb_spec (i mod n) 0); [lia|]. subst n.
  destruct (lookup_lt_is_Some_2 v (Z.to_nat (i mod Z.of_nat (length v))))
    as [x Hx]; [lia|].
  exists x. now rewrite Hx.
Qed.

Lemma getitem_int_out (v : list A) (i : Z) :
  (i < - Z.of_nat (length v) \/ Z.of_nat (length v) <= i)%Z ->
  getitem_int v i = Raise IndexError.
Proof.
  intros Hi. unfold getitem_int. cbv zeta.
  destruct (Z.ltb_spec i 0).
  - destruct (Z.ltb_spec (i + Z.of_nat (length v)) 0); [reflexivity|lia].
  - destruct (Z.ltb_spec i 0); [lia|].
    rewrite lookup_ge_None_2 by lia. reflexivity.
Qed.

Lemma slice_bound_range n bound default :
  (0 <= n)%Z -> (0 <= default <= n)%Z ->
  (0 <= slice_bound n bound default <= n)%Z.
Proof.
  intros Hn Hd. unfold slice_bound. destruct bound as [z|]; [|exact Hd].
  destruct (Z.ltb_spec z 0); lia.
Qed.

Lemma getitem_slice_length (v : list A) start stop :
  Z.of_nat (length (getitem_slice v start stop))
  = Z.max 0 (slice_bound (Z.of_nat (length v)) stop (Z.of_nat (length v))
             - slice_bound (Z.of_nat (length v)) start 0).
Proof.
  unfold getitem_slice. cbv zeta.
  pose proof (slice_bound_range (Z.of_nat (length v)) start 0) as Ha.
  pose proof (slice_bound_range (Z.of_nat (length v)) stop
                                (Z.of_nat (length v))) as Hb.
  rewrite length_take, length_drop. lia.
Qed.

Lemma getitem_slice_int (v : list A) start stop j :
  (0 <= j < slice_bound (Z.of_nat (length v)) stop (Z.of_nat (length v))
            - slice_bound (Z.of_nat (length v)) start 0)%Z ->
  getitem_int (getitem_slice v start stop) j
  = getitem_int v (slice_bound (Z.of_nat (length v)) start 0 + j).
Proof.
  intros Hj.
  pose proof (getitem_slice_length v start stop) as Hlen.
  pose proof (slice_bound_range (Z.of_nat (length v)) start 0) as Ha.
  pose proof (slice_bound_range (Z.of_nat (length v)) stop
                                (Z.of_nat (length v))) as Hb.
  unfold getitem_int. cbv zeta.
  destruct (Z.ltb_spec j 0); [lia|].
  destruct (Z.ltb_spec (slice_bound (Z.of_nat (length v)) start 0 + j) 0);
    [lia|].
  destruct (Z.ltb_spec j 0); [lia|].
  destruct (Z.ltb_spec (slice_bound (Z.of_nat (length v)) start 0 + j) 0);
    [lia|].
  unfold getitem_slice. cbv zeta.
  rewrite lookup_take_lt by lia. rewrite lookup_drop.
  replace (Z.to_nat (slice_bound (Z.of_nat (length v)) start 0 + j))
    with (Z.to_nat (slice_bound (Z.of_nat (length v)) start 0) + Z.to_nat j)
    by lia.
  reflexivity.
Qed.

End IndexFacts.

Module SamplesFacts.

Section SamplesFacts.

Context {A : Type}.

Implicit Types (s : Samples.t A).

(** What [len(samples)] has checked when it returns. *)
Lemma len_inv s n :
  Samples.__len__ s = Ok n ->
  s <> [] /\
  Forall (fun kv => Z.of_nat (length (snd kv)) = n) s.
Proof.
  unfold Samples.__len__. cbv zeta. destruct s as [|[k v] s]; [discriminate|].
  cbn [map]. set (n0 := Z.of_nat (length (snd (k, v)))).
  destruct (forallb _ _) eqn:Hall; [|discriminate].
  intros H. injection H as <-. split; [discriminate|].
  rewrite forallb_forall in Hall. apply List.Forall_forall.
  intros kv Hin. apply Z.eqb_eq, Hall.
  change (In ((fun kv : string * list A => Z.of_nat (length (snd kv))) kv)
             (map (fun kv : string * list A => Z.of_nat (length (snd kv)))
                  ((k, v) :: s))).
  now apply in_map.
Qed.

Lemma samples_len_of_uniform s n :
  s <> [] ->
  Forall (fun kv => Z.of_nat (length (snd kv)) = n) s ->
  Samples.__len__ s = Ok n.
Proof.
  intros Hne Hall. unfold Samples.__len__. cbv zeta.
  destruct s as [|[k v] s]; [contradiction|]. cbn [map].
  rewrite List.Forall_forall in Hall.
  rewrite (Hall (k, v) (or_introl eq_refl)).
  replace (forallb _ _) with true; [reflexivity|].
  symmetry. apply forallb_forall. intros x Hx. apply Z.eqb_eq.
  destruct Hx as [<-|Hx]; [reflexivity|].
  apply in_map_iff in Hx as (kv & <- & Hkv). now apply Hall, or_intror.
Qed.

(** A row of columns that all have [n] rows. *)
Lemma row_in s n i :
  Forall (fun kv => Z.of_nat (length (snd kv)) = n) s ->
  (- n <= i < n)%Z ->
  exists d,
    Samples.row s i = Ok d /\
    dict_keys d = dict_keys s /\
    forall k v, dict_get s k = Some v ->
      exists x, v !! Z.to_nat (i mod n) = Some x /\ dict_get d k = Some x.
Proof.
  intros Hall Hi. unfold Samples.row, dict_keys.
  induction Hall as [|[k v] s Hv Hall IH].
  - exists []. repeat split. intros k v H. discriminate.
  - destruct IH as (d & Hd & Hkeys & Hget). cbn [snd fst] in Hv.
    destruct (getitem_int_in v i) as (x & Hx & Hgi); [lia|].
    rewrite Hv in Hx.
    exists ((k, x) :: d). cbn [rmap]. fold (@rmap (string * list A)).
    cbn [fst snd]. rewrite Hgi. cbn [rbind]. rewrite Hd. cbn [rbind].
    split; [reflexivity|]. split; [cbn; now rewrite Hkeys|].
    intros k' v' Hk'. cbn [dict_get] in Hk' |- *.
    destruct (String.eqb k k').
    + injection Hk' as <-. eauto.
    + now apply Hget.
Qed.

Lemma row_out s n i :
  s <> [] ->
  Forall (fun kv => Z.of_nat (length (snd kv)) = n) s ->
  (i < - n \/ n <= i)%Z ->
  Samples.row s i = Raise IndexError.
Proof.
  intros Hne Hall Hi. unfold Samples.row.
  destruct s as [|[k v] s]; [contradiction|].
  apply Forall_cons in Hall as [Hv _]. cbn [snd] in Hv.
  cbn [rmap fst snd]. rewrite getitem_int_out by lia. reflexivity.
Qed.

Lemma rmap_map {B C D} (f : C -> result D) (g : B -> C) l :
  rmap f (map g l) = rmap (fun x => f (g x)) l.
Proof.
  induction l as [|x l IH]; [reflexivity|].
  cbn [map rmap]. fold (@rmap C D f). fold (@rmap B D (fun x => f (g x))).
  now rewrite IH.
Qed.

Lemma rmap_ext_in {B C} (f g : B -> result C) l :
  (forall x, In x l -> f x = g x) -> rmap f l = rmap g l.
Proof.
  induction l as [|x l IH]; intros H; [reflexivity|].
  cbn [rmap]. fold (@rmap B C f). fold (@rmap B C g).
  rewrite (H x (or_introl eq_refl)), IH; [reflexivity|].
  intros y Hy. apply H. now right.
Qed.

End SamplesFacts.

(** X18.  [len(samples)] is the number of rows that can be fetched: when
    it returns [n], [samples[i]] is a row for every integer [i] from [-n]
    to [n - 1], with the keys of the samples in their order and, for each
    key, the element of its column at [i] (counted from the end when [i]
    is negative); for every other integer [samples[i]] raises
    [IndexError]. *)
Theorem samples_len_counts_rows (A : Type) (s : Samples.t A) (n : Z) :
  Samples.__len__ s = Ok n ->
  (forall i, (- n <= i < n)%Z ->
     exists d,
       Samples.__getitem__ s (Int i) = Ok (Samples.Row d) /\
       dict_keys d = dict_keys s /\
       forall k v, dict_get s k = Some v ->
         exists x, v !! Z.to_nat (i mod n) = Some x /\
                   dict_get d k = Some x) /\
  (forall i, (i < - n \/ n <= i)%Z ->
     Samples.__getitem__ s (Int i) = Raise IndexError).
Proof.
  intros Hlen. destruct (len_inv s n Hlen) as [Hne Hall]. split.
  - intros i Hi. destruct (row_in s n i Hall Hi) as (d & Hd & Hk & Hg).
    exists d. cbn [Samples.__getitem__]. rewrite Hd. auto.
  - intros i Hi. cbn [Samples.__getitem__].
    now rewrite (row_out s n i Hne Hall Hi).
Qed.

(** X19.  A slice of samples is samples again: when [len(samples)] is
    [n], [samples[start:stop]] has the length of the slice,
    [max(0, b - a)] for the bounds [a] and [b] that Python makes of
    [start] and [stop], and its row [j] is row [a + j] of the samples. *)
Theorem samples_slice_rows (A : Type) (s : Samples.t A) (n : Z)
    (start stop : option Z) :
  Samples.__len__ s = Ok n ->
  exists s',
    Samples.__getitem__ s (Slice start stop) = Ok (Samples.Sub s') /\
    dict_keys s' = dict_keys s /\
    Samples.__len__ s'
    = Ok (Z.max 0 (slice_bound n stop n - slice_bound n start 0)) /\
    forall j,
      (0 <= j < slice_bound n stop n - slice_bound n start 0)%Z ->
      Samples.row s' j = Samples.row s (slice_bound n start 0 + j).
Proof.
  intros Hlen. destruct (len_inv s n Hlen) as [Hne Hall].
  eexists. split; [reflexivity|]. split; [|split].
  - unfold dict_keys. rewrite map_map. reflexivity.
  - apply samples_len_of_uniform.
    + destruct s; [contradiction|discriminate].
    + apply List.Forall_forall. intros kv Hkv.
      apply in_map_iff in Hkv as ([k v] & <- & Hin). cbn [snd].
      rewrite List.Forall_forall in Hall. specialize (Hall _ Hin).
      cbn [snd] in Hall. rewrite getitem_slice_length, Hall. reflexivity.
  - intros j Hj. unfold Samples.row. rewrite rmap_map.
    apply rmap_ext_in. intros [k v] Hin. cbn [fst snd].
    rewrite List.Forall_forall in Hall. specialize (Hall _ Hin).
    cbn [snd] in Hall. rewrite getitem_slice_int; rewrite Hall; [|exact Hj].
    reflexivity.
Qed.

(** X20.  The datasets over consistent samples: [SamplesDataset] has the
    length [n] of the samples, a [RepeatDatasetWrapper] with [repeat >= 1]
    has [n * repeat] items, and its item [i], for [0 <= i < n * repeat],
    is row [i // repeat] of the samples, passed through the hook when
    there is one: no index in that range raises [IndexError], and each row
    is served for [repeat] indices in a row. *)
Theorem repeat_wrapper_serves_rows (A W : Type) (s : Samples.t A) (n : Z)
    (hook : option (dict A -> M W (dict A))) (repeat : Z) :
  Samples.__len__ s = Ok n ->
  (1 <= repeat)%Z ->
  let ds := SamplesDataset.mk s hook in
  let wrapper := RepeatDatasetWrapper.mk ds repeat in
  SamplesDataset.__len__ ds = Ok n /\
  RepeatDatasetWrapper.__len__ wrapper = Ok (n * repeat)%Z /\
  forall i, (0 <= i < n * repeat)%Z ->
    (0 <= i / repeat < n)%Z /\
    exists d,
      Samples.row s (i / repeat) = Ok d /\
      RepeatDatasetWrapper.__getitem__ wrapper i
      = match hook with
        | Some hook => hook d
        | None => ret d
        end.
Proof.
  intros Hlen Hr ds wrapper. destruct (len_inv s n Hlen) as [Hne Hall].
  assert (Hds : SamplesDataset.__len__ ds = Ok n).
  { unfold SamplesDataset.__len__, ds. cbn [SamplesDataset._dataset].
    destruct s as [|[k v] s]; [contradiction|]. cbn [dict_keys map fst].
    cbn [Samples.__getitem__]. unfold dict_getitem. cbn [dict_get].
    rewrite String.eqb_refl. cbn [rbind].
    apply Forall_cons in Hall as [Hv _]. cbn [snd] in Hv. now rewrite Hv. }
  split; [exact Hds|]. split.
  { unfold RepeatDatasetWrapper.__len__, wrapper.
    cbn [RepeatDatasetWrapper._dataset RepeatDatasetWrapper._repeat].
    now rewrite Hds. }
  intros i Hi.
  assert (Hq : (0 <= i / repeat < n)%Z).
  { split; [apply Z.div_pos; lia|]. apply Z.div_lt_upper_bound; lia. }
  split; [exact Hq|].
  destruct (row_in s n (i / repeat) Hall ltac:(lia)) as (d & Hd & _).
  exists d. split; [exact Hd|].
  unfold RepeatDatasetWrapper.__getitem__, wrapper.
  cbn [RepeatDatasetWrapper._dataset RepeatDatasetWrapper._repeat].
  destruct (Z.eqb_spec repeat 0); [lia|].
  unfold SamplesDataset.__getitem__, ds.
  cbn [SamplesDataset._dataset SamplesDataset._on_after_load_sample].
  now rewrite Hd.
Qed.

(** X21.  Negative indices of a [RepeatDatasetWrapper] count from the end
    of the wrapper, as for a list: with [repeat >= 1], item [i - len] is
    item [i] for every [i] from [0] to [len - 1], where [len] is
    [n * repeat]. *)
Theorem repeat_wrapper_negative_index (A W : Type) (s : Samples.t A) (n : Z)
    (hook : option (dict A -> M W (dict A))) (repeat : Z) (i : Z) :
  Samples.__len__ s = Ok n ->
  (1 <= repeat)%Z ->
  (0 <= i < n * repeat)%Z ->
  RepeatDatasetWrapper.__getitem__
    (RepeatDatasetWrapper.mk (SamplesDataset.mk s hook) repeat)
    (i - n * repeat)
  = RepeatDatasetWrapper.__getitem__
      (RepeatDatasetWrapper.mk (SamplesDataset.mk s hook) repeat) i.
Proof.
  intros Hlen Hr Hi. destruct (len_inv s n Hlen) as [Hne Hall].
  unfold RepeatDatasetWrapper.__getitem__.
  cbn [RepeatDatasetWrapper._dataset RepeatDatasetWrapper._repeat].
  destruct (Z.eqb_spec repeat 0); [lia|].
  unfold SamplesDataset.__getitem__.
  cbn [SamplesDataset._dataset SamplesDataset._on_after_load_sample].
  assert (Hq : (0 <= i / repeat < n)%Z).
  { split; [apply Z.div_pos; lia|]. apply Z.div_lt_upper_bound; lia. }
  replace ((i - n * repeat) / repeat)%Z with (i / repeat - n)%Z.
  2:{ replace (i - n * repeat)%Z with (i + (- n) * repeat)%Z by lia.
      rewrite Z.div_add by lia. lia. }
  destruct (row_in s n (i / repeat) Hall ltac:(lia)) as (d & Hd & _ & Hg).
  destruct (row_in s n (i / repeat - n) Hall ltac:(lia))
    as (d' & Hd' & _ & Hg').
  replace (Samples.row s (i / repeat - n)) with (Samples.row s (i / repeat));
    [reflexivity|].
  unfold Samples.row. apply rmap_ext_in. intros [k v] Hin. cbn [fst snd].
  rewrite List.Forall_forall in Hall. specialize (Hall _ Hin).
  cbn [snd] in Hall.
  destruct (getitem_int_in v (i / repeat)) as (x & Hx & ->); [lia|].
  destruct (getitem_int_in v (i / repeat - n)) as (y & Hy & ->); [lia|].
  rewrite Hall in Hx, Hy.
  replace ((i / repeat - n) mod n)%Z with ((i / repeat) mod n)%Z in Hy.
  2:{ replace (i / repeat - n)%Z with (i / repeat + (-1) * n)%Z by lia.
      now rewrite Z.mod_add by lia. }
  rewrite Hx in Hy. now injection Hy as <-.
Qed.

End SamplesFacts.

(** *** [equalize_tensors] *)

Lemma tensor_repeat_length {A} k (a : list A) :
  length (tensor_repeat k a) = k * length a.
Proof.
  unfold tensor_repeat. induction k as [|k IH]; [reflexivity|].
  cbn [replicate concat]. rewrite length_app, IH. lia.
Qed.

Lemma tensor_repeat_lookup {A} k (a : list A) i :
  i < k * length a ->
  tensor_repeat k a !! i = a !! (i mod length a).
Proof.
  unfold tensor_repeat. revert i. induction k as [|k IH]; intros i Hi;
    [lia|].
  cbn [replicate concat].
  destruct (Nat.lt_ge_cases i (length a)) as [Hlt|Hge].
  - rewrite lookup_app_l by exact Hlt. now rewrite Nat.mod_small.
  - rewrite lookup_app_r by exact Hge. rewrite IH by lia.
    f_equal.
    replace i with ((i - length a) + 1 * length a) at 2 by lia.
    rewrite Nat.Div0.mod_add. reflexivity.
Qed.

Lemma expand_one {A} m (a : list A) :
  length a = 1 ->
  length (expand m a) = m /\
  forall i, i < m -> expand m a !! i = a !! (i mod 1).
Proof.
  destruct a as [|x [|y a]]; try discriminate. intros _.
  cbn [expand]. split; [apply length_replicate|].
  intros i Hi. rewrite Nat.mod_1_r. cbn.
  now apply lookup_replicate_2.
Qed.

(** X22.  When [equalize_tensors] returns, the two tensors it returns
    have the same number of rows (the larger of the two numbers given,
    when neither tensor is empty), and each is the tensor given, gone
    through cyclically: row [i] of a result is row [i mod n] of the tensor
    with [n] rows it comes from. *)
Theorem equalize_tensors_rows (A : Type) (a b a' b' : list A) :
  equalize_tensors a b = Ok (a', b') ->
  length a' = length b' /\
  (length a <> 0 -> length b <> 0 ->
   length a' = Nat.max (length a) (length b)) /\
  forall i, i < length a' ->
    a' !! i = a !! (i mod length a) /\ b' !! i = b !! (i mod length b).
Proof.
  unfold equalize_tensors. cbv zeta. intros H.
  destruct (Nat.eqb_spec (length a) (length b)) as [Hnm|Hnm].
  { injection H as <- <-. split; [exact Hnm|]. split; [lia|].
    intros i Hi. rewrite <- Hnm, Nat.mod_small by exact Hi. now split. }
  destruct (Nat.eqb_spec (length a) 1) as [Hn1|Hn1].
  { injection H as <- <-. destruct (expand_one (length b) a Hn1) as [Hl Hx].
    split; [exact Hl|]. split; [lia|]. rewrite Hl. intros i Hi.
    rewrite Hn1. split; [now apply Hx|]. now rewrite Nat.mod_small. }
  destruct (Nat.eqb_spec (length b) 1) as [Hm1|Hm1].
  { injection H as <- <-. destruct (expand_one (length a) b Hm1) as [Hl Hx].
    split; [now rewrite Hl|]. split; [lia|]. intros i Hi.
    rewrite Hm1. split; [now rewrite Nat.mod_small|now apply Hx]. }
  destruct (Nat.ltb_spec (length a) (length b)) as [Hlt|Hge].
  - destruct (Nat.eqb_spec (length a) 0) as [H0|H0]; [discriminate|].
    destruct (Nat.eqb_spec (length b mod length a) 0) as [Hd|Hd];
      [|discriminate].
    injection H as <- <-.
    assert (Hl : length b / length a * length a = length b).
    { pose proof (Nat.div_mod_eq (length b) (length a)). nia. }
    rewrite tensor_repeat_length, Hl. split; [reflexivity|].
    split; [lia|]. intros i Hi. split.
    + apply tensor_repeat_lookup. now rewrite Hl.
    + now rewrite Nat.mod_small.
  - destruct (Nat.eqb_spec (length b) 0) as [H0|H0]; [discriminate|].
    destruct (Nat.eqb_spec (length a mod length b) 0) as [Hd|Hd];
      [|discriminate].
    injection H as <- <-.
    assert (Hl : length a / length b * length b = length a).
    { pose proof (Nat.div_mod_eq (length a) (length b)). nia. }
    rewrite tensor_repeat_length, Hl. split; [reflexivity|].
    split; [lia|]. intros i Hi. split.
    + now rewrite Nat.mod_small.
    + apply tensor_repeat_lookup. now rewrite Hl.
Qed.

(** X23.  [equalize_tensors] returns exactly when the two numbers of rows
    are equal, or one of them is [1], or neither is [0] and one divides
    the other.  Otherwise it raises: [AssertionError] when both are at
    least [2] and the smaller does not divide the larger, and
    [ZeroDivisionError] (not the assertion) when one tensor is empty and
    the other has at least two rows. *)
Theorem equalize_tensors_outcome (A : Type) (a b : list A) :
  let n := length a in
  let m := length b in
  match equalize_tensors a b with
  | Ok _ =>
      n = m \/ n = 1 \/ m = 1 \/
      (n <> 0 /\ m <> 0 /\ Nat.max n m mod Nat.min n m = 0)
  | Raise e =>
      (e = AssertionError
             "Cannot equalize tensors with non-divisible batch sizes." /\
       2 <= Nat.min n m /\ Nat.max n m mod Nat.min n m <> 0) \/
      (e = ZeroDivisionError /\ Nat.min n m = 0 /\ 2 <= Nat.max n m)
  end.
Proof.
  cbv zeta. unfold equalize_tensors. cbv zeta.
  destruct (Nat.eqb_spec (length a) (length b)) as [Hnm|Hnm]; [now left|].
  destruct (Nat.eqb_spec (length a) 1) as [Hn1|Hn1]; [now right; left|].
  destruct (Nat.eqb_spec (length b) 1) as [Hm1|Hm1];
    [now right; right; left|].
  destruct (Nat.ltb_spec (length a) (length b)) as [Hlt|Hge].
  - rewrite Nat.max_r, Nat.min_l by lia.
    destruct (Nat.eqb_spec (length a) 0) as [H0|H0].
    { right. split; [reflexivity|]. lia. }
    destruct (Nat.eqb_spec (length b mod length a) 0) as [Hd|Hd].
    + right; right; right. lia.
    + left. split; [reflexivity|]. lia.
  - rewrite Nat.max_l, Nat.min_r by lia.
    destruct (Nat.eqb_spec (length b) 0) as [H0|H0].
    { right. split; [reflexivity|]. lia. }
    destruct (Nat.eqb_spec (length a mod length b) 0) as [Hd|Hd].
    + right; right; right. lia.
    + left. split; [reflexivity|]. lia.
Qed.

(** *** The chunks of the workers *)

Module IterableFacts.

Import ZarrStoreIterableDataset.

Lemma ceil_div_spec n k :
  (0 <= n)%Z -> (1 <= k)%Z ->
  exists per,
    ceil_div n k = Ok per /\ (0 <= per)%Z /\ (n <= per * k)%Z /\
    (1 <= n -> 1 <= per)%Z /\ ((per - 1) * k < n \/ per = 0)%Z.
Proof.
  intros Hn Hk. unfold ceil_div. destruct (Z.eqb_spec k 0); [lia|].
  eexists. split; [reflexivity|].
  pose proof (Z.div_mod (- n) k ltac:(lia)) as Hdm.
  pose proof (Z.mod_pos_bound (- n) k ltac:(lia)) as Hmod.
  repeat split; nia.
Qed.

Lemma elem_of_range a b c : c ∈ range a b <-> (a <= c < b)%Z.
Proof. unfold range. rewrite elem_of_seqZ. lia. Qed.



End IterableFacts.
(** ** The life of a store: [init], [set_length], [sims_required] *)

Module ZarrCycleFacts.

Import Zarr ZarrRun.

Lemma count_pending_app rows1 rows2 :
  count_pending (rows1 ++ rows2)
  = (count_pending rows1 + count_pending rows2)%Z.
Proof. unfold count_pending. rewrite filter_app, length_app. lia. Qed.

Lemma count_pending_zeros n :
  count_pending (replicate n (zero_row [])) = Z.of_nat n.
Proof.
  induction n as [|n IH]; [reflexivity|].
  cbn [replicate]. rewrite ZarrRunFacts.count_pending_cons, IH.
  destruct (decide (pending (zero_row []))) as [_|Hn]; [lia|].
  exfalso. now apply Hn.
Qed.

(** One turn of the loop of [set_length] leaves the status array and
    what its chunks hold past its end alone, whether it returns or
    raises. *)
Lemma resize_data_frame N k self r self' :
  resize_data N k self = (r, self') ->
  sim_status self' = sim_status self /\
  past "meta/sim_status" self' = past "meta/sim_status" self.
Proof.
  unfold resize_data. intros H.
  destruct (default ∅ (data self) !! k) as [a|]; [|now inversion H].
  destruct (resize N a _) as [[a' rest]|e]; inversion H; subst; clear H;
    [|now split].
  split; [reflexivity|]. unfold past. cbn [past_end].
  rewrite lookup_insert_ne; [reflexivity|].
  intros Heq. symmetry in Heq. exact (ZarrFacts.data_path_not_status k Heq).
Qed.

Lemma forM_resize_data_frame N ks :
  forall self r self',
    forM_ (resize_data N) ks self = (r, self') ->
    sim_status self' = sim_status self /\
    past "meta/sim_status" self' = past "meta/sim_status" self.
Proof.
  induction ks as [|k ks IH]; intros self r self' H.
  - now inversion H.
  - cbn [forM_] in H. bind_cases H as u s1 Hk.
    + destruct (resize_data_frame _ _ _ _ _ Hk) as [H1 H2].
      destruct (IH _ _ _ H) as [H3 H4]. split; congruence.
    + exact (resize_data_frame _ _ _ _ _ Hk).
Qed.

(** What [set_length] has done to the status array when it returns. *)
Lemma set_length_ok N clubber self self' st :
  sim_status self = Some st ->
  set_length N clubber self = (Ok tt, self') ->
  exists st' rest,
    resize N st (past "meta/sim_status" self) = Ok (st', rest) /\
    sim_status self' = Some st' /\
    past "meta/sim_status" self' = rest.
Proof.
  unfold set_length. intros Hst H. bind_ok H as n s1 Hlen.
  apply ZarrFacts.len_state in Hlen as ->.
  destruct ((N <? n)%nat && negb clubber); [discriminate|].
  bind_ok H as u s1 Hd.
  destruct (data self) as [d|] eqn:Ed; [|discriminate].
  destruct (forM_resize_data_frame _ _ _ _ _ Hd) as [Hst1 Hpast1].
  unfold resize_status in H. rewrite Hst1, Hst, Hpast1 in H.
  destruct (resize N st _) as [[st' rest]|e]; [|discriminate].
  inversion H; subst self'. exists st', rest.
  split; [reflexivity|]. split; [reflexivity|].
  unfold past. cbn [past_end]. now rewrite lookup_insert_eq.
Qed.

(** X25.  When [set_length(N)] returns, [sims_required] counts the
    pending entries among the first [N] of the rows the kept chunks of
    the status array hold, which are its old entries followed by what a
    chunk held past its end, and every entry beyond these rows: entries
    that are kept keep their state, entries that are added take the state
    a kept chunk holds for them and are pending where there is none.
    Where the chunks hold nothing past the end of the status array
    (nothing has cut into a chunk since it was made), all the entries
    added are pending. *)
Theorem set_length_adds_pending (N : nat) (clubber : bool)
    (self self' : ZarrStore) (st : zarray) :
  sim_status self = Some st ->
  tl (shape st) = [] ->
  set_length N clubber self = (Ok tt, self') ->
  let held := take (rows_kept N st)
                   (rows st ++ past "meta/sim_status" self) in
  sim_status self'
  = Some (mkArray [N] (chunks st) (dtype st)
                  (take N held ++ replicate (N - length held) [0%Z])) /\
  past "meta/sim_status" self' = drop N held /\
  sims_required self'
  = (Ok (count_pending (take N held) + Z.of_nat (N - length held))%Z,
     self') /\
  (past "meta/sim_status" self = [] ->
   sims_required self'
   = (Ok (count_pending (take N (rows st))
          + Z.of_nat (N - length (rows st)))%Z, self')).
Proof.
  intros Hst Hshape H held.
  destruct (set_length_ok _ _ _ _ _ Hst H) as (st' & rest & Hr & Hst' & Hrest).
  unfold resize in Hr. destruct (chunked st) eqn:Hck; [|discriminate].
  fold held in Hr. rewrite Hshape in Hr. injection Hr as <- <-.
  assert (Hreq : sims_required self'
                 = (Ok (count_pending (take N held)
                        + Z.of_nat (N - length held))%Z, self')).
  { rewrite (ZarrRunFacts.sims_required_eq _ _ Hst').
    unfold chunked in *. cbn [chunks rows]. rewrite Hck.
    now rewrite count_pending_app, (count_pending_zeros (N - length held)). }
  split; [exact Hst'|]. split; [exact Hrest|]. split; [exact Hreq|].
  intros Hpast. rewrite Hreq.
  pose proof (ZarrFacts.rows_kept_ge N st Hck) as Hk.
  assert (Hheld : held = take (rows_kept N st) (rows st)).
  { unfold held. now rewrite Hpast, app_nil_r. }
  rewrite Hheld, take_take, Nat.min_l, length_take by exact Hk.
  do 3 f_equal. lia.
Qed.

(** X29.  On a store whose arrays all have a chunk extent of [0] along
    the first axis (as [init] with a chunk size of [0] makes them), a
    [set_length] that is not rejected for shrinking raises
    [ZeroDivisionError]: the first [resize] does. *)
Theorem set_length_chunk_zero (N N' : nat) (clubber : bool)
    (self : ZarrStore) (d : gmap string zarray) :
  __len__ self = (Ok N, self) ->
  data self = Some d ->
  (forall k a, d !! k = Some a -> exists cs, chunks a = 0 :: cs) ->
  N <= N' \/ clubber = true ->
  fst (set_length N' clubber self) = Raise ZeroDivisionError.
Proof.
  intros Hlen Hd Hck Hge. unfold set_length.
  rewrite (bind_returns _ _ _ _ _ Hlen).
  replace ((N' <? N)%nat && negb clubber) with false.
  2:{ symmetry. destruct Hge as [Hge | ->]; [|apply andb_false_r].
      apply Nat.ltb_ge in Hge. now rewrite Hge. }
  destruct (ZarrFacts.len_ok _ _ _ Hlen Hd) as [Hne _].
  destruct (map_to_list d) as [|[k a] l] eqn:Hl.
  { exfalso. now apply Hne, map_to_list_empty_iff. }
  assert (Hka : d !! k = Some a).
  { apply elem_of_map_to_list. rewrite Hl. left. }
  destruct (Hck k a Hka) as [cs Hcs].
  erewrite bind_raises; [reflexivity|].
  rewrite Hd, Hl. cbn [map fst forM_]. apply bind_raises.
  unfold resize_data. rewrite Hd. cbn [default from_option id].
  rewrite Hka, ZarrFacts.resize_not_chunked; [reflexivity|].
  unfold chunked. now rewrite Hcs.
Qed.

Section InitFacts.

Context {numpy : Numpy}.

(** One turn of the first loop of [_init_shapes] that went through. *)
Lemma init_variable_ok dtypes N chunk_size k s self self' :
  init_variable dtypes N chunk_size (k, s) self = (Ok tt, self') ->
  sim_status self' = sim_status self /\
  chunk_size_attr self' = chunk_size_attr self /\
  (exists d' a, data self' = Some d' /\ d' !! k = Some a /\
                shape a = N :: s /\ chunks a = chunk_size :: s) /\
  (forall k' a', default ∅ (data self) !! k' = Some a' ->
                 default ∅ (data self') !! k' = Some a').
Proof.
  unfold init_variable. cbn [fst snd]. intros H.
  destruct dtypes as [dtypes|]; [|discriminate].
  destruct (dtypes !! k) as [dt|]; [|discriminate].
  destruct (default ∅ (data self) !! k) as [a|] eqn:Hk.
  - bind_ok H as u1 s1 H1. bind_ok H as u2 s2 H2.
    unfold assert_ in H1, H2, H.
    destruct (list_nat_eqb (shape a) (N :: s)) eqn:Hs; [|discriminate].
    destruct (list_nat_eqb (chunks a) (chunk_size :: s)) eqn:Hc;
      [|discriminate].
    destruct (same_dtype (dtype a) dt); [|discriminate].
    inversion H1; subst s1. inversion H2; subst s2.
    inversion H; subst self'.
    split; [reflexivity|]. split; [reflexivity|]. split; [|auto].
    destruct (data self) as [d|]; cbn [default from_option id] in Hk;
      [|now rewrite lookup_empty in Hk].
    exists d, a. unfold list_nat_eqb in Hs, Hc.
    apply bool_decide_eq_true in Hs, Hc. auto.
  - inversion H; subst self'. cbn [sim_status chunk_size_attr data].
    split; [reflexivity|]. split; [reflexivity|]. split.
    + eexists _, _. split; [reflexivity|].
      split; [apply lookup_insert_eq|]. now split.
    + intros k' a' Hk'. cbn [default from_option id].
      rewrite lookup_insert_ne; [exact Hk'|]. intros <-. congruence.
Qed.

Lemma forM_init_variable_ok dtypes N chunk_size l :
  forall self self',
    forM_ (init_variable dtypes N chunk_size) l self = (Ok tt, self') ->
    sim_status self' = sim_status self /\
    chunk_size_attr self' = chunk_size_attr self /\
    (forall k s, In (k, s) l ->
       exists a, default ∅ (data self') !! k = Some a /\
                 shape a = N :: s /\ chunks a = chunk_size :: s) /\
    (forall k' a', default ∅ (data self) !! k' = Some a' ->
                   default ∅ (data self') !! k' = Some a').
Proof.
  induction l as [|[k s] l IH]; intros self self' H.
  - inversion H; subst. repeat split; auto. intros k s [].
  - cbn [forM_] in H. bind_ok H as u s1 H1. destruct u.
    destruct (init_variable_ok _ _ _ _ _ _ _ H1)
      as (Hst & Hattr & (d1 & a & Hd1 & Hka & Hsh & Hch) & Hmono).
    destruct (IH _ _ H) as (Hst' & Hattr' & Hall & Hmono').
    split; [congruence|]. split; [congruence|]. split.
    + intros k' s' [Heq|Hin].
      * injection Heq as <- <-. exists a. split; [|now split].
        apply Hmono'. now rewrite Hd1.
      * now apply Hall.
    + intros k' a' Hk'. now apply Hmono', Hmono.
Qed.

(** X26.  [init] on a store that has no status array and no rows yet
    leaves, when it returns, every variable in place and, for a chunk
    size that is positive, every entry pending: the chunk size is
    recorded, for each name of [shapes] there is an array of shape
    [(N, *shape)] with chunks [(chunk_size, *shape)], and
    [sims_required] is [N].  With a chunk size of [0] [init] returns as
    well, and [sims_required] then raises [ZeroDivisionError]. *)
Theorem init_makes_all_pending (N chunk_size : nat)
    (shapes : option (list (string * list nat)))
    (dtypes : option (gmap string string)) (self self' : ZarrStore) :
  __len__ self = (Ok 0, self) ->
  sim_status self = None ->
  init N chunk_size shapes dtypes self = (Ok tt, self') ->
  (0 < chunk_size -> sims_required self' = (Ok (Z.of_nat N), self')) /\
  (chunk_size = 0 ->
   sims_required self' = (Raise ZeroDivisionError, self')) /\
  chunk_size_attr self' = Some chunk_size /\
  exists l d',
    shapes = Some l /\ data self' = Some d' /\
    forall k s, In (k, s) l ->
      exists a, d' !! k = Some a /\
                shape a = N :: s /\ chunks a = chunk_size :: s.
Proof.
  intros Hlen Hst H. unfold init in H.
  rewrite (bind_returns _ _ _ _ _ Hlen) in H. cbn [Nat.ltb Nat.leb] in H.
  unfold _init_shapes in H.
  bind_ok H as u1 s1 H1. bind_ok H as u2 s2 H2. destruct u1, u2.
  destruct shapes as [l|]; [|discriminate].
  destruct (forM_init_variable_ok _ _ _ _ _ _ H1)
    as (Hst1 & Hattr1 & Hall & _).
  rewrite Hst in Hst1. rewrite Hst1 in H2.
  inversion H2; subst s2; clear H2. cbn [data chunk_size_attr sim_status] in H.
  destruct (data s1) as [d1|] eqn:Hd1; [|discriminate].
  assert (Hself' : data self' = Some d1 /\
                   sim_status self' = Some (zeros N chunk_size [] "i4") /\
                   chunk_size_attr self' = Some chunk_size).
  { destruct (chunk_size_attr s1) as [c|] eqn:Hc.
    - unfold assert_ in H. destruct (Nat.eqb_spec c chunk_size) as [Heq|];
        [|discriminate].
      inversion H; subst self'. cbn [data sim_status chunk_size_attr].
      rewrite Heq. auto.
    - inversion H; subst self'. cbn [data sim_status chunk_size_attr].
      auto. }
  destruct Hself' as (Hd' & Hst' & Hattr').
  split; [|split].
  { intros Hpos. rewrite (ZarrRunFacts.sims_required_eq _ _ Hst').
    unfold chunked. cbn [chunks rows zeros forallb].
    rewrite (proj2 (Nat.ltb_lt 0 chunk_size) Hpos). cbn [andb].
    now rewrite count_pending_zeros. }
  { intros ->. now rewrite (ZarrRunFacts.sims_required_eq _ _ Hst'). }
  split; [exact Hattr'|].
  exists l, d1. split; [reflexivity|]. split; [exact Hd'|].
  intros k s Hin. destruct (Hall k s Hin) as (a & Hk & Hsh).
  cbn [default from_option id] in Hk. eauto.
Qed.

End InitFacts.

End ZarrCycleFacts.

(** ** Reading back what a batch has written *)

Module ZarrReadFacts.

Import Zarr ZarrRun ZarrRead.

Lemma getitem_int_nonneg {A} (v : list A) (j : Z) x :
  (0 <= j)%Z -> v !! Z.to_nat j = Some x -> getitem_int v j = Ok x.
Proof.
  intros Hj Hx. unfold getitem_int. cbv zeta.
  destruct (Z.ltb_spec j 0); [lia|].
  destruct (Z.ltb_spec j 0); [lia|]. now rewrite Hx.
Qed.

(** A loop whose every turn returns and leaves the state as it is. *)
Lemma mapM_pure {S A B} (f : A -> M S B) (g : A -> B) (l : list A) (s : S) :
  (forall a, In a l -> f a s = (Ok (g a), s)) ->
  mapM f l s = (Ok (map g l), s).
Proof.
  induction l as [|a l IH]; intros H; [reflexivity|].
  cbn [mapM map]. fold (@mapM S A B f).
  rewrite (bind_returns _ _ _ _ _ (H a (or_introl eq_refl))).
  rewrite (bind_returns _ _ _ _ _ (IH (fun b Hb => H b (or_intror Hb)))).
  reflexivity.
Qed.

Lemma dict_get_map_key {B} (g : string -> B) (ks : list string) k :
  In k ks -> dict_get (map (fun k => (k, g k)) ks) k = Some (g k).
Proof.
  induction ks as [|k0 ks IH]; intros Hin; [destruct Hin|].
  cbn [map dict_get]. destruct (String.eqb_spec k0 k) as [->|Hne];
    [reflexivity|].
  destruct Hin as [->|Hin]; [contradiction|]. now apply IH.
Qed.

Section WithNumpy.

Context {numpy : Numpy}.

(** X27.  What [_simulate_batch] has written is what the store gives
    back, as the element types of the arrays hold it: after a batch that
    returned [n] other than [0], in a store whose arrays are as long as
    the status array, [store[j]] for the [p]-th pending position [j] (of
    the first [n]) is a row that has, for every array name, row [p] of
    the samples [sample_fn] returned for that name, with every value cast
    to the element type of the array of that name. *)
Theorem store_returns_simulated_rows (W : Type)
    (sample_fn : Z -> M W (gmap string ndarray)) (batch_size : Z)
    (st : ZarrStore) (w : W) (n : Z) (st' : ZarrStore) (w' : W)
    (status : zarray) (d : gmap string zarray) :
  sim_status st = Some status ->
  data st = Some d ->
  (forall k a, d !! k = Some a -> length (rows a) = length (rows status)) ->
  (0 <= batch_size)%Z ->
  _simulate_batch sample_fn batch_size (st, w) = (Ok n, (st', w')) ->
  n <> 0%Z ->
  exists samples,
    sample_fn n w = (Ok samples, w') /\
    forall p j,
      take (Z.to_nat n) (pending_idx (rows status)) !! p = Some j ->
      exists row,
        __getitem__ (Known (Int j)) st' = (Ok (Row row), st') /\
        forall k a, d !! k = Some a ->
          exists col x,
            samples !! k = Some col /\ nd_rows col !! p = Some x /\
            dict_get row k = Some (map (cast (dtype a)) x).
Proof.
  intros Hst Hd Hlens Hb H Hn0.
  destruct (ZarrRunFacts.simulate_batch_data W _ _ _ _ _ _ _ _ _ Hst Hd Hlens
              Hb H Hn0) as (samples & d' & Hf & Hd' & Hdom & Hrows).
  exists samples. split; [exact Hf|]. intros p j Hpj.
  assert (Hj : (0 <= j)%Z).
  { apply list_elem_of_lookup_2, elem_of_take in Hpj as (i & Hi & _).
    apply list_elem_of_lookup_2, list_elem_of_In in Hi.
    pose proof (ZarrRunFacts.pidx_lower 0 (rows status)) as Hlo.
    rewrite List.Forall_forall in Hlo. exact (Hlo j Hi). }
  set (g := fun k : string =>
              default [] (a' ← d' !! k; rows a' !! Z.to_nat j)).
  destruct (ZarrRunFacts.group_keys d') as [_ Hkeys].
  assert (Hval : forall k a, d !! k = Some a ->
            exists col x a',
              samples !! k = Some col /\ nd_rows col !! p = Some x /\
              d' !! k = Some a' /\ chunked a' = true /\
              rows a' !! Z.to_nat j = Some (map (cast (dtype a)) x) /\
              g k = map (cast (dtype a)) x).
  { intros k a Hka.
    destruct (Hrows k a Hka)
      as (col & a' & Hcol & Ha' & _ & Hck & _ & Hch & _ & _ & Hin & _).
    destruct (Hin p j Hpj) as (x & Hx & Hx').
    exists col, x, a'. unfold g. rewrite Ha'. cbn. rewrite Hx'.
    unfold chunked in *. rewrite Hch. auto 10. }
  exists (map (fun k => (k, g k)) (map fst (map_to_list d'))). split.
  - unfold __getitem__.
    rewrite (bind_returns keys _ st' (map fst (map_to_list d')) st').
    2:{ unfold keys. now rewrite Hd'. }
    erewrite bind_returns; [reflexivity|].
    apply mapM_pure. intros k Hk.
    apply list_elem_of_In, Hkeys in Hk as [a' Ha'].
    destruct (d !! k) as [a|] eqn:Hka;
      [|rewrite (Hdom k Hka) in Ha'; discriminate].
    destruct (Hval k a Hka) as (col & x & a'' & _ & _ & Ha'' & Hck & Hx & Hg).
    rewrite (bind_returns (data_getitem k) _ st' a'' st').
    2:{ unfold data_getitem. now rewrite Hd', Ha''. }
    unfold zarr_getitem_int.
    rewrite (getitem_int_nonneg _ _ _ Hj Hx), Hg. cbn [rbind].
    now rewrite Hck.
  - intros k a Hka.
    destruct (Hval k a Hka) as (col & x & a' & Hcol & Hp & Ha' & _ & _ & Hg).
    exists col, x. split; [exact Hcol|]. split; [exact Hp|].
    rewrite dict_get_map_key; [now rewrite Hg|].
    apply list_elem_of_In, Hkeys. eauto.
Qed.

End WithNumpy.

End ZarrReadFacts.

(** ** Iterating over the store *)

Module IterFacts.

Import Zarr ZarrStoreIterableDataset.

Local Abbreviation row_of cols :=
  (fun j : Z => match Samples.row cols j with Ok d => d | Raise _ => [] end).

(** The columns of a slice of samples. *)
Lemma slice_columns {A} (cols : Samples.t A) (N : Z) start stop :
  Forall (fun kv => Z.of_nat (length (snd kv)) = N) cols ->
  Forall (fun kv => Z.of_nat (length (snd kv))
                    = Z.max 0 (slice_bound N stop N - slice_bound N start 0))
         (map (fun kv : string * list A =>
                 (fst kv, getitem_slice (snd kv) start stop)) cols) /\
  forall j,
    (0 <= j < slice_bound N stop N - slice_bound N start 0)%Z ->
    Samples.row (map (fun kv : string * list A =>
                        (fst kv, getitem_slice (snd kv) start stop)) cols) j
    = Samples.row cols (slice_bound N start 0 + j).
Proof.
  intros Hall. rewrite List.Forall_forall in Hall. split.
  - apply List.Forall_forall. intros kv Hkv.
    apply in_map_iff in Hkv as ([k v] & <- & Hin). cbn [snd].
    specialize (Hall _ Hin). cbn [snd] in Hall.
    now rewrite getitem_slice_length, Hall.
  - intros j Hj. unfold Samples.row. rewrite SamplesFacts.rmap_map.
    apply SamplesFacts.rmap_ext_in. intros [k v] Hin. cbn [fst snd].
    specialize (Hall _ Hin). cbn [snd] in Hall.
    rewrite getitem_slice_int; rewrite Hall; [|exact Hj]. reflexivity.
Qed.

Lemma range_app a b c :
  (a <= b <= c)%Z -> range a b ++ range b c = range a c.
Proof.
  intros H. unfold range.
  replace (c - a)%Z with ((b - a) + (c - b))%Z by lia.
  rewrite seqZ_app by lia. do 2 f_equal. lia.
Qed.

Lemma range_0 n : range 0 n = seqZ 0 n.
Proof. unfold range. now rewrite Z.sub_0_r. Qed.

Lemma map_range_shift {B} (g : Z -> B) a n :
  map (fun i => g (a + i)%Z) (range 0 n) = map g (range a (a + n)).
Proof.
  unfold range. replace (a + n - a)%Z with (n - 0)%Z by lia.
  destruct (Z.le_gt_cases (n - 0) 0) as [Hn|Hn].
  - now rewrite !seqZ_nil by lia.
  - rewrite <- (Z2Nat.id (n - 0)) by lia.
    generalize (Z.to_nat (n - 0)). intros m. induction m as [|m IH];
      [reflexivity|].
    rewrite !seqZ_S, !map_app, IH. cbn. repeat f_equal; lia.
Qed.

Lemma rmap_total {B C} (f : B -> result C) (g : B -> C) l :
  (forall x, In x l -> f x = Ok (g x)) -> rmap f l = Ok (map g l).
Proof.
  induction l as [|x l IH]; intros H; [reflexivity|].
  cbn [rmap map]. fold (@rmap B C f).
  rewrite (H x (or_introl eq_refl)), IH; [reflexivity|].
  intros y Hy. apply H. now right.
Qed.

Section Iter.

Variable W : Type.
Variable permutation : list Z -> M W (list Z).
Hypothesis permutation_spec :
  forall l w, exists l' w', permutation l w = (Ok l', w') /\ l' ≡ₚ l.

Variables (self : t W) (zs : ZarrStore) (d : gmap string zarray) (N : nat).
Hypothesis Hhook : on_after_load_sample self = None.
Hypothesis Hoffset : (0 <= offset self)%Z.
Hypothesis Hchunk : (1 <= chunk_size self)%Z.
Hypothesis Hdata : data zs = Some d.
Hypothesis Hnonempty : d <> ∅.
Hypothesis Hlen : forall k a, d !! k = Some a -> length (rows a) = N.
Hypothesis Hchunked : forall k a, d !! k = Some a -> chunked a = true.

Local Abbreviation cols :=
  (map (fun ka : string * zarray => (fst ka, rows (snd ka))) (map_to_list d)).

Local Abbreviation lo i0 :=
  (Z.min (offset self + i0 * chunk_size self)%Z (Z.of_nat N)).

Lemma cols_uniform :
  cols <> [] /\
  Forall (fun kv => Z.of_nat (length (snd kv)) = Z.of_nat N) cols.
Proof using Hnonempty Hlen.
  split.
  - intros Hnil. apply Hnonempty, map_to_list_empty_iff.
    now destruct (map_to_list d).
  - apply List.Forall_forall. intros kv Hkv.
    apply in_map_iff in Hkv as ([k a] & <- & Hin). cbn [snd].
    apply list_elem_of_In, elem_of_map_to_list in Hin.
    now rewrite (Hlen k a Hin).
Qed.

(** The rows of [cols] that exist. *)
Lemma row_of_ok j :
  (0 <= j < Z.of_nat N)%Z -> Samples.row cols j = Ok (row_of cols j).
Proof using Hnonempty Hlen.
  intros Hj. destruct cols_uniform as [_ Hall].
  destruct (SamplesFacts.row_in cols (Z.of_nat N) j Hall ltac:(lia))
    as (r & -> & _). reflexivity.
Qed.

(** One chunk, as [__iter__] reads it. *)
Lemma read_chunk_ok i0 :
  (0 <= i0)%Z ->
  exists chunk,
    read_chunk self zs i0 = Ok chunk /\
    List.last (map (fun kv : string * list (list Z) =>
                      Some (length (snd kv))) chunk) None
    = Some (Z.to_nat (lo (i0 + 1) - lo i0)%Z) /\
    forall i, (0 <= i < lo (i0 + 1) - lo i0)%Z ->
      Samples.row chunk i = Ok (row_of cols (lo i0 + i)%Z).
Proof using Hoffset Hchunk Hdata Hnonempty Hlen Hchunked.
  intros Hi0. unfold read_chunk. rewrite Hdata.
  destruct cols_uniform as [Hne Hall].
  rewrite (rmap_total _
             (fun ka : string * zarray =>
                (fst ka,
                 getitem_slice (rows (snd ka))
                   (Some (offset self + i0 * chunk_size self)%Z)
                   (Some (offset self + (i0 + 1) * chunk_size self)%Z)))).
  2:{ intros [k a] Hin.
      apply list_elem_of_In, elem_of_map_to_list in Hin.
      unfold zarr_getitem_slice. cbn [fst snd].
      now rewrite (Hchunked k a Hin). }
  eexists. split; [reflexivity|].
  destruct (slice_columns cols (Z.of_nat N)
              (Some (offset self + i0 * chunk_size self)%Z)
              (Some (offset self + (i0 + 1) * chunk_size self)%Z) Hall)
    as [Hlens Hrows].
  assert (Hlo : slice_bound (Z.of_nat N)
                  (Some (offset self + i0 * chunk_size self)%Z) 0 = lo i0).
  { unfold slice_bound. destruct (Z.ltb_spec (offset self + i0 * chunk_size self) 0);
      [nia|reflexivity]. }
  assert (Hhi : slice_bound (Z.of_nat N)
                  (Some (offset self + (i0 + 1) * chunk_size self)%Z)
                  (Z.of_nat N) = lo (i0 + 1)).
  { unfold slice_bound.
    destruct (Z.ltb_spec (offset self + (i0 + 1) * chunk_size self) 0);
      [nia|reflexivity]. }
  rewrite Hlo, Hhi in Hlens, Hrows.
  rewrite <- (map_map (fun ka : string * zarray => (fst ka, rows (snd ka)))
                (fun kv : string * list (list Z) =>
                   (fst kv,
                    getitem_slice (snd kv)
                      (Some (offset self + i0 * chunk_size self)%Z)
                      (Some (offset self + (i0 + 1) * chunk_size self)%Z)))).
  split.
  - set (chunk := map _ cols) in *.
    assert (Hcne : chunk <> []).
    { unfold chunk. destruct cols; [contradiction|discriminate]. }
    destruct (exists_last Hcne) as (front & kv & Heq). rewrite Heq.
    rewrite map_app. cbn [map]. rewrite List.last_last. f_equal.
    rewrite List.Forall_forall in Hlens.
    assert (Hkv : In kv chunk) by (rewrite Heq; apply in_or_app; right; now left).
    specialize (Hlens kv Hkv). cbn beta in Hlens. nia.
  - intros i Hi. rewrite (Hrows i Hi). apply row_of_ok. lia.
Qed.

(** The inner loop: one row is yielded for each position of the order. *)
Lemma inner_loop chunk base order w ys :
  (forall i, i ∈ order ->
     Samples.row chunk i = Ok (row_of cols (base + i)%Z)) ->
  forM_ (fun i =>
           match Samples.row chunk i with
           | Raise e => raise e
           | Ok out =>
               out <- match on_after_load_sample self with
                      | Some hook => in_w (hook out)
                      | None => ret out
                      end ;;
               yield out
           end) order (w, ys)
  = (Ok tt, (w, ys ++ map (fun i => row_of cols (base + i)%Z) order)).
Proof using Hhook.
  rewrite Hhook. revert ys. induction order as [|i order IH]; intros ys Hrow.
  - cbn. now rewrite app_nil_r.
  - cbn [forM_ map]. rewrite (Hrow i) by (left).
    unfold bind at 1. cbn [ret bind yield modify fst snd].
    rewrite IH by (intros j Hj; apply Hrow; now right).
    now rewrite <- app_assoc.
Qed.

(** The outer loop: the rows of each chunk, in some order. *)
Lemma outer_loop idx :
  Forall (fun i0 => (0 <= i0)%Z) idx ->
  forall w ys,
    exists w' zs',
      forM_ (fun i0 =>
               match read_chunk self zs i0 with
               | Raise e => raise e
               | Ok data_chunk =>
                   match List.last (map (fun kv => Some (length (snd kv)))
                                        data_chunk) None with
                   | None => raise (UserError "UnboundLocalError")
                   | Some n =>
                       order <- in_w (permutation (range 0 (Z.of_nat n))) ;;
                       forM_ (fun i =>
                                match Samples.row data_chunk i with
                                | Raise e => raise e
                                | Ok out =>
                                    out <- match on_after_load_sample self with
                                           | Some hook => in_w (hook out)
                                           | None => ret out
                                           end ;;
                                    yield out
                                end) order
                   end
               end) idx (w, ys)
      = (Ok tt, (w', ys ++ zs')) /\
      zs' ≡ₚ flat_map (fun i0 => map (row_of cols)
                                     (range (lo i0) (lo (i0 + 1)%Z))) idx.
Proof using All.
  induction 1 as [|i0 idx Hi0 _ IH]; intros w ys.
  - exists w, []. cbn. now rewrite app_nil_r.
  - destruct (read_chunk_ok i0 Hi0) as (chunk & Hread & Hlast & Hrows).
    set (n := Z.to_nat (lo (i0 + 1) - lo i0)%Z) in *.
    destruct (permutation_spec (range 0 (Z.of_nat n)) w)
      as (order & w1 & Hperm & Hord).
    assert (Hin : forall i, i ∈ order ->
                    Samples.row chunk i = Ok (row_of cols (lo i0 + i)%Z)).
    { intros i Hi. rewrite Hord in Hi. apply IterableFacts.elem_of_range in Hi.
      apply Hrows. unfold n in Hi. lia. }
    destruct (IH w1 (ys ++ map (fun i => row_of cols (lo i0 + i)%Z) order))
      as (w' & zs' & Hrest & Hzs).
    exists w', (map (fun i => row_of cols (lo i0 + i)%Z) order ++ zs').
    split.
    + cbn [forM_]. rewrite Hread, Hlast.
      unfold bind at 1. unfold bind at 1. unfold in_w at 1. cbn [fst snd].
      rewrite Hperm. rewrite (inner_loop chunk (lo i0) order w1 ys Hin).
      rewrite Hrest. now rewrite <- app_assoc.
    + cbn [flat_map]. apply Permutation_app; [|exact Hzs].
      pose proof (map_range_shift (row_of cols) (lo i0) (Z.of_nat n)) as Hs.
      cbn beta in Hs. rewrite Hord, Hs. unfold n.
      assert (Hmono : (lo i0 <= lo (i0 + 1))%Z) by nia.
      replace (lo i0 + Z.of_nat (Z.to_nat (lo (i0 + 1) - lo i0)))%Z
        with (lo (i0 + 1)) by lia.
      reflexivity.
Qed.

Lemma chunks_range (nc : nat) :
  flat_map (fun i0 => map (row_of cols) (range (lo i0) (lo (i0 + 1)%Z)))
           (seqZ 0 (Z.of_nat nc))
  = map (row_of cols) (range (lo 0%Z) (lo (Z.of_nat nc))).
Proof using Hoffset Hchunk.
  induction nc as [|nc IH].
  - change (Z.of_nat 0) with 0%Z. unfold range.
    rewrite (seqZ_nil 0) by lia. rewrite (seqZ_nil (lo 0%Z)) by lia.
    reflexivity.
  - rewrite seqZ_S, flat_map_app, IH.
    cbn [flat_map]. rewrite app_nil_r, <- map_app. f_equal.
    rewrite Z.add_0_l.
    replace (Z.of_nat nc + 1)%Z with (Z.of_nat (S nc)) by lia.
    apply range_app. nia.
Qed.

(** The whole run of the generator, in one process. *)
Lemma iter_rows w :
  (0 <= n_chunks self)%Z ->
  exists w' ys,
    __iter__ permutation self zs None (w, [])
    = (Ok tt, (w', ys)) /\
    ys ≡ₚ map (row_of cols)
              (range (lo 0%Z) (lo (n_chunks self))).
Proof using All.
  intros Hnc. unfold __iter__, get_idx.
  destruct (permutation_spec (range 0 (n_chunks self)) w)
    as (idx & w1 & Hperm & Hidx).
  assert (Hpos : Forall (fun i0 => (0 <= i0)%Z) idx).
  { apply List.Forall_forall. intros i0 Hi0.
    apply list_elem_of_In in Hi0. rewrite Hidx in Hi0.
    apply IterableFacts.elem_of_range in Hi0. lia. }
  destruct (outer_loop idx Hpos w1 []) as (w' & zs' & Hloop & Hzs).
  exists w', zs'. split.
  - unfold bind at 1. unfold in_w at 1. cbn [fst snd]. rewrite Hperm.
    exact Hloop.
  - rewrite Hzs, Hidx, range_0.
    rewrite <- (Z2Nat.id (n_chunks self)) by exact Hnc.
    rewrite chunks_range. reflexivity.
Qed.

End Iter.

(** X28.  In one process and without a hook, a dataset made for the rows
    [[a, b)] of a store yields whole chunks: run to its end, it yields
    each row from [a] up to [a + n_chunks * chunk_size] (or the end of the
    store) once, in some order, where [n_chunks * chunk_size] is [b - a]
    rounded up to a multiple of the chunk size.  When [b - a] is not such
    a multiple, rows at and after [b] are among them.  This is for a
    store whose arrays can be read (no chunk extent is [0]) and a range
    of fewer than [2**53] rows, for which the floating-point quotient
    that [__init__] rounds up is the ceiling of [(b - a) / chunk_size]. *)
Theorem iter_yields_whole_chunks (W : Type)
    (permutation : list Z -> M W (list Z)) (zs : ZarrStore)
    (d : gmap string zarray) (N : nat) (a b : Z) (self : t W) (w : W) :
  (forall l w, exists l' w', permutation l w = (Ok l', w') /\ l' ≡ₚ l) ->
  data zs = Some d -> d <> ∅ ->
  (forall k arr, d !! k = Some arr -> length (rows arr) = N) ->
  (forall k arr, d !! k = Some arr -> chunked arr = true) ->
  (0 <= a <= b)%Z ->
  (b - a < 2 ^ 53)%Z ->
  __init__ zs (Some (a, b)) None = Ok self ->
  (1 <= chunk_size self)%Z ->
  let stop := (a + n_chunks self * chunk_size self)%Z in
  (b <= stop < b + chunk_size self)%Z /\
  exists cols w' ys rows,
    ZarrRead.get_sample_store zs = (Ok cols, zs) /\
    __iter__ permutation self zs None (w, []) = (Ok tt, (w', ys)) /\
    rmap (Samples.row cols)
         (range (Z.min a (Z.of_nat N)) (Z.min stop (Z.of_nat N)))
    = Ok rows /\
    ys ≡ₚ rows.
Proof.
  intros Hperm Hd Hne Hlen Hck Hab Hsmall Hinit Hcs stop.
  unfold __init__ in Hinit. cbn [rbind fst snd] in Hinit.
  destruct (store_chunk_size zs) as [cs|] eqn:Hattr; [|discriminate].
  cbn [rbind] in Hinit.
  destruct (ceil_div (b - a) cs) as [nc|] eqn:Hnc; [|discriminate].
  cbn [rbind] in Hinit. injection Hinit as <-.
  cbn [chunk_size n_chunks offset on_after_load_sample] in *.
  destruct (IterableFacts.ceil_div_spec (b - a) cs ltac:(lia) Hcs)
    as (per & Hper & Hp0 & Hcover & _ & Htight).
  rewrite Hnc in Hper. injection Hper as <-.
  split; [subst stop; nia|].
  set (self := mk (b - a) a cs nc None).
  destruct (iter_rows W permutation Hperm self zs d N eq_refl
              (proj1 Hab) Hcs Hd Hne Hlen Hck w Hp0)
    as (w' & ys & Hrun & Hys).
  eexists _, w', ys, _. split.
  { unfold ZarrRead.get_sample_store, ZarrRead.numpy. rewrite Hd.
    rewrite (rmap_total _ (fun ka : string * zarray =>
                             (fst ka, rows (snd ka)))); [reflexivity|].
    intros [k arr] Hin.
    apply list_elem_of_In, elem_of_map_to_list in Hin.
    unfold ZarrRun.read_all. cbn [fst snd].
    now rewrite (Hck k arr Hin). }
  split; [exact Hrun|]. split; [|].
  - apply rmap_total. intros j Hj.
    apply list_elem_of_In, IterableFacts.elem_of_range in Hj.
    apply (row_of_ok d N Hne Hlen). lia.
  - cbn [offset chunk_size n_chunks self] in Hys.
    rewrite Z.mul_0_l, Z.add_0_r in Hys. exact Hys.
Qed.

End IterFacts.

(** ** The properties above on concrete runs *)

Module MoreExamples.

Import Demo Demo2.

Lemma fan_out_witness :
  evaluate node_a (fresh None [] false)
  = (Ok (VInt 1),
     mkState (set_items (trace (fresh None [] false))
                        [("a", VInt 1); ("b", VInt 2)])
             (mkEnv 1 ["pair"])).
Proof.
  refine (fan_out_stores_every_output pyval nat node_a ["a"; "b"]
            (fresh None [] false) [] [] (fresh None [] false)
            (VTuple [VInt 1; VInt 2]) 1 [VInt 1; VInt 2] (VInt 1)
            eq_refl eq_refl eq_refl eq_refl eq_refl eq_refl _ _ eq_refl).
  - repeat constructor; rewrite ?elem_of_cons, ?elem_of_nil; intuition
      discriminate.
  - intros n _ [].
Defined.

Lemma fan_out_not_iterable_witness :
  evaluate (mkLazyValue "a" (ManyNames ["a"; "b"]) f false [] [])
           (fresh None [] false)
  = (Raise TypeError,
     mkState (trace (fresh None [] false)) (mkEnv 1 ["f"])).
Proof.
  exact (proj1 (fan_out_short_result_raises pyval nat
                  (mkLazyValue "a" (ManyNames ["a"; "b"]) f false [] [])
                  ["a"; "b"] (fresh None [] false) [] []
                  (fresh None [] false) (VInt 7) 1
                  eq_refl eq_refl eq_refl eq_refl eq_refl)
               eq_refl).
Defined.

Lemma keyword_arguments_witness :
  evaluate node_pq (fresh None [] false)
  = (Ok (VInt 30),
     mkState (set_items (trace (fresh None [] false))
                        [("q", VInt 10); ("p", VInt 20); ("r", VInt 30)])
             (mkEnv 3 ["fq"; "fp"; "fr"])).
Proof.
  refine (keyword_arguments_evaluate_first pyval nat "r" "p" "q" "key"
            (stamp "fr") (stamp "fp") (stamp "fq") (fresh None [] false)
            (VInt 10) 1 (VInt 20) 2 (VInt 30) 3 _ _
            eq_refl eq_refl eq_refl).
  - repeat constructor; rewrite ?elem_of_cons, ?elem_of_nil; intuition
      discriminate.
  - intros k _ [].
Defined.

Lemma log_prob_conditioned_witness :
  evaluate node_x (fresh None [("x", VInt 3)] true)
  = (Ok (VInt 3),
     mkState (__setitem__ (trace (fresh None [("x", VInt 3)] true))
                          "x:log_prob" (VInt (-9)))
             (mkEnv 1 ["normal"])).
Proof.
  exact (log_prob_of_conditioned_value pyval nat node_x
           (fresh None [("x", VInt 3)] true) (VInt 3) [] []
           (fresh None [("x", VInt 3)] true) (VNormal 0) 1 _ (VInt (-9)) 1
           eq_refl eq_refl eq_refl eq_refl eq_refl eq_refl eq_refl eq_refl).
Defined.

Lemma covered_targets_witness :
  covers_targets
    (trace (run_ops [SetItem "x" (VInt 2); Sample (NameStr "y") f [] [];
                     Enter (prefix "p"); Evaluate node_x; Exit (prefix "")]
                    (fresh (Some ["x"]) [("x", VInt 1)] false)))
  = true.
Proof.
  refine (covered_targets_stay_covered pyval nat
            [SetItem "x" (VInt 2); Sample (NameStr "y") f [] [];
             Enter (prefix "p"); Evaluate node_x; Exit (prefix "")]
            (fresh (Some ["x"]) [("x", VInt 1)] false) _ eq_refl).
  repeat constructor.
Defined.

Lemma reentered_manager_witness :
  let s1 := snd (__enter__ (prefix "p") (fresh None [] false)) in
  let entered := with_trace s1 (set_prefix (trace s1) "p") in
  let after := snd (sample (NameStr "x") f [] [] entered) in
  with_ (mkContextManager "") (sample (NameStr "x") f [] []) s1
  = (fst (sample (NameStr "x") f [] [] entered),
     with_trace after (set_prefix (trace after) "p")).
Proof.
  exact (reentered_manager_uses_saved_prefix pyval nat "p"
           (fresh None [] false) (mkContextManager "")
           (snd (__enter__ (prefix "p") (fresh None [] false)))
           (sample (NameStr "x") f [] [])
           (snd (__enter__ (prefix "p") (fresh None [] false)))
           eq_refl).
Defined.

Lemma run_output_witness :
  (exists d', [("x", VInt 5); ("y", VInt 7)] = [("x", VInt 5)] ++ d') /\
  (forall ts k, Some ["y"] = Some ts -> In k ts ->
     In k (dict_keys [("x", VInt 5); ("y", VInt 7)])).
Proof.
  exact (run_output_extends_conditions pyval nat forward_y (Some ["y"])
           [("x", VInt 5)] false env0 [("x", VInt 5); ("y", VInt 7)]
           (mkEnv 1 ["f"])
           (run_op_grows pyval nat (Sample (NameStr "y") f [] []) eq_refl)
           eq_refl).
Defined.

Lemma resampler_missing_witness :
  exists k',
    In k' ["z"] /\
    SimulatorResampler__call__ sim_y ["z"] [("x", VInt 5)] env0
    = (Raise (KeyError k'), env0).
Proof.
  refine (resampler_missing_target_raises pyval nat sim_y ["z"]
            [("x", VInt 5)] env0 "z" (or_introl eq_refl) _).
  intros [H|[]]. discriminate H.
Defined.

Lemma resampler_keeps_witness :
  exists out,
    OneSample [("x", VInt 5); ("y", VInt 7)] = OneSample out /\
    (forall k v, ~ In k ["y"] ->
       dict_get [("x", VInt 5); ("y", VInt 0)] k = Some v ->
       dict_get out k = Some v) /\
    (forall k, In k ["y"] -> In k (dict_keys out)).
Proof.
  exact (resampler_keeps_other_entries pyval nat forward_y ["y"]
           [("x", VInt 5); ("y", VInt 0)] env0
           (OneSample [("x", VInt 5); ("y", VInt 7)]) (mkEnv 1 ["f"])
           (run_op_grows pyval nat (Sample (NameStr "y") f [] []) eq_refl)
           eq_refl).
Defined.

Lemma get_index_slices_runs_witness :
  slice_rows (get_index_slices [2; 3; 4; 7; 8; 10]%Z)
  = [2; 3; 4; 7; 8; 10]%Z.
Proof.
  refine (proj1 (get_index_slices_runs [2; 3; 4; 7; 8; 10]%Z _ _)).
  - repeat constructor.
  - repeat constructor.
Defined.

(** The store of three rows, filled in batches of two. *)
Lemma simulate_batch_witness :
  let st' := fst (snd (ZarrRun._simulate_batch draw 2 (store3, 0))) in
  Zarr.sim_status st'
  = Some (Zarr.mkArray [3] [2] "i4" [[1]; [1]; [0]]%Z) /\
  ZarrRun.sims_required st' = (Ok 1%Z, st').
Proof.
  cbv zeta.
  pose proof (ZarrRunFacts.simulate_batch_marks_first_pending nat draw 2
                store3 0 2
                (fst (snd (ZarrRun._simulate_batch draw 2 (store3, 0))))
                (snd (snd (ZarrRun._simulate_batch draw 2 (store3, 0))))
                (Zarr.zeros 3 2 [] "i4") eq_refl ltac:(lia)
                ltac:(vm_compute; reflexivity)) as (_ & H1 & H2).
  split; [exact H1|exact H2].
Defined.

Lemma simulate_batch_writes_witness :
  exists samples d',
    draw 2 0 = (Ok samples, 1) /\
    Zarr.data (fst (snd (ZarrRun._simulate_batch draw 2 (store3, 0))))
    = Some d' /\
    (forall k, data3 !! k = None -> d' !! k = None) /\
    forall k a,
      data3 !! k = Some a ->
      exists col a',
        samples !! k = Some col /\ d' !! k = Some a' /\
        ZarrRun.row_shape col = tl (Zarr.shape a) /\
        Zarr.shape a' = Zarr.shape a /\ Zarr.chunks a' = Zarr.chunks a /\
        Zarr.dtype a' = Zarr.dtype a /\
        length (Zarr.rows a') = length (Zarr.rows a) /\
        (forall p j,
           take (Z.to_nat 2)
                (ZarrRun.pending_idx (Zarr.rows (Zarr.zeros 3 2 [] "i4")))
           !! p = Some j ->
           exists x, ZarrRun.nd_rows col !! p = Some x /\
                     Zarr.rows a' !! Z.to_nat j
                     = Some (map (cast (Zarr.dtype a)) x)) /\
        (forall i,
           Z.of_nat i
           ∉ take (Z.to_nat 2)
                  (ZarrRun.pending_idx (Zarr.rows (Zarr.zeros 3 2 [] "i4"))) ->
           Zarr.rows a' !! i = Zarr.rows a !! i).
Proof.
  refine (ZarrRunFacts.simulate_batch_writes_samples nat draw 2 store3 0 2
            (fst (snd (ZarrRun._simulate_batch draw 2 (store3, 0)))) 1
            (Zarr.zeros 3 2 [] "i4") data3
            eq_refl ltac:(vm_compute; reflexivity) _ ltac:(lia)
            ltac:(vm_compute; reflexivity) ltac:(lia)).
  intros k a Hk. unfold data3 in Hk.
  apply lookup_singleton_Some in Hk as [_ <-]. reflexivity.
Defined.

Lemma simulate_fills_store_witness :
  let st' := fst (snd (ZarrRun.simulate draw None 2 4 (store3, 0))) in
  fst (ZarrRun.simulate draw None 2 4 (store3, 0)) = Ok (Some tt) /\
  Zarr.sim_status st'
  = Some (Zarr.mkArray [3] [2] "i4" [[1]; [1]; [1]]%Z) /\
  ZarrRun.sims_required st' = (Ok 0%Z, st').
Proof.
  cbv zeta.
  pose proof (ZarrRunFacts.simulate_fills_store nat draw 2 4 store3 0
                (Zarr.zeros 3 2 [] "i4") (Ok (Some tt))
                (fst (snd (ZarrRun.simulate draw None 2 4 (store3, 0))))
                (snd (snd (ZarrRun.simulate draw None 2 4 (store3, 0))))
                ltac:(lia) eq_refl ltac:(vm_compute; lia)
                ltac:(vm_compute; reflexivity)) as [_ H].
  split; [vm_compute; reflexivity|]. exact (H (Some tt) eq_refl).
Defined.

Lemma simulate_max_sims_witness :
  let st' := fst (snd (ZarrRun.simulate draw (Some 1%Z) 2 4 (store3, 0))) in
  exists done : Z,
    Zarr.sim_status st'
    = Some (Zarr.mkArray [3] [2] "i4"
              (ZarrRun.mark_first (Z.to_nat done) [[0]; [0]; [0]]%Z)) /\
    ZarrRun.sims_required st' = (Ok (3 - done)%Z, st') /\
    (0 <= done <= 3)%Z /\
    (done = 3%Z \/
     (1 <= done)%Z /\ (done = 0%Z \/ (done < 1 + 2)%Z)).
Proof.
  cbv zeta.
  exact (proj2 (ZarrRunFacts.simulate_max_sims_overshoot nat draw 1 2 4
                  store3 0 (Zarr.zeros 3 2 [] "i4") (Some tt)
                  (fst (snd (ZarrRun.simulate draw (Some 1%Z) 2 4
                                              (store3, 0))))
                  (snd (snd (ZarrRun.simulate draw (Some 1%Z) 2 4
                                              (store3, 0))))
                  ltac:(lia) eq_refl ltac:(vm_compute; lia)
                  ltac:(vm_compute; reflexivity))).
Defined.

Lemma simulate_zero_batch_size_witness :
  ZarrRun.simulate draw None 0 5 (store3, 0) = (Ok None, (store3, 0)).
Proof.
  refine (ZarrRunFacts.simulate_zero_batch_size_never_returns nat draw None
            store3 0 (Zarr.zeros 3 2 [] "i4") eq_refl
            ltac:(vm_compute; reflexivity) _ 5).
  intros m H. discriminate H.
Defined.

(** The store of three rows, filled, cut to one row and grown to three
    again: the second entry comes back as the chunk of two rows kept it,
    the third is pending. *)
Lemma set_length_adds_pending_witness :
  let full := fst (snd (ZarrRun.simulate draw None 2 4 (store3, 0))) in
  let cut := snd (Zarr.set_length 1 true full) in
  let st' := snd (Zarr.set_length 3 false cut) in
  Zarr.sim_status cut = Some (Zarr.mkArray [1] [2] "i4" [[1]]%Z) /\
  Zarr.sim_status st'
  = Some (Zarr.mkArray [3] [2] "i4" [[1]; [1]; [0]]%Z) /\
  ZarrRun.sims_required st' = (Ok 1%Z, st').
Proof.
  cbv zeta.
  set (cut := snd (Zarr.set_length 1 true
                     (fst (snd (ZarrRun.simulate draw None 2 4
                                                 (store3, 0)))))).
  assert (Hcut : Zarr.sim_status cut
                 = Some (Zarr.mkArray [1] [2] "i4" [[1]]%Z))
    by (vm_compute; reflexivity).
  pose proof (ZarrCycleFacts.set_length_adds_pending 3 false cut
                (snd (Zarr.set_length 3 false cut))
                (Zarr.mkArray [1] [2] "i4" [[1]]%Z) Hcut eq_refl
                ltac:(vm_compute; reflexivity)) as H.
  cbv zeta in H. destruct H as (Hs & _ & Hr & _).
  split; [exact Hcut|]. split.
  - rewrite Hs. vm_compute. reflexivity.
  - rewrite Hr. f_equal.
Defined.

Lemma set_length_chunk_zero_witness :
  fst (Zarr.set_length 5 false store0) = Raise ZeroDivisionError.
Proof.
  refine (ZarrCycleFacts.set_length_chunk_zero 3 5 false store0 data0
            ltac:(vm_compute; reflexivity) ltac:(vm_compute; reflexivity)
            _ ltac:(lia)).
  intros k a Hk. unfold data0 in Hk.
  apply lookup_singleton_Some in Hk as [_ <-]. now exists [2].
Defined.

Lemma init_makes_all_pending_witness :
  ZarrRun.sims_required store3 = (Ok 3%Z, store3) /\
  Zarr.chunk_size_attr store3 = Some 2 /\
  exists l d',
    Some shapes_x = Some l /\ Zarr.data store3 = Some d' /\
    forall k s, In (k, s) l ->
      exists a, d' !! k = Some a /\
                Zarr.shape a = 3 :: s /\ Zarr.chunks a = 2 :: s.
Proof.
  destruct (ZarrCycleFacts.init_makes_all_pending 3 2 (Some shapes_x)
              (Some dtypes_x) Zarr.empty_store store3 eq_refl eq_refl
              ltac:(vm_compute; reflexivity)) as (H1 & _ & H2 & H3).
  split; [apply H1; lia|]. split; [exact H2|exact H3].
Defined.

(** Samples with two columns of three rows. *)
Lemma samples_rows_witness :
  (forall i, (- 3 <= i < 3)%Z ->
     exists d,
       Samples.__getitem__ samples_xy (Int i) = Ok (Samples.Row d) /\
       dict_keys d = dict_keys samples_xy /\
       forall k v, dict_get samples_xy k = Some v ->
         exists x, v !! Z.to_nat (i mod 3) = Some x /\
                   dict_get d k = Some x) /\
  (forall i, (i < - 3 \/ 3 <= i)%Z ->
     Samples.__getitem__ samples_xy (Int i) = Raise IndexError).
Proof.
  exact (SamplesFacts.samples_len_counts_rows Z samples_xy 3 eq_refl).
Defined.

Lemma samples_slice_witness :
  exists s',
    Samples.__getitem__ samples_xy (Slice (Some 1%Z) (Some (-1)%Z))
    = Ok (Samples.Sub s') /\
    dict_keys s' = dict_keys samples_xy /\
    Samples.__len__ s' = Ok 1%Z /\
    forall j, (0 <= j < 1)%Z ->
      Samples.row s' j = Samples.row samples_xy (1 + j).
Proof.
  exact (SamplesFacts.samples_slice_rows Z samples_xy 3 (Some 1%Z)
           (Some (-1)%Z) eq_refl).
Defined.

Lemma repeat_wrapper_witness :
  let ds := SamplesDataset.mk (W := unit) samples_xy None in
  let wrapper := RepeatDatasetWrapper.mk ds 2 in
  SamplesDataset.__len__ ds = Ok 3%Z /\
  RepeatDatasetWrapper.__len__ wrapper = Ok 6%Z /\
  forall i, (0 <= i < 6)%Z ->
    (0 <= i / 2 < 3)%Z /\
    exists d,
      Samples.row samples_xy (i / 2) = Ok d /\
      RepeatDatasetWrapper.__getitem__ wrapper i = ret d.
Proof.
  exact (SamplesFacts.repeat_wrapper_serves_rows Z unit samples_xy 3 None 2
           eq_refl ltac:(lia)).
Defined.

Lemma repeat_wrapper_negative_witness :
  RepeatDatasetWrapper.__getitem__
    (RepeatDatasetWrapper.mk (SamplesDataset.mk (W := unit) samples_xy None)
                             2) (-1)
  = RepeatDatasetWrapper.__getitem__
      (RepeatDatasetWrapper.mk (SamplesDataset.mk (W := unit) samples_xy None)
                               2) 5.
Proof.
  exact (SamplesFacts.repeat_wrapper_negative_index Z unit samples_xy 3 None
           2 5 eq_refl ltac:(lia) ltac:(lia)).
Defined.

Lemma equalize_tensors_witness :
  length [1; 2; 1; 2]%Z = length [5; 6; 7; 8]%Z /\
  (length [1; 2]%Z <> 0 -> length [5; 6; 7; 8]%Z <> 0 ->
   length [1; 2; 1; 2]%Z
   = Nat.max (length [1; 2]%Z) (length [5; 6; 7; 8]%Z)) /\
  forall i, i < length [1; 2; 1; 2]%Z ->
    [1; 2; 1; 2]%Z !! i = [1; 2]%Z !! (i mod length [1; 2]%Z) /\
    [5; 6; 7; 8]%Z !! i = [5; 6; 7; 8]%Z !! (i mod length [5; 6; 7; 8]%Z).
Proof.
  exact (equalize_tensors_rows Z [1; 2]%Z [5; 6; 7; 8]%Z [1; 2; 1; 2]%Z
           [5; 6; 7; 8]%Z eq_refl).
Defined.


Lemma store_returns_simulated_rows_witness :
  exists samples,
    draw 2 0 = (Ok samples, 1) /\
    forall p j,
      take (Z.to_nat 2)
           (ZarrRun.pending_idx (Zarr.rows (Zarr.zeros 3 2 [] "i4"))) !! p
      = Some j ->
      exists row,
        ZarrRead.__getitem__ (ZarrRead.Known (Int j))
          (fst (snd (ZarrRun._simulate_batch draw 2 (store3, 0))))
        = (Ok (ZarrRead.Row row),
           fst (snd (ZarrRun._simulate_batch draw 2 (store3, 0)))) /\
        forall k a, data3 !! k = Some a ->
          exists col x,
            samples !! k = Some col /\ ZarrRun.nd_rows col !! p = Some x /\
            dict_get row k = Some (map (cast (Zarr.dtype a)) x).
Proof.
  refine (ZarrReadFacts.store_returns_simulated_rows nat draw 2 store3 0 2
            (fst (snd (ZarrRun._simulate_batch draw 2 (store3, 0)))) 1
            (Zarr.zeros 3 2 [] "i4") data3
            eq_refl ltac:(vm_compute; reflexivity) _ ltac:(lia)
            ltac:(vm_compute; reflexivity) ltac:(lia)).
  intros k a Hk. unfold data3 in Hk.
  apply lookup_singleton_Some in Hk as [_ <-]. reflexivity.
Defined.

(** A dataset for the first row of [store3], whose chunks have two rows:
    it yields two. *)
Lemma iter_yields_whole_chunks_witness :
  let self := ZarrStoreIterableDataset.mk (W := unit) 1 0 2 1 None in
  (1 <= 0 + 1 * 2 < 1 + 2)%Z /\
  exists cols w' ys rows,
    ZarrRead.get_sample_store store3 = (Ok cols, store3) /\
    ZarrStoreIterableDataset.__iter__ reversed self store3 None (tt, [])
    = (Ok tt, (w', ys)) /\
    rmap (Samples.row cols)
         (ZarrStoreIterableDataset.range (Z.min 0 (Z.of_nat 3))
                                         (Z.min (0 + 1 * 2) (Z.of_nat 3)))
    = Ok rows /\
    ys ≡ₚ rows.
Proof.
  cbv zeta.
  refine (IterFacts.iter_yields_whole_chunks unit reversed store3 data3 3
            0 1 (ZarrStoreIterableDataset.mk 1 0 2 1 None) tt _
            ltac:(vm_compute; reflexivity) _ _ _ ltac:(lia) ltac:(lia)
            ltac:(vm_compute; reflexivity) ltac:(cbn; lia)).
  - intros l w. exists (reverse l), w. split; [reflexivity|].
    apply reverse_Permutation.
  - unfold data3. apply insert_non_empty.
  - intros k a Hk. unfold data3 in Hk.
    apply lookup_singleton_Some in Hk as [_ <-]. reflexivity.
  - intros k a Hk. unfold data3 in Hk.
    apply lookup_singleton_Some in Hk as [_ <-]. reflexivity.
Defined.

End MoreExamples.
